(** * Product importer: CSV import pipeline and webhook delivery

    A shallow embedding of the core of the product importer
    ([app/tasks/import_csv.py], [app/tasks/webhook_sender.py],
    [app/api/products.py], [app/models]) together with the properties
    its specification states about it.

    Conventions of the embedding.
    - A Python [str] is a [string]; text is modelled by its ASCII
      characters (case mapping and white space are those of the ASCII
      range, [len] counts characters of the string).
    - A Python [int] is a [Z]; a [dict] with string keys is a
      [gmap string _]; [None] is [None].
    - A raised exception is an explicit [Raise] result.
    - Time stamps are inputs of the functions that read the clock, or
      are left out where no property depends on them. *)

From Stdlib Require Import ZArith NArith Ascii String List Bool Lia.
From stdpp Require Import gmap strings list fin_maps pretty.

Local Open Scope Z_scope.

(** ** Results of fallible code *)

Inductive exn : Type :=
  | AttributeError      (* a method called on [None] *)
  | ZeroDivisionError
  | FileNotFoundError
  | CsvError            (* [_csv.Error] *)
  | DatabaseError.      (* the store rejects a statement *)

Inductive result (A : Type) : Type :=
  | Ok (a : A)
  | Raise (e : exn).
Arguments Ok {A} a.
Arguments Raise {A} e.

Definition rbind {A B} (r : result A) (k : A -> result B) : result B :=
  match r with
  | Ok a => k a
  | Raise e => Raise e
  end.

Notation "x <-! r ;; k" := (rbind r (fun x => k))
  (at level 100, r at next level, right associativity).

(** ** Python string methods *)

Module Py.

(** [str.isspace] on one ASCII character: TAB..CR, FS..US and space. *)
Definition isspace (c : ascii) : bool :=
  let n := N_of_ascii c in
  ((9 <=? n) && (n <=? 13) || (28 <=? n) && (n <=? 32))%N.

Fixpoint lstrip (s : string) : string :=
  match s with
  | String c s' => if isspace c then lstrip s' else s
  | EmptyString => EmptyString
  end.

Definition rstrip (s : string) : string := String.rev (lstrip (String.rev s)).

(** [s.strip()] *)
Definition strip (s : string) : string := rstrip (lstrip s).

Definition upper_char (c : ascii) : ascii :=
  let n := N_of_ascii c in
  if ((97 <=? n) && (n <=? 122))%N then ascii_of_N (n - 32) else c.

Definition lower_char (c : ascii) : ascii :=
  let n := N_of_ascii c in
  if ((65 <=? n) && (n <=? 90))%N then ascii_of_N (n + 32) else c.

Fixpoint smap (f : ascii -> ascii) (s : string) : string :=
  match s with
  | String c s' => String (f c) (smap f s')
  | EmptyString => EmptyString
  end.

(** [s.upper()] and [s.lower()] *)
Definition upper : string -> string := smap upper_char.
Definition lower : string -> string := smap lower_char.

(** Truth value of a string: [if s:] *)
Definition truthy (s : string) : bool :=
  match s with EmptyString => false | _ => true end.

(** [len(s)] *)
Definition len (s : string) : Z := Z.of_nat (String.length s).

Definition is_digit (c : ascii) : bool :=
  let n := N_of_ascii c in ((48 <=? n) && (n <=? 57))%N.

Definition digit_val (c : ascii) : N := (N_of_ascii c - 48)%N.

(** Longest prefix of decimal digits, and the rest. *)
Fixpoint span_digits (l : list ascii) : list ascii * list ascii :=
  match l with
  | c :: r =>
      if is_digit c
      then let '(ds, rest) := span_digits r in (c :: ds, rest)
      else ([], l)
  | [] => ([], [])
  end.

Definition digits_to_N (ds : list ascii) : N :=
  fold_left (fun acc d => (10 * acc + digit_val d)%N) ds 0%N.

(** An optional sign: [true] for a minus. *)
Definition parse_sign (l : list ascii) : bool * list ascii :=
  match l with
  | "-"%char :: r => (true, r)
  | "+"%char :: r => (false, r)
  | _ => (false, l)
  end.

(** *** [int(s)] for a string, base 10

    White space around the literal is dropped, a sign may come first,
    and single underscores may separate digits.  [None] stands for
    [ValueError]. *)
Fixpoint int_digits (prev_digit : bool) (acc : N) (l : list ascii) : option N :=
  match l with
  | [] => if prev_digit then Some acc else None
  | c :: r =>
      if is_digit c then int_digits true (10 * acc + digit_val c)%N r
      else if (Ascii.eqb c "_" && prev_digit)%bool then
        match r with
        | d :: _ => if is_digit d then int_digits false acc r else None
        | [] => None
        end
      else None
  end.

Definition int (s : string) : option Z :=
  let '(neg, r) := parse_sign (list_ascii_of_string (strip s)) in
  match int_digits false 0%N r with
  | Some n => Some (if neg then - Z.of_N n else Z.of_N n)
  | None => None
  end.

End Py.

(** ** [decimal.Decimal] *)

Module Decimal.

(** A decimal value: sign, coefficient and exponent, an infinity, or
    a (quiet or signalling) NaN with its diagnostic digits. *)
Inductive t : Type :=
  | Finite (neg : bool) (coeff : N) (exponent : Z)
  | Infinity (neg : bool)
  | NaN (neg : bool) (signalling : bool) (diag : N).

Definition after_exponent (neg : bool) (coeff : N) (nfrac : Z)
    (l : list ascii) : option t :=
  let '(eneg, r) := Py.parse_sign l in
  match Py.span_digits r with
  | (_ :: _ as ds, []) =>
      let e := Z.of_N (Py.digits_to_N ds) in
      Some (Finite neg coeff ((if eneg then - e else e) - nfrac))
  | _ => None
  end.

(** [digits [. digits] [E [sign] digits]] with at least one digit in
    the coefficient. *)
Definition number (neg : bool) (l : list ascii) : option t :=
  let '(ip, r1) := Py.span_digits l in
  let '(fp, r2) :=
    match r1 with
    | "."%char :: r => Py.span_digits r
    | _ => ([], r1)
    end in
  match ip ++ fp with
  | [] => None
  | ds =>
      let coeff := Py.digits_to_N ds in
      let nfrac := Z.of_nat (length fp) in
      match r2 with
      | [] => Some (Finite neg coeff (- nfrac))
      | c :: r3 =>
          if Ascii.eqb (Py.lower_char c) "e"
          then after_exponent neg coeff nfrac r3
          else None
      end
  end.

(** [Inf], [Infinity], [NaN<digits>] and [sNaN<digits>], in any case. *)
Definition special (neg : bool) (l : list ascii) : option t :=
  let low := map Py.lower_char l in
  let nan (signalling : bool) (r : list ascii) :=
    match Py.span_digits r with
    | (ds, []) => Some (NaN neg signalling (Py.digits_to_N ds))
    | _ => None
    end in
  match low with
  | ["i"; "n"; "f"]%char => Some (Infinity neg)
  | ["i"; "n"; "f"; "i"; "n"; "i"; "t"; "y"]%char => Some (Infinity neg)
  | "n"%char :: "a"%char :: "n"%char :: r => nan false r
  | "s"%char :: "n"%char :: "a"%char :: "n"%char :: r => nan true r
  | _ => None
  end.

(** [Decimal(s)]: surrounding white space and every underscore are
    dropped, then the numeric string is read.  [None] stands for
    [InvalidOperation].  The construction is exact; the bound of the
    implementation on the size of exponents is left out. *)
Definition of_string (s : string) : option t :=
  let l := filter (fun c => c ≠ "_"%char) (list_ascii_of_string (Py.strip s)) in
  let '(neg, r) := Py.parse_sign l in
  match number neg r with
  | Some d => Some d
  | None => special neg r
  end.

(** [d < 0]; an ordering comparison with a NaN signals
    [InvalidOperation] ([None]). *)
Definition lt_zero (d : t) : option bool :=
  match d with
  | Finite neg coeff _ => Some (neg && negb (coeff =? 0)%N)
  | Infinity neg => Some neg
  | NaN _ _ _ => None
  end.

End Decimal.


(** ** Row validator ([parse_csv_row]) *)

(** The typed record a valid row is parsed into (the [data] dictionary). *)
Module ProductData.
Record t : Type := mk {
  sku : string;
  name : string;
  description : option string;
  price : option Decimal.t;
  quantity : Z;
  is_active : bool
}.
End ProductData.

(** The dictionary [parse_csv_row] returns: [{"valid": True, "data": ..}]
    or [{"valid": False, "errors": .., "row": ..}]. *)
Inductive ParsedRow : Type :=
  | Valid (data : ProductData.t)
  | Invalid (errors : list string) (row : Z).

(** A row as [csv.DictReader] yields it: a column of the header the
    row is too short for is mapped to [None]. *)
Abbreviation Row := (gmap string (option string)).

(** [row.get(key, '').strip()]: a missing key reads as the empty string,
    a key mapped to [None] makes [.strip()] raise. *)
Definition get_strip (row : Row) (key : string) : result string :=
  match row !! key with
  | None => Ok (Py.strip EmptyString)
  | Some (Some v) => Ok (Py.strip v)
  | Some None => Raise AttributeError
  end.

Definition append_if (c : bool) (errors : list string) (msg : string) : list string :=
  if c then errors ++ [msg] else errors.

Definition parse_csv_row (row : Row) (row_num : Z) : result ParsedRow :=
  let errors : list string := [] in
  sku <-! get_strip row "sku";;
  name <-! get_strip row "name";;
  let errors := append_if (negb (Py.truthy sku)) errors "SKU is required" in
  let errors := append_if (negb (Py.truthy name)) errors "Name is required" in
  description <-! get_strip row "description";;
  let description := if Py.truthy description then Some description else None in
  price_str <-! get_strip row "price";;
  let '(price, errors) :=
    if Py.truthy price_str then
      match Decimal.of_string price_str with
      | Some d =>
          match Decimal.lt_zero d with
          | Some true => (Some d, errors ++ ["Price cannot be negative"])
          | Some false => (Some d, errors)
          | None => (Some d, errors ++ ["Invalid price format: " +:+ price_str])
          end
      | None => (None, errors ++ ["Invalid price format: " +:+ price_str])
      end
    else (None, errors) in
  quantity_str <-! get_strip row "quantity";;
  let '(quantity, errors) :=
    if Py.truthy quantity_str then
      match Py.int quantity_str with
      | Some q =>
          if q <? 0 then (q, errors ++ ["Quantity cannot be negative"])
          else (q, errors)
      | None => (0, errors ++ ["Invalid quantity format: " +:+ quantity_str])
      end
    else (0, errors) in
  match errors with
  | _ :: _ => Ok (Invalid errors row_num)
  | [] =>
      Ok (Valid {| ProductData.sku := Py.upper sku;
                   ProductData.name := name;
                   ProductData.description := description;
                   ProductData.price := price;
                   ProductData.quantity := quantity;
                   ProductData.is_active := true |})
  end.

(** ** Text files and the [csv] module *)

Module File.

Definition LF : ascii := "010"%char.
Definition CR : ascii := "013"%char.

(** Text mode with the default [newline=None]: ["\r\n"] and a lone
    ["\r"] are read as ["\n"]. *)
Fixpoint universal_newlines (raw : string) : string :=
  match raw with
  | String c r =>
      if Ascii.eqb c CR then
        match r with
        | String c' r' =>
            if Ascii.eqb c' LF then String LF (universal_newlines r')
            else String LF (universal_newlines r)
        | EmptyString => String LF EmptyString
        end
      else String c (universal_newlines r)
  | EmptyString => EmptyString
  end.

(** Iterating over an open text file: the lines of the text, each
    with its terminator; a last line without one is a line as well. *)
Fixpoint readlines (text : string) : list string :=
  match text with
  | String c r =>
      if Ascii.eqb c LF then String c EmptyString :: readlines r
      else match readlines r with
           | l :: ls => String c l :: ls
           | [] => [String c EmptyString]
           end
  | EmptyString => []
  end.

(** [for line in open(file_path, "r", encoding="utf-8")] *)
Definition lines (raw : string) : list string :=
  readlines (universal_newlines raw).

End File.

(** The reader of the [csv] module with the default dialect (["excel"]:
    comma as delimiter, the double quote as quote character, doubled
    quotes inside quoted fields, not strict),
    after the state machine of its implementation.  The limit on the
    size of a field is left out. *)
Module csv.

Inductive ParserState : Type :=
  | START_RECORD | START_FIELD | IN_FIELD | IN_QUOTED_FIELD
  | QUOTE_IN_QUOTED_FIELD | EAT_CRNL.

Record Reader : Type := mkReader {
  state : ParserState;
  fields : list string;     (* the fields of the record read so far *)
  field : list ascii        (* the characters of the current field *)
}.

Definition delimiter : ascii := ","%char.
Definition quotechar : ascii := "034"%char.

Definition is_newline (c : ascii) : bool :=
  Ascii.eqb c File.LF || Ascii.eqb c File.CR.

Definition parse_reset : Reader :=
  {| state := START_RECORD; fields := []; field := [] |}.

Definition set_state (r : Reader) (st : ParserState) : Reader :=
  {| state := st; fields := fields r; field := field r |}.

Definition parse_save_field (r : Reader) (st : ParserState) : Reader :=
  {| state := st;
     fields := fields r ++ [string_of_list_ascii (field r)];
     field := [] |}.

Definition parse_add_char (r : Reader) (c : ascii) (st : ParserState) : Reader :=
  {| state := st; fields := fields r; field := field r ++ [c] |}.

(** A character met where a field is expected; [None] is the end of
    the line. *)
Definition start_field (r : Reader) (c : option ascii) : Reader :=
  match c with
  | None => parse_save_field r START_RECORD
  | Some ch =>
      if is_newline ch then parse_save_field r EAT_CRNL
      else if Ascii.eqb ch quotechar then set_state r IN_QUOTED_FIELD
      else if Ascii.eqb ch delimiter then parse_save_field r START_FIELD
      else parse_add_char r ch IN_FIELD
  end.

Definition parse_process_char (r : Reader) (c : option ascii) : result Reader :=
  match state r with
  | START_RECORD =>
      match c with
      | None => Ok r
      | Some ch =>
          if is_newline ch then Ok (set_state r EAT_CRNL)
          else Ok (start_field r c)
      end
  | START_FIELD => Ok (start_field r c)
  | IN_FIELD =>
      match c with
      | None => Ok (parse_save_field r START_RECORD)
      | Some ch =>
          if is_newline ch then Ok (parse_save_field r EAT_CRNL)
          else if Ascii.eqb ch delimiter then Ok (parse_save_field r START_FIELD)
          else Ok (parse_add_char r ch IN_FIELD)
      end
  | IN_QUOTED_FIELD =>
      match c with
      | None => Ok r
      | Some ch =>
          if Ascii.eqb ch quotechar then Ok (set_state r QUOTE_IN_QUOTED_FIELD)
          else Ok (parse_add_char r ch IN_QUOTED_FIELD)
      end
  | QUOTE_IN_QUOTED_FIELD =>
      match c with
      | None => Ok (parse_save_field r START_RECORD)
      | Some ch =>
          if Ascii.eqb ch quotechar then Ok (parse_add_char r ch IN_QUOTED_FIELD)
          else if Ascii.eqb ch delimiter then Ok (parse_save_field r START_FIELD)
          else if is_newline ch then Ok (parse_save_field r EAT_CRNL)
          else Ok (parse_add_char r ch IN_FIELD)
      end
  | EAT_CRNL =>
      match c with
      | None => Ok (set_state r START_RECORD)
      | Some ch => if is_newline ch then Ok r else Raise CsvError
      end
  end.

(** The characters of one line, then the end of the line. *)
Fixpoint feed (r : Reader) (l : list ascii) : result Reader :=
  match l with
  | c :: l' => r' <-! parse_process_char r (Some c);; feed r' l'
  | [] => parse_process_char r None
  end.

Definition is_start_record (st : ParserState) : bool :=
  match st with START_RECORD => true | _ => false end.

Definition is_in_quoted_field (st : ParserState) : bool :=
  match st with IN_QUOTED_FIELD => true | _ => false end.

Definition nonempty {A} (l : list A) : bool :=
  match l with [] => false | _ => true end.

(** The records the iteration yields, in order, and the error that
    ends it, if one does.  A record is complete when a line leaves
    the parser in [START_RECORD]; a record still open at the end of
    the input is yielded when it has a field under way. *)
Fixpoint records (r : Reader) (lines : list string)
    : list (list string) * option exn :=
  match lines with
  | line :: rest =>
      match feed r (list_ascii_of_string line) with
      | Raise e => ([], Some e)
      | Ok r' =>
          if is_start_record (state r') then
            let '(rs, e) := records parse_reset rest in (fields r' :: rs, e)
          else records r' rest
      end
  | [] =>
      if nonempty (field r) || is_in_quoted_field (state r)
      then ([fields (parse_save_field r START_RECORD)], None)
      else ([], None)
  end.

Definition reader (lines : list string) : list (list string) * option exn :=
  records parse_reset lines.

(** The dictionary [DictReader] builds for one record:
    [dict(zip(fieldnames, row))], then [None] for the columns the
    record is too short for.  The surplus fields of a record that is
    too long are stored under the key [None], which no string key
    reads; they are left out. *)
Definition make_row (fieldnames row : list string) : Row :=
  let d := fold_left (fun (d : Row) kv => <[kv.1 := Some kv.2]> d)
                     (zip fieldnames row) ∅ in
  fold_left (fun (d : Row) k => <[k := None]> d)
            (drop (length row) fieldnames) d.

(** [csv.DictReader(f)]: the first record is the header, and empty
    records after it are skipped. *)
Definition DictReader (lines : list string) : list Row * option exn :=
  match reader lines with
  | (fieldnames :: recs, e) =>
      (map (make_row fieldnames) (filter (fun r => r ≠ []) recs), e)
  | ([], e) => ([], e)
  end.

End csv.

(** ** The product table and the upsert engine *)

(** A row of the [products] table ([app/models/product.py]).  The time
    stamps are left out; the table keeps the values it is given (the
    precision and length limits of the columns are left out). *)
Module Product.
Record t : Type := mk {
  id : Z;
  sku : string;
  name : string;
  description : option string;
  price : option Decimal.t;
  quantity : option Z;
  is_active : bool
}.
End Product.

Definition next_id (table : list Product.t) : Z :=
  1 + fold_right Z.max 0 (map Product.id table).

Definition has_sku (s : string) (p : Product.t) : bool :=
  bool_decide (Product.sku p = s).

(** The row an [INSERT] of the values [d] creates. *)
Definition inserted (table : list Product.t) (d : ProductData.t) : Product.t :=
  {| Product.id := next_id table;
     Product.sku := ProductData.sku d;
     Product.name := ProductData.name d;
     Product.description := ProductData.description d;
     Product.price := ProductData.price d;
     Product.quantity := Some (ProductData.quantity d);
     Product.is_active := ProductData.is_active d |}.

(** [ON CONFLICT (sku) DO UPDATE SET name, description, price, quantity]
    (and [updated_at]) from the excluded row. *)
Definition conflict_update (d : ProductData.t) (p : Product.t) : Product.t :=
  {| Product.id := Product.id p;
     Product.sku := Product.sku p;
     Product.name := ProductData.name d;
     Product.description := ProductData.description d;
     Product.price := ProductData.price d;
     Product.quantity := Some (ProductData.quantity d);
     Product.is_active := Product.is_active p |}.

(** One proposed row of [INSERT ... ON CONFLICT (sku) DO UPDATE]: when
    a row of the table has its SKU that row is updated, otherwise the
    proposed row is inserted. *)
Definition upsert_row (table : list Product.t) (d : ProductData.t) : list Product.t :=
  if existsb (has_sku (ProductData.sku d)) table
  then map (fun p => if has_sku (ProductData.sku d) p then conflict_update d p else p)
           table
  else table ++ [inserted table d].

(** [INSERT INTO products VALUES ... ON CONFLICT (sku) DO UPDATE]: the
    proposed rows are taken in order.  The statement is rejected as a
    whole when it would affect one row a second time, that is when two
    proposed rows carry one SKU ([touched] holds the SKUs the statement
    has affected so far). *)
Fixpoint insert_on_conflict_do_update (touched : list string)
    (table : list Product.t) (values : list ProductData.t)
    : result (list Product.t) :=
  match values with
  | d :: rest =>
      let s := ProductData.sku d in
      if bool_decide (s ∈ touched) then Raise DatabaseError
      else insert_on_conflict_do_update (s :: touched) (upsert_row table d) rest
  | [] => Ok table
  end.

(** The created and updated counters of [upsert_products]. *)
Definition count_created_updated (existing_skus : list string)
    (products : list ProductData.t) : Z * Z :=
  fold_left
    (fun (cu : Z * Z) product_data =>
       if bool_decide (ProductData.sku product_data ∈ existing_skus)
       then (cu.1, cu.2 + 1)
       else (cu.1 + 1, cu.2))
    products (0, 0).

(** [upsert_products(db, products)]: the new table and
    [(created_count, updated_count)], or the error of the store. *)
Definition upsert_products (table : list Product.t)
    (products : list ProductData.t) : result (list Product.t * (Z * Z)) :=
  match products with
  | [] => Ok (table, (0, 0))
  | _ =>
      let skus := map ProductData.sku products in
      let existing_skus :=
        filter (fun s => Py.upper s ∈ skus) (map Product.sku table) in
      let counts := count_created_updated existing_skus products in
      table' <-! insert_on_conflict_do_update [] table products;;
      Ok (table', counts)
  end.

(** ** Import jobs and progress snapshots *)

(** The values of [ImportJob.status]. *)
Inductive Status : Type :=
  | pending | parsing | validating | importing | completed | failed.

Global Instance Status_eq_dec : EqDecision Status.
Proof. solve_decision. Defined.

(** An entry of [error_details]: a rejected row, or the message of the
    exception that made the job fail. *)
Inductive ErrorDetail : Type :=
  | RowError (row : Z) (errors : list string) (sku : option string)
  | Message (e : exn).

(** [round(n / d * 100, 2)] for integers [n] and [d <> 0], as a number
    of hundredths.  The quotient is taken exactly and rounded to the
    nearest hundredth, ties to the even one; the rounding errors of the
    floating-point operations are not modelled. *)
Definition round_half_even (n d : Z) : Z :=
  let q := n / d in
  let r := Z.abs (n mod d) in
  match Z.compare (2 * r) (Z.abs d) with
  | Lt => q
  | Gt => q + 1
  | Eq => if Z.even q then q else q + 1
  end.

Definition percentage (processed_rows total_rows : Z) : Z :=
  round_half_even (processed_rows * 100 * 100) total_rows.

(** The durable job record ([app/models/import_job.py]); the
    identifier, the file name and the time stamps are left out. *)
Module ImportJob.
Record t : Type := mk {
  status : Status;
  total_rows : Z;
  processed_rows : Z;
  success_count : Z;
  error_count : Z;
  created_count : Z;
  updated_count : Z;
  error_details : option (list ErrorDetail)
}.

(** The record of a job as the upload creates it. *)
Definition new : t := mk pending 0 0 0 0 0 0 None.

(** The [progress_percentage] entry of [to_dict], in hundredths. *)
Definition progress_percentage (j : t) : Z :=
  if total_rows j >? 0 then percentage (processed_rows j) (total_rows j) else 0.
End ImportJob.

(** A snapshot handed to [update_progress]; the message text is left
    out.  The keys a snapshot lacks are [None]. *)
Module Progress.
Record t : Type := mk {
  status : Status;
  processed_rows : Z;
  total_rows : Z;
  success_count : Z;
  error_count : Z;
  created_count : option Z;
  updated_count : option Z;
  progress_percentage : option Z;   (* hundredths *)
  error : option exn
}.
End Progress.

(** ** The import task *)

Record Settings : Type := mkSettings {
  CHUNK_SIZE : Z;
  PROGRESS_UPDATE_INTERVAL : Z
}.

(** The defaults of [app/config.py]. *)
Definition settings : Settings :=
  {| CHUNK_SIZE := 5000; PROGRESS_UPDATE_INTERVAL := 1000 |}.

(** What the task does to the outside, in order. *)
Inductive Event : Type :=
  | Commit (job : ImportJob.t)          (* [db.commit()] of the job record *)
  | Publish (snapshot : Progress.t)     (* [update_progress] *)
  | Upsert (batch : list ProductData.t) (created updated : Z)
                                        (* a batch handed to the store *)
  | TriggerWebhooks (total_rows success_count error_count
                     created_count updated_count : Z)
  | RemoveFile.

Record World : Type := mkWorld {
  products : list Product.t;
  job : ImportJob.t;
  trace : list Event
}.

(** Code that changes the world and may raise. *)
Definition M (A : Type) : Type := World -> World * result A.

Definition ret {A} (a : A) : M A := fun w => (w, Ok a).
Definition raise {A} (e : exn) : M A := fun w => (w, Raise e).
Definition lift {A} (r : result A) : M A := fun w => (w, r).
Definition bind {A B} (m : M A) (k : A -> M B) : M B :=
  fun w =>
    match m w with
    | (w', Ok a) => k a w'
    | (w', Raise e) => (w', Raise e)
    end.
Definition try_except {A} (m : M A) (handler : exn -> M A) : M A :=
  fun w =>
    match m w with
    | (w', Ok a) => (w', Ok a)
    | (w', Raise e) => handler e w'
    end.

Notation "x <-- m ;; k" := (bind m (fun x => k))
  (at level 100, m at next level, right associativity).
Notation "m >> k" := (bind m (fun _ => k))
  (at level 100, right associativity).

Definition emit (ev : Event) : M unit :=
  fun w => (mkWorld (products w) (job w) (trace w ++ [ev]), Ok tt).

Definition modify_job (f : ImportJob.t -> ImportJob.t) : M unit :=
  fun w => (mkWorld (products w) (f (job w)) (trace w), Ok tt).

Definition get_job : M ImportJob.t := fun w => (w, Ok (job w)).

Definition commit : M unit := fun w => emit (Commit (job w)) w.

Definition update_progress (snapshot : Progress.t) : M unit :=
  emit (Publish snapshot).

(** A call of [upsert_products] on the table of the world. *)
Definition upsert (batch : list ProductData.t) : M (Z * Z) :=
  fun w =>
    match upsert_products (products w) batch with
    | Ok (table, (created, updated)) =>
        (mkWorld table (job w) (trace w ++ [Upsert batch created updated]),
         Ok (created, updated))
    | Raise e => (w, Raise e)
    end.

(** [count_csv_rows(file_path)]; the file may be missing. *)
Definition count_csv_rows (file : option string) : result Z :=
  match file with
  | Some raw => Ok (Z.of_nat (length (File.lines raw)) - 1)
  | None => Raise FileNotFoundError
  end.

(** The local variables of the streaming loop. *)
Module Loop.
Record t : Type := mk {
  processed_rows : Z;
  success_count : Z;
  error_count : Z;
  created_count : Z;
  updated_count : Z;
  error_details : list ErrorDetail;
  batch : list ProductData.t
}.

Definition init : t := mk 0 0 0 0 0 [] [].
End Loop.

(** The job record with the counters of the loop written to it. *)
Definition store_counters (st : Status) (l : Loop.t) (j : ImportJob.t) : ImportJob.t :=
  {| ImportJob.status := st;
     ImportJob.total_rows := ImportJob.total_rows j;
     ImportJob.processed_rows := Loop.processed_rows l;
     ImportJob.success_count := Loop.success_count l;
     ImportJob.error_count := Loop.error_count l;
     ImportJob.created_count := Loop.created_count l;
     ImportJob.updated_count := Loop.updated_count l;
     ImportJob.error_details := ImportJob.error_details j |}.

Definition set_status (st : Status) (j : ImportJob.t) : ImportJob.t :=
  {| ImportJob.status := st;
     ImportJob.total_rows := ImportJob.total_rows j;
     ImportJob.processed_rows := ImportJob.processed_rows j;
     ImportJob.success_count := ImportJob.success_count j;
     ImportJob.error_count := ImportJob.error_count j;
     ImportJob.created_count := ImportJob.created_count j;
     ImportJob.updated_count := ImportJob.updated_count j;
     ImportJob.error_details := ImportJob.error_details j |}.

Definition set_total_rows (n : Z) (j : ImportJob.t) : ImportJob.t :=
  {| ImportJob.status := ImportJob.status j;
     ImportJob.total_rows := n;
     ImportJob.processed_rows := ImportJob.processed_rows j;
     ImportJob.success_count := ImportJob.success_count j;
     ImportJob.error_count := ImportJob.error_count j;
     ImportJob.created_count := ImportJob.created_count j;
     ImportJob.updated_count := ImportJob.updated_count j;
     ImportJob.error_details := ImportJob.error_details j |}.

Definition set_error_details (d : option (list ErrorDetail)) (j : ImportJob.t) : ImportJob.t :=
  {| ImportJob.status := ImportJob.status j;
     ImportJob.total_rows := ImportJob.total_rows j;
     ImportJob.processed_rows := ImportJob.processed_rows j;
     ImportJob.success_count := ImportJob.success_count j;
     ImportJob.error_count := ImportJob.error_count j;
     ImportJob.created_count := ImportJob.created_count j;
     ImportJob.updated_count := ImportJob.updated_count j;
     ImportJob.error_details := d |}.

(** The snapshot of the counters of the loop. *)
Definition snapshot (st : Status) (l : Loop.t) (total_rows : Z) (pct : Z) : Progress.t :=
  {| Progress.status := st;
     Progress.processed_rows := Loop.processed_rows l;
     Progress.total_rows := total_rows;
     Progress.success_count := Loop.success_count l;
     Progress.error_count := Loop.error_count l;
     Progress.created_count := Some (Loop.created_count l);
     Progress.updated_count := Some (Loop.updated_count l);
     Progress.progress_percentage := Some pct;
     Progress.error := None |}.

(** The snapshots published before the first row is read. *)
Definition initial_snapshot (st : Status) (total_rows : Z) : Progress.t :=
  {| Progress.status := st;
     Progress.processed_rows := 0;
     Progress.total_rows := total_rows;
     Progress.success_count := 0;
     Progress.error_count := 0;
     Progress.created_count := Some 0;
     Progress.updated_count := Some 0;
     Progress.progress_percentage := None;
     Progress.error := None |}.

(** The snapshot of a failed job, read from the job record. *)
Definition failure_snapshot (e : exn) (j : ImportJob.t) : Progress.t :=
  {| Progress.status := failed;
     Progress.processed_rows := ImportJob.processed_rows j;
     Progress.total_rows := ImportJob.total_rows j;
     Progress.success_count := ImportJob.success_count j;
     Progress.error_count := ImportJob.error_count j;
     Progress.created_count := None;
     Progress.updated_count := None;
     Progress.progress_percentage := None;
     Progress.error := Some e |}.

(** The first part of the loop body: the row is validated and counted. *)
Definition account (l : Loop.t) (row_num : Z) (row : Row) (parsed : ParsedRow) : Loop.t :=
  match parsed with
  | Valid data =>
      {| Loop.processed_rows := Loop.processed_rows l + 1;
         Loop.success_count := Loop.success_count l + 1;
         Loop.error_count := Loop.error_count l;
         Loop.created_count := Loop.created_count l;
         Loop.updated_count := Loop.updated_count l;
         Loop.error_details := Loop.error_details l;
         Loop.batch := Loop.batch l ++ [data] |}
  | Invalid errors _ =>
      {| Loop.processed_rows := Loop.processed_rows l + 1;
         Loop.success_count := Loop.success_count l;
         Loop.error_count := Loop.error_count l + 1;
         Loop.created_count := Loop.created_count l;
         Loop.updated_count := Loop.updated_count l;
         Loop.error_details :=
           if Z.of_nat (length (Loop.error_details l)) <? 100
           then Loop.error_details l
                ++ [RowError row_num errors (default (Some EmptyString) (row !! "sku"))]
           else Loop.error_details l;
         Loop.batch := Loop.batch l |}
  end.

(** The batch is handed to the store and cleared. *)
Definition flush (l : Loop.t) : M Loop.t :=
  cu <-- upsert (Loop.batch l);;
  ret {| Loop.processed_rows := Loop.processed_rows l;
         Loop.success_count := Loop.success_count l;
         Loop.error_count := Loop.error_count l;
         Loop.created_count := Loop.created_count l + cu.1;
         Loop.updated_count := Loop.updated_count l + cu.2;
         Loop.error_details := Loop.error_details l;
         Loop.batch := [] |}.

(** The periodic progress update of the loop body. *)
Definition periodic_update (cfg : Settings) (total_rows : Z) (l : Loop.t) : M unit :=
  if PROGRESS_UPDATE_INTERVAL cfg =? 0 then raise ZeroDivisionError
  else if Loop.processed_rows l mod PROGRESS_UPDATE_INTERVAL cfg =? 0 then
    modify_job (store_counters importing l) >>
    commit >>
    if total_rows =? 0 then raise ZeroDivisionError
    else update_progress
           (snapshot importing l total_rows
              (percentage (Loop.processed_rows l) total_rows))
  else ret tt.

(** The body of [for row_num, row in enumerate(reader, start=2)]. *)
Definition process_row (cfg : Settings) (total_rows : Z)
    (l : Loop.t) (row_num : Z) (row : Row) : M Loop.t :=
  parsed <-- lift (parse_csv_row row row_num);;
  let l := account l row_num row parsed in
  l <-- (if Z.of_nat (length (Loop.batch l)) >=? CHUNK_SIZE cfg
         then flush l else ret l);;
  periodic_update cfg total_rows l >>
  ret l.

Fixpoint process_rows (cfg : Settings) (total_rows : Z)
    (l : Loop.t) (row_num : Z) (rows : list Row) : M Loop.t :=
  match rows with
  | row :: rest =>
      l' <-- process_row cfg total_rows l row_num row;;
      process_rows cfg total_rows l' (row_num + 1) rest
  | [] => ret l
  end.

(** What a call of the task comes to. *)
Inductive Outcome : Type :=
  | JobNotFound
  | Completed (processed_rows success_count error_count
               created_count updated_count : Z)
  | Failed (e : exn).

(** The [try] block of [import_csv_task]. *)
Definition import_body (cfg : Settings) (file : option string) : M Outcome :=
  modify_job (set_status parsing) >>
  commit >>
  update_progress (initial_snapshot parsing 0) >>
  total_rows <-- lift (count_csv_rows file);;
  modify_job (set_total_rows total_rows) >>
  commit >>
  update_progress (initial_snapshot validating total_rows) >>
  let '(rows, stop) := csv.DictReader (File.lines (default EmptyString file)) in
  l <-- process_rows cfg total_rows Loop.init 2 rows;;
  (match stop with Some e => raise e | None => ret tt end) >>
  l <-- (if csv.nonempty (Loop.batch l) then flush l else ret l);;
  modify_job (store_counters completed l) >>
  modify_job (set_error_details
                (if csv.nonempty (Loop.error_details l)
                 then Some (Loop.error_details l) else None)) >>
  commit >>
  update_progress (snapshot completed l total_rows (100 * 100)) >>
  emit (TriggerWebhooks total_rows (Loop.success_count l) (Loop.error_count l)
          (Loop.created_count l) (Loop.updated_count l)) >>
  emit RemoveFile >>
  ret (Completed (Loop.processed_rows l) (Loop.success_count l)
         (Loop.error_count l) (Loop.created_count l) (Loop.updated_count l)).

(** The [except Exception] block. *)
Definition import_failed (e : exn) : M Outcome :=
  modify_job (set_status failed) >>
  modify_job (set_error_details (Some [Message e])) >>
  commit >>
  j <-- get_job;;
  update_progress (failure_snapshot e j) >>
  emit RemoveFile >>
  ret (Failed e).

(** The result of a run: the outcome, the product table, the job
    record (when there is one) and the trace of the run. *)
Record Run : Type := mkRun {
  outcome : Outcome;
  final_products : list Product.t;
  final_job : option ImportJob.t;
  events : list Event
}.

(** [import_csv_task(job_id, file_path)] on a product table, the job
    record of [job_id] if it exists, and the content of the file at
    [file_path] if it exists. *)
Definition import_csv_task (cfg : Settings) (table : list Product.t)
    (import_job : option ImportJob.t) (file : option string) : Run :=
  match import_job with
  | None => mkRun JobNotFound table None []
  | Some j =>
      let '(w, r) :=
        try_except (import_body cfg file) import_failed (mkWorld table j []) in
      mkRun (match r with Ok o => o | Raise e => Failed e end)
            (products w) (Some (job w)) (trace w)
  end.

(** ** The product API ([app/api/products.py]) *)

(** The [ProductCreate] schema: the body of a create request. *)
Module ProductCreate.
Record t : Type := mk {
  sku : string;
  name : string;
  description : option string;
  price : option Decimal.t;
  quantity : option Z;
  is_active : bool
}.

Definition length_between (lo hi : Z) (s : string) : bool :=
  (lo <=? Py.len s) && (Py.len s <=? hi).

(** [ge=0] on an optional decimal. *)
Definition price_ok (p : option Decimal.t) : bool :=
  match p with
  | Some (Decimal.Finite neg coeff _) => negb (neg && negb (coeff =? 0)%N)
  | Some _ => false
  | None => true
  end.

Definition quantity_ok (q : option Z) : bool :=
  match q with Some n => 0 <=? n | None => true end.

(** Validation of the body: the constraints of the fields, then the
    validator of [sku], which strips and upper-cases it.  [None] is a
    rejected body (HTTP 422). *)
Definition validate (body : t) : option t :=
  if length_between 1 255 (name body) && length_between 1 100 (sku body)
     && price_ok (price body) && quantity_ok (quantity body)
  then Some (mk (Py.upper (Py.strip (sku body))) (name body)
                (description body) (price body) (quantity body)
                (is_active body))
  else None.
End ProductCreate.

(** The [ProductUpdate] schema; a field that the request does not set
    is [None].  The schema has no [sku] field.  A request that sets
    [name] or [is_active] to null is left out. *)
Module ProductUpdate.
Record t : Type := mk {
  name : option string;
  description : option (option string);
  price : option (option Decimal.t);
  quantity : option (option Z);
  is_active : option bool
}.

Definition validate (body : t) : option t :=
  if from_option (ProductCreate.length_between 1 255) true (name body)
     && from_option ProductCreate.price_ok true (price body)
     && from_option ProductCreate.quantity_ok true (quantity body)
  then Some body else None.
End ProductUpdate.

Inductive Response : Type :=
  | HTTP_200 (product : option Product.t)
  | HTTP_201 (product : Product.t)
  | HTTP_400
  | HTTP_404
  | HTTP_422
  | HTTP_500.

(** [create_product]: the insert of the new row is subject to the
    unique constraint on [sku]. *)
Definition create_product (table : list Product.t) (body : ProductCreate.t)
    : list Product.t * Response :=
  match ProductCreate.validate body with
  | None => (table, HTTP_422)
  | Some product_data =>
      let existing :=
        existsb (fun p => bool_decide (Py.lower (Product.sku p)
                                       = Py.lower (ProductCreate.sku product_data)))
                table in
      if existing then (table, HTTP_400)
      else
        let product :=
          {| Product.id := next_id table;
             Product.sku := Py.upper (ProductCreate.sku product_data);
             Product.name := ProductCreate.name product_data;
             Product.description := ProductCreate.description product_data;
             Product.price := ProductCreate.price product_data;
             Product.quantity := ProductCreate.quantity product_data;
             Product.is_active := ProductCreate.is_active product_data |} in
        if existsb (has_sku (Product.sku product)) table then (table, HTTP_500)
        else (table ++ [product], HTTP_201 product)
  end.


Definition has_id (i : Z) (p : Product.t) : bool := Product.id p =? i.


Definition delete_product (table : list Product.t) (product_id : Z)
    : list Product.t * Response :=
  match find (has_id product_id) table with
  | None => (table, HTTP_404)
  | Some _ => (filter (fun p => negb (has_id product_id p)) table, HTTP_200 None)
  end.





(** ** SHA-256 and HMAC (FIPS 180-4, RFC 2104), on lists of bytes *)

Module SHA256.

Definition w32 (x : Z) : Z := Z.land x 0xffffffff.
Definition add32 (x y : Z) : Z := w32 (x + y).
Definition rotr (n x : Z) : Z :=
  Z.lor (Z.shiftr x n) (w32 (Z.shiftl x (32 - n))).

Definition Ch (x y z : Z) : Z :=
  Z.lxor (Z.land x y) (Z.land (w32 (Z.lnot x)) z).
Definition Maj (x y z : Z) : Z :=
  Z.lxor (Z.lxor (Z.land x y) (Z.land x z)) (Z.land y z).
Definition Sigma0 (x : Z) : Z := Z.lxor (Z.lxor (rotr 2 x) (rotr 13 x)) (rotr 22 x).
Definition Sigma1 (x : Z) : Z := Z.lxor (Z.lxor (rotr 6 x) (rotr 11 x)) (rotr 25 x).
Definition sigma0 (x : Z) : Z := Z.lxor (Z.lxor (rotr 7 x) (rotr 18 x)) (Z.shiftr x 3).
Definition sigma1 (x : Z) : Z := Z.lxor (Z.lxor (rotr 17 x) (rotr 19 x)) (Z.shiftr x 10).

(** The constants of the standard are taken from the first primes:
    the first 32 bits of the fractional parts of their cube roots for
    the round constants, and of their square roots for the initial
    hash value. *)
Definition is_prime (n : Z) : bool :=
  forallb (fun d => negb (n mod d =? 0)) (seqZ 2 (n - 2)).

Definition primes (count : nat) : list Z :=
  take count (List.filter is_prime (seqZ 2 310)).

(** The integer part of the cube root, bit by bit. *)
Definition cube_root (n : Z) : Z :=
  fold_left
    (fun r b =>
       let r' := r + Z.shiftl 1 (Z.of_nat b) in
       if r' * r' * r' <=? n then r' else r)
    (rev (seq 0 40)) 0.

Definition K : list Z :=
  Eval vm_compute in
    map (fun p => w32 (cube_root (Z.shiftl p 96))) (primes 64).

Definition H0 : list Z :=
  Eval vm_compute in
    map (fun p => w32 (Z.sqrt (Z.shiftl p 64))) (primes 8).

(** The message with its padding: a one bit, zeros, and the length
    in bits on eight bytes. *)
Definition be_bytes (n : nat) (x : Z) : list Z :=
  map (fun i => Z.land (Z.shiftr x (8 * Z.of_nat i)) 255) (rev (seq 0 n)).

Definition pad (msg : list Z) : list Z :=
  let len := Z.of_nat (length msg) in
  msg ++ [128] ++ replicate (Z.to_nat ((55 - len) mod 64)) 0
      ++ be_bytes 8 (8 * len).

Fixpoint words (n : nat) (bytes : list Z) : list Z :=
  match n, bytes with
  | S n', b0 :: b1 :: b2 :: b3 :: rest =>
      (Z.shiftl b0 24 + Z.shiftl b1 16 + Z.shiftl b2 8 + b3) :: words n' rest
  | _, _ => []
  end.

(** The message schedule: the sixteen words of the block, extended
    to sixty-four. *)
Fixpoint schedule (n : nat) (w : list Z) : list Z :=
  match n with
  | S n' =>
      let t := length w in
      let at_ (i : nat) := nth (t - i) w 0 in
      schedule n' (w ++ [add32 (add32 (sigma1 (at_ 2%nat)) (at_ 7%nat))
                               (add32 (sigma0 (at_ 15%nat)) (at_ 16%nat))])
  | O => w
  end.

Definition round (s : list Z) (kw : Z * Z) : list Z :=
  match s with
  | [a; b; c; d; e; f; g; h] =>
      let t1 := add32 (add32 (add32 h (Sigma1 e)) (add32 (Ch e f g) kw.1)) kw.2 in
      let t2 := add32 (Sigma0 a) (Maj a b c) in
      [add32 t1 t2; a; b; c; add32 d t1; e; f; g]
  | _ => s
  end.

Definition compress (h : list Z) (block : list Z) : list Z :=
  let w := schedule 48 (words 16 block) in
  zip_with add32 h (fold_left round (zip K w) h).

Fixpoint blocks (n : nat) (h : list Z) (bytes : list Z) : list Z :=
  match n with
  | S n' => blocks n' (compress h (take 64 bytes)) (drop 64 bytes)
  | O => h
  end.

Definition digest (msg : list Z) : list Z :=
  let padded := pad msg in
  mjoin (map (be_bytes 4) (blocks (length padded / 64) H0 padded)).

(** [hmac.new(key, msg, hashlib.sha256).digest()] *)
Definition hmac (key msg : list Z) : list Z :=
  let key := if (64 <? length key)%nat then digest key else key in
  let key := key ++ replicate (64 - length key) 0 in
  digest (map (Z.lxor 0x5c) key ++ digest (map (Z.lxor 0x36) key ++ msg)).

Definition hex_digit (x : Z) : ascii :=
  ascii_of_N (Z.to_N (if x <? 10 then 48 + x else 87 + x)).

Definition hex (bytes : list Z) : string :=
  string_of_list_ascii
    (mjoin (map (fun b => [hex_digit (b / 16); hex_digit (b mod 16)]) bytes)).

(** [s.encode("utf-8")] *)
Definition encode (s : string) : list Z :=
  map (fun c => Z.of_N (N_of_ascii c)) (list_ascii_of_string s).

End SHA256.

(** ** The webhook dispatcher ([app/tasks/webhook_sender.py]) *)

(** A row of the [webhooks] table; the name and the time stamps of the
    row itself are left out. *)
Module Webhook.
Record t : Type := mk {
  id : Z;
  url : string;
  event_type : string;
  is_enabled : bool;
  secret : option string;
  last_triggered_at : option string;
  last_response_code : option Z;
  last_response_time_ms : option Z;
  failure_count : Z
}.
End Webhook.

Definition generate_signature (payload secret : string) : string :=
  SHA256.hex (SHA256.hmac (SHA256.encode secret) (SHA256.encode payload)).

(** The request [client.post(url, content=.., headers=..)] sends. *)
Record Request : Type := mkRequest {
  target : string;
  content : string;
  headers : gmap string string
}.

(** What becomes of the request. *)
Inductive HttpOutcome : Type :=
  | Responded (status_code response_time_ms : Z)
  | TimeoutException          (* [httpx.TimeoutException] *)
  | RequestError              (* another [httpx.RequestError] *)
  | OtherException.           (* an exception neither clause catches *)

(** The exception a task run ends with. *)
Inductive TaskError : Type :=
  | ServerError (status_code : Z)   (* [Exception("Server error: ..")] *)
  | TimedOut                        (* [Exception("Request timed out")] *)
  | TransportError                  (* the [httpx.RequestError] itself *)
  | Unhandled.

(** How a run of the task ends: with a returned dictionary, with the
    [Retry] exception that has the queue run the task again after
    [countdown] seconds, or with an error. *)
Inductive TaskResult : Type :=
  | Return_not_found
  | Return_skipped
  | Return_sent (success : bool) (status_code response_time_ms : Z)
  | Retry (countdown : Z)
  | Raised (e : TaskError).

(** [max_retries=3] of the task decorator. *)
Definition max_retries : Z := 3.

(** [self.retry(exc=.., countdown=..)] of a task whose request has
    been retried [retries] times: the task is queued again unless that
    would exceed [max_retries], in which case [exc] is raised. *)
Definition Task_retry (retries : Z) (exc : TaskError) (countdown : Z) : TaskResult :=
  if retries + 1 >? max_retries then Raised exc else Retry countdown.

Section Dispatcher.

(** The payload of an event and [json.dumps] of the envelope
    [{"event": .., "timestamp": .., "data": ..}]. *)
Variable Payload : Type.
Variable json_dumps : string -> string -> Payload -> string.

(** The body and the headers of a delivery; [now1] and [now2] are the
    two readings of the clock. *)
Definition build_request (webhook : Webhook.t) (event_type : string)
    (payload : Payload) (now1 now2 : string) : Request :=
  let payload_json := json_dumps event_type now1 payload in
  let headers : gmap string string :=
    <["X-Webhook-Timestamp" := now2]>
      (<["X-Webhook-Event" := event_type]>
         (<["Content-Type" := "application/json"]> ∅)) in
  let headers :=
    match Webhook.secret webhook with
    | Some secret =>
        if Py.truthy secret then
          <["X-Webhook-Signature" :=
              "sha256=" +:+ generate_signature payload_json secret]> headers
        else headers
    | None => headers
    end in
  mkRequest (Webhook.url webhook) payload_json headers.

Definition record_response (webhook : Webhook.t) (now3 : string)
    (status_code response_time_ms failure_count : Z) : Webhook.t :=
  {| Webhook.id := Webhook.id webhook;
     Webhook.url := Webhook.url webhook;
     Webhook.event_type := Webhook.event_type webhook;
     Webhook.is_enabled := Webhook.is_enabled webhook;
     Webhook.secret := Webhook.secret webhook;
     Webhook.last_triggered_at := Some now3;
     Webhook.last_response_code := Some status_code;
     Webhook.last_response_time_ms := Some response_time_ms;
     Webhook.failure_count := failure_count |}.

Definition count_failure (webhook : Webhook.t) : Webhook.t :=
  {| Webhook.id := Webhook.id webhook;
     Webhook.url := Webhook.url webhook;
     Webhook.event_type := Webhook.event_type webhook;
     Webhook.is_enabled := Webhook.is_enabled webhook;
     Webhook.secret := Webhook.secret webhook;
     Webhook.last_triggered_at := Webhook.last_triggered_at webhook;
     Webhook.last_response_code := Webhook.last_response_code webhook;
     Webhook.last_response_time_ms := Webhook.last_response_time_ms webhook;
     Webhook.failure_count := Webhook.failure_count webhook + 1 |}.

(** The result of one run of [send_webhook]: the row of the webhook
    as committed, the request sent, and how the run ends. *)
Record Sent : Type := mkSent {
  committed : option Webhook.t;
  request : option Request;
  result_ : TaskResult
}.

(** [send_webhook(webhook_id, event_type, payload)] run with
    [self.request.retries = retries]; [row] is the row of
    [webhook_id] if there is one and [post] the target. *)
Definition send_webhook (row : option Webhook.t) (retries : Z)
    (event_type : string) (payload : Payload) (now1 now2 now3 : string)
    (post : Request -> HttpOutcome) : Sent :=
  match row with
  | None => mkSent None None Return_not_found
  | Some webhook =>
      if negb (Webhook.is_enabled webhook)
      then mkSent (Some webhook) None Return_skipped
      else
        let req := build_request webhook event_type payload now1 now2 in
        let countdown := 60 * (retries + 1) in
        match post req with
        | Responded status_code response_time_ms =>
            if status_code >=? 400 then
              let webhook' :=
                record_response webhook now3 status_code response_time_ms
                                (Webhook.failure_count webhook + 1) in
              if status_code >=? 500 then
                mkSent (Some webhook') (Some req)
                       (Task_retry retries (ServerError status_code) countdown)
              else
                mkSent (Some webhook') (Some req)
                       (Return_sent (status_code <? 400) status_code response_time_ms)
            else
              mkSent (Some (record_response webhook now3 status_code
                                            response_time_ms 0))
                     (Some req)
                     (Return_sent (status_code <? 400) status_code response_time_ms)
        | TimeoutException =>
            mkSent (Some (count_failure webhook)) (Some req)
                   (Task_retry retries TimedOut countdown)
        | RequestError =>
            mkSent (Some (count_failure webhook)) (Some req)
                   (Task_retry retries TransportError countdown)
        | OtherException =>
            mkSent (Some webhook) (Some req) (Raised Unhandled)
        end
  end.

(** A delivery as the queue carries it out: the task is run again,
    with one more retry on its count, each time a run ends with
    [Retry].  [answers] lists what becomes of the successive
    requests. *)
Record Delivery : Type := mkDelivery {
  attempts : nat;                 (* runs of the task *)
  delays : list Z;                (* the countdowns of the retries *)
  final : option TaskResult;      (* how the last run ended, if the
                                     delivery is over *)
  webhook_after : option Webhook.t
}.

Fixpoint deliver (row : option Webhook.t) (retries : Z)
    (event_type : string) (payload : Payload) (now : string)
    (answers : list HttpOutcome) : Delivery :=
  match answers with
  | answer :: rest =>
      let s := send_webhook row retries event_type payload now now now
                            (fun _ => answer) in
      match result_ s with
      | Retry countdown =>
          let d := deliver (committed s) (retries + 1) event_type payload now rest in
          mkDelivery (S (attempts d)) (countdown :: delays d) (final d)
                     (webhook_after d)
      | r => mkDelivery 1 [] (Some r) (committed s)
      end
  | [] => mkDelivery 0 [] None row
  end.

End Dispatcher.

(** ** The rules of the row validator, field by field

    The rules of section 4.1 of the specification, each one a function
    of the trimmed text of its own field.  The row validator is
    compared with them below. *)








(** A row of strings as a row of the reader. *)
Definition typed_row (m : gmap string string) : Row := Some <$> m.

(** ** Traces of the import task *)


Definition publishes (tr : list Event) : list Progress.t :=
  omap (fun ev => match ev with Publish p => Some p | _ => None end) tr.




Definition terminal (s : Status) : bool :=
  match s with completed | failed => true | _ => false end.


(** A line of a file that holds one record that is not empty: it does
    not start with a line end, has no double quote, and a line feed
    only as its last character. *)
Definition ordinary (c : ascii) : bool :=
  negb (csv.is_newline c) && negb (Ascii.eqb c csv.quotechar).

Fixpoint ordinary_tail (l : list ascii) : bool :=
  match l with
  | [] => true
  | [c] => ordinary c || Ascii.eqb c File.LF
  | c :: rest => ordinary c && ordinary_tail rest
  end.

Definition record_line (line : string) : bool :=
  match list_ascii_of_string line with
  | c :: rest => ordinary c && ordinary_tail rest
  | [] => false
  end.

(** ** Product tables *)

(** A SKU in canonical form. *)
Definition canonical (s : string) : Prop := Py.upper s = s.

(** The SKUs of the table are canonical and no two rows have SKUs that
    are equal up to case. *)
Definition table_ok (table : list Product.t) : Prop :=
  Forall (fun p => canonical (Product.sku p)) table
  /\ NoDup (map (fun p => Py.lower (Product.sku p)) table).


(** The row carries the values of the record. *)
Definition carries (d : ProductData.t) (p : Product.t) : Prop :=
  Product.sku p = ProductData.sku d
  /\ Product.name p = ProductData.name d
  /\ Product.description p = ProductData.description d
  /\ Product.price p = ProductData.price d
  /\ Product.quantity p = Some (ProductData.quantity d).

(** The records of the batch whose SKU is, or is not, in the table. *)
Definition count_stored (table : list Product.t) (batch : list ProductData.t) : Z :=
  Z.of_nat (length (filter (fun d => ProductData.sku d ∈ map Product.sku table) batch)).

Definition count_new (table : list Product.t) (batch : list ProductData.t) : Z :=
  Z.of_nat (length (filter (fun d => ProductData.sku d ∉ map Product.sku table) batch)).

(** A record under way at the end of the input. *)
Definition open_record (r : csv.Reader) : bool :=
  csv.nonempty (csv.field r) || csv.is_in_quoted_field (csv.state r).

(** The states of the parser inside a record without quotes. *)
Definition between_fields (st : csv.ParserState) : Prop :=
  st = csv.START_FIELD \/ st = csv.IN_FIELD.

(** ** Reasoning about code that changes the world

    [wp m Q E w]: run from [w], the code [m] ends in a world and with a
    value that satisfy [Q], or raises an exception that satisfies [E]
    with the world it leaves. *)
Definition wp {A} (m : M A) (Q : A -> World -> Prop)
    (E : exn -> World -> Prop) (w : World) : Prop :=
  match m w with
  | (w', Ok a) => Q a w'
  | (w', Raise e) => E e w'
  end.

(** ** What a run of the import task looks like *)

(** The events of the loop: a commit and a snapshot of a periodic
    update, or a batch handed to the store. *)
Definition loop_event (cfg : Settings) (total : Z) (ev : Event) : Prop :=
  match ev with
  | Commit j =>
      ImportJob.status j = importing
      /\ ImportJob.total_rows j = total
      /\ 0 < ImportJob.processed_rows j
      /\ PROGRESS_UPDATE_INTERVAL cfg <> 0
      /\ ImportJob.processed_rows j mod PROGRESS_UPDATE_INTERVAL cfg = 0
      /\ ImportJob.success_count j + ImportJob.error_count j
         = ImportJob.processed_rows j
  | Publish p =>
      Progress.status p = importing
      /\ Progress.total_rows p = total
      /\ total <> 0
      /\ 0 < Progress.processed_rows p
      /\ PROGRESS_UPDATE_INTERVAL cfg <> 0
      /\ Progress.processed_rows p mod PROGRESS_UPDATE_INTERVAL cfg = 0
      /\ Progress.progress_percentage p
         = Some (percentage (Progress.processed_rows p) total)
  | Upsert batch created updated =>
      created + updated = Z.of_nat (length batch)
  | _ => False
  end.

(** The counters of the loop after [k] rows. *)
Definition counters_ok (k : nat) (l : Loop.t) : Prop :=
  Loop.processed_rows l = Z.of_nat k
  /\ Loop.success_count l + Loop.error_count l = Loop.processed_rows l
  /\ Loop.created_count l + Loop.updated_count l
     + Z.of_nat (length (Loop.batch l)) = Loop.success_count l
  /\ Forall (fun d => canonical (ProductData.sku d)) (Loop.batch l).

(** The importing commit of every interval boundary up to [k] is in
    the trace. *)
Definition boundaries_committed (cfg : Settings) (k : Z) (tr : list Event) : Prop :=
  forall p, 0 < p <= k -> p mod PROGRESS_UPDATE_INTERVAL cfg = 0 ->
    exists j, Commit j ∈ tr /\ ImportJob.status j = importing
              /\ ImportJob.processed_rows j = p.

(** The world inside the loop, [k] rows after the events [head]. *)
Definition world_ok (cfg : Settings) (total : Z) (head : list Event)
    (table0 : list Product.t) (k : nat) (w : World) : Prop :=
  ImportJob.total_rows (job w) = total
  /\ (exists body, trace w = head ++ body /\ Forall (loop_event cfg total) body)
  /\ boundaries_committed cfg (Z.of_nat k) (trace w)
  /\ (table_ok table0 -> table_ok (products w)).

(** The world an exception of the loop leaves. *)
Definition loop_exn (cfg : Settings) (total : Z) (head : list Event)
    (table0 : list Product.t) (e : exn) (w : World) : Prop :=
  ImportJob.total_rows (job w) = total
  /\ (exists body, trace w = head ++ body /\ Forall (loop_event cfg total) body)
  /\ (table_ok table0 -> table_ok (products w))
  /\ (e = ZeroDivisionError -> PROGRESS_UPDATE_INTERVAL cfg = 0).

(** The events before the loop. *)
Definition head_events (j : ImportJob.t) (total : Z) : list Event :=
  [Commit (set_status parsing j);
   Publish (initial_snapshot parsing 0);
   Commit (set_total_rows total (set_status parsing j));
   Publish (initial_snapshot validating total)].

Definition failed_job (e : exn) (j : ImportJob.t) : ImportJob.t :=
  set_error_details (Some [Message e]) (set_status failed j).

Definition completed_job (l : Loop.t) (j : ImportJob.t) : ImportJob.t :=
  set_error_details
    (if csv.nonempty (Loop.error_details l) then Some (Loop.error_details l) else None)
    (store_counters completed l j).

(** The three ways a run of the task on an existing job goes: the file
    is missing; the run fails after the rows were counted; the run
    completes. *)
Inductive run_spec (cfg : Settings) (table : list Product.t) (j : ImportJob.t)
    : option string -> Run -> Prop :=
  | run_file_missing :
      let jf := failed_job FileNotFoundError (set_status parsing j) in
      run_spec cfg table j None
        (mkRun (Failed FileNotFoundError) table (Some jf)
           [Commit (set_status parsing j); Publish (initial_snapshot parsing 0);
            Commit jf; Publish (failure_snapshot FileNotFoundError jf);
            RemoveFile])
  | run_failed raw e jw table' body :
      let total := Z.of_nat (length (File.lines raw)) - 1 in
      let jf := failed_job e jw in
      ImportJob.total_rows jw = total ->
      Forall (loop_event cfg total) body ->
      (table_ok table -> table_ok table') ->
      (e = ZeroDivisionError -> PROGRESS_UPDATE_INTERVAL cfg = 0) ->
      run_spec cfg table j (Some raw)
        (mkRun (Failed e) table' (Some jf)
           (head_events j total ++ body
            ++ [Commit jf; Publish (failure_snapshot e jf); RemoveFile]))
  | run_completed raw rows l jw table' body :
      let total := Z.of_nat (length (File.lines raw)) - 1 in
      let jf := completed_job l jw in
      csv.DictReader (File.lines raw) = (rows, None) ->
      ImportJob.total_rows jw = total ->
      Loop.processed_rows l = Z.of_nat (length rows) ->
      Loop.success_count l + Loop.error_count l = Loop.processed_rows l ->
      Loop.created_count l + Loop.updated_count l = Loop.success_count l ->
      Forall (loop_event cfg total) body ->
      boundaries_committed cfg (Loop.processed_rows l) (head_events j total ++ body) ->
      (table_ok table -> table_ok table') ->
      run_spec cfg table j (Some raw)
        (mkRun (Completed (Loop.processed_rows l) (Loop.success_count l)
                  (Loop.error_count l) (Loop.created_count l)
                  (Loop.updated_count l))
           table' (Some jf)
           (head_events j total ++ body
            ++ [Commit jf; Publish (snapshot completed l total (100 * 100));
                TriggerWebhooks total (Loop.success_count l) (Loop.error_count l)
                  (Loop.created_count l) (Loop.updated_count l);
                RemoveFile])).

(** ** Physical lines *)



(** ** Example inputs *)

Definition nl : string := String File.LF EmptyString.

(** Three data rows, the second one without a name. *)
Definition three_rows : string :=
  "sku,name,price" +:+ nl +:+ "a1,Widget,3.5" +:+ nl
  +:+ "b2,,1" +:+ nl +:+ "c3,Gadget," +:+ nl.

(** One data row and a blank line after it. *)
Definition blank_line_file : string :=
  "sku,name" +:+ nl +:+ "a1,Widget" +:+ nl +:+ nl.



(** [n] data rows [s0,n0] ... under a header, as text. *)
Fixpoint data_rows (n : nat) : string :=
  match n with
  | S n' => data_rows n' +:+ "s" +:+ pretty n' +:+ ",n" +:+ nl
  | O => EmptyString
  end.

Definition rows_file (n : nat) : string := "sku,name" +:+ nl +:+ data_rows n.




(** ** The validation of the five fields

    What [parse_csv_row] does once the five fields are read and
    trimmed. *)
Definition validate_fields (sku name description price_str quantity_str : string)
    (row_num : Z) : ParsedRow :=
  let errors : list string := [] in
  let errors := append_if (negb (Py.truthy sku)) errors "SKU is required" in
  let errors := append_if (negb (Py.truthy name)) errors "Name is required" in
  let description := if Py.truthy description then Some description else None in
  let '(price, errors) :=
    if Py.truthy price_str then
      match Decimal.of_string price_str with
      | Some d =>
          match Decimal.lt_zero d with
          | Some true => (Some d, errors ++ ["Price cannot be negative"])
          | Some false => (Some d, errors)
          | None => (Some d, errors ++ ["Invalid price format: " +:+ price_str])
          end
      | None => (None, errors ++ ["Invalid price format: " +:+ price_str])
      end
    else (None, errors) in
  let '(quantity, errors) :=
    if Py.truthy quantity_str then
      match Py.int quantity_str with
      | Some q =>
          if q <? 0 then (q, errors ++ ["Quantity cannot be negative"])
          else (q, errors)
      | None => (0, errors ++ ["Invalid quantity format: " +:+ quantity_str])
      end
    else (0, errors) in
  match errors with
  | _ :: _ => Invalid errors row_num
  | [] =>
      Valid {| ProductData.sku := Py.upper sku;
               ProductData.name := name;
               ProductData.description := description;
               ProductData.price := price;
               ProductData.quantity := quantity;
               ProductData.is_active := true |}
  end.

(** The columns the validator reads. *)
Definition read_columns : list string :=
  ["sku"; "name"; "description"; "price"; "quantity"].

(** ** What an upsert leaves alone *)

(** The columns of a row that [ON CONFLICT DO UPDATE] does not set. *)
Definition identity (p : Product.t) : Z * string * bool :=
  (Product.id p, Product.sku p, Product.is_active p).

(** ** The steps of the import task as relations *)

(** The batch of [l1] is handed to the store, which takes it. *)
Definition flush_effect (l1 : Loop.t) (w : World) (l2 : Loop.t) (w2 : World) : Prop :=
  exists table created updated,
    upsert_products (products w) (Loop.batch l1) = Ok (table, (created, updated))
    /\ l2 = {| Loop.processed_rows := Loop.processed_rows l1;
               Loop.success_count := Loop.success_count l1;
               Loop.error_count := Loop.error_count l1;
               Loop.created_count := Loop.created_count l1 + created;
               Loop.updated_count := Loop.updated_count l1 + updated;
               Loop.error_details := Loop.error_details l1;
               Loop.batch := [] |}
    /\ w2 = mkWorld table (job w)
              (trace w ++ [Upsert (Loop.batch l1) created updated]).

(** The batch is below the chunk size and kept, or handed to the
    store. *)
Definition chunk_effect (cfg : Settings) (l1 : Loop.t) (w : World)
    (l2 : Loop.t) (w2 : World) : Prop :=
  (Z.of_nat (length (Loop.batch l1)) < CHUNK_SIZE cfg /\ l2 = l1 /\ w2 = w)
  \/ (CHUNK_SIZE cfg <= Z.of_nat (length (Loop.batch l1))
      /\ flush_effect l1 w l2 w2).

(** The world after the commit of a periodic update. *)
Definition committed_importing (l : Loop.t) (w : World) : World :=
  mkWorld (products w) (store_counters importing l (job w))
          (trace w ++ [Commit (store_counters importing l (job w))]).

(** The periodic update goes through: nothing happens off the
    interval, a commit and a snapshot on it. *)
Definition periodic_effect (cfg : Settings) (total : Z) (l : Loop.t)
    (w w' : World) : Prop :=
  PROGRESS_UPDATE_INTERVAL cfg <> 0
  /\ ((Loop.processed_rows l mod PROGRESS_UPDATE_INTERVAL cfg <> 0 /\ w' = w)
      \/ (Loop.processed_rows l mod PROGRESS_UPDATE_INTERVAL cfg = 0
          /\ total <> 0
          /\ w' = mkWorld (products w) (store_counters importing l (job w))
                    (trace w
                     ++ [Commit (store_counters importing l (job w));
                         Publish (snapshot importing l total
                                    (percentage (Loop.processed_rows l) total))]))).

(** One turn of the loop that goes through. *)
Definition step_effect (cfg : Settings) (total : Z) (l : Loop.t) (row_num : Z)
    (row : Row) (w : World) (l' : Loop.t) (w' : World) : Prop :=
  exists parsed w2,
    parse_csv_row row row_num = Ok parsed
    /\ chunk_effect cfg (account l row_num row parsed) w l' w2
    /\ periodic_effect cfg total l' w2 w'.

(** One turn of the loop that raises: in the validator or the store,
    with the world as it was, or in the periodic update, before or
    after its commit. *)
Definition step_raise (cfg : Settings) (total : Z) (l : Loop.t) (row_num : Z)
    (row : Row) (w w' : World) : Prop :=
  w' = w
  \/ exists parsed l2 w2,
       parse_csv_row row row_num = Ok parsed
       /\ chunk_effect cfg (account l row_num row parsed) w l2 w2
       /\ (w' = w2 \/ w' = committed_importing l2 w2).

(** The batch left after the loop: none, or one the store takes. *)
Definition final_flush (l : Loop.t) (w : World) (l' : Loop.t) (w' : World) : Prop :=
  (Loop.batch l = [] /\ l' = l /\ w' = w)
  \/ (Loop.batch l <> [] /\ flush_effect l w l' w').

(** The run that fails with [e] in the world [w], and the run that
    completes with the counters [l] in the world [w]. *)
Definition failed_run (e : exn) (w : World) : Run :=
  mkRun (Failed e) (products w) (Some (failed_job e (job w)))
    (trace w ++ [Commit (failed_job e (job w));
                 Publish (failure_snapshot e (failed_job e (job w)));
                 RemoveFile]).

Definition completed_run (total : Z) (l : Loop.t) (w : World) : Run :=
  mkRun (Completed (Loop.processed_rows l) (Loop.success_count l)
           (Loop.error_count l) (Loop.created_count l) (Loop.updated_count l))
    (products w) (Some (completed_job l (job w)))
    (trace w ++ [Commit (completed_job l (job w));
                 Publish (snapshot completed l total (100 * 100));
                 TriggerWebhooks total (Loop.success_count l) (Loop.error_count l)
                   (Loop.created_count l) (Loop.updated_count l);
                 RemoveFile]).

(** The world in which the loop starts. *)
Definition loop_start (table : list Product.t) (j : ImportJob.t) (total : Z) : World :=
  mkWorld table (set_total_rows total (set_status parsing j)) (head_events j total).

(** ** Invariants of the import loop *)

(** The table has kept the rows of [table] and has grown by the rows
    the loop has counted as created; the batch holds canonical SKUs. *)
Definition table_grows (table : list Product.t) (l : Loop.t) (w : World) : Prop :=
  map identity table `prefix_of` map identity (products w)
  /\ Z.of_nat (length (products w))
     = Z.of_nat (length table) + Loop.created_count l
  /\ Forall (fun d => canonical (ProductData.sku d)) (Loop.batch l).

(** The run on a missing file. *)
Definition missing_file_run (table : list Product.t) (j : ImportJob.t) : Run :=
  failed_run FileNotFoundError
    (mkWorld table (set_status parsing j)
       [Commit (set_status parsing j); Publish (initial_snapshot parsing 0)]).

(** Row [i] of the reader is valid, with the record [d]. *)
Definition valid_at (rows : list Row) (i : nat) (d : ProductData.t) : Prop :=
  exists row, rows !! i = Some row
              /\ parse_csv_row row (2 + Z.of_nat i) = Ok (Valid d).

(** Row [i] is the last valid row with its SKU among the first [n]. *)
Definition last_of_sku (rows : list Row) (n i : nat) (d : ProductData.t) : Prop :=
  (i < n)%nat /\ valid_at rows i d
  /\ forall i' d', (i < i' < n)%nat -> valid_at rows i' d' ->
       ProductData.sku d' <> ProductData.sku d.

(** Where the records of the first [n] rows are: the SKUs of the table
    and the batch are those of [table] and of the valid rows; the last
    valid row of a SKU is in the batch or is what the rows of its SKU
    carry; the rows of [table] whose SKU no valid row has are in place;
    the batch holds records of valid rows. *)
Definition rows_stored (rows : list Row) (table : list Product.t) (n : nat)
    (batch : list ProductData.t) (products : list Product.t) : Prop :=
  (forall s, s ∈ map Product.sku products \/ s ∈ map ProductData.sku batch
             <-> s ∈ map Product.sku table
                 \/ exists i d, (i < n)%nat /\ valid_at rows i d
                                /\ ProductData.sku d = s)
  /\ (forall i d, last_of_sku rows n i d ->
        d ∈ batch
        \/ ((ProductData.sku d ∉ map ProductData.sku batch)
            /\ forall q, q ∈ products -> Product.sku q = ProductData.sku d ->
                 carries d q))
  /\ (forall d, d ∈ batch -> exists i, valid_at rows i d).

(** The rows of [table] whose SKU no valid row of the file has. *)
Definition untouched (rows : list Row) (q : Product.t) : Prop :=
  forall i d, valid_at rows i d -> ProductData.sku d <> Product.sku q.


(** The records of the valid rows, in the order of the file, the first
    row having the number [row_num]; and their SKUs. *)
Fixpoint valid_records (row_num : Z) (rows : list Row) : list ProductData.t :=
  match rows with
  | row :: rest =>
      match parse_csv_row row row_num with
      | Ok (Valid d) => d :: valid_records (row_num + 1) rest
      | _ => valid_records (row_num + 1) rest
      end
  | [] => []
  end.

Definition valid_skus (row_num : Z) (rows : list Row) : list string :=
  map ProductData.sku (valid_records row_num rows).

(** The batches handed to the store, in order. *)
Definition upserts (tr : list Event) : list (list ProductData.t) :=
  omap (fun ev => match ev with Upsert batch _ _ => Some batch | _ => None end) tr.


(** The entries of the rejected rows, in the order of the file, the
    first row having the number [row_num]. *)
Fixpoint rejected (row_num : Z) (rows : list Row) : list ErrorDetail :=
  match rows with
  | row :: rest =>
      match parse_csv_row row row_num with
      | Ok (Invalid errors _) =>
          RowError row_num errors (default (Some EmptyString) (row !! "sku"))
          :: rejected (row_num + 1) rest
      | _ => rejected (row_num + 1) rest
      end
  | [] => []
  end.

(** The error log of the loop after [n] rows. *)
Definition errors_logged (rows : list Row) (n : nat) (l : Loop.t) : Prop :=
  Loop.error_details l = take 100 (rejected 2 (take n rows))
  /\ Loop.error_count l = Z.of_nat (length (rejected 2 (take n rows))).

(** ** The end of a run *)




(** ** Snapshots *)

(** A snapshot with a percentage has one between 0 and 100, and when it
    is one of the loop, a row count between 1 and [total_rows]. *)
Definition progress_ok (p : Progress.t) : Prop :=
  forall pct, Progress.progress_percentage p = Some pct ->
    0 <= pct <= 100 * 100
    /\ (Progress.status p = importing ->
        0 < Progress.processed_rows p <= Progress.total_rows p).

(** ** Deliveries *)

(** The columns of a webhook that its owner sets. *)
Definition same_configuration (w w' : Webhook.t) : Prop :=
  Webhook.id w' = Webhook.id w
  /\ Webhook.url w' = Webhook.url w
  /\ Webhook.event_type w' = Webhook.event_type w
  /\ Webhook.is_enabled w' = Webhook.is_enabled w
  /\ Webhook.secret w' = Webhook.secret w.

(** The failure count a delivery of [attempts] runs leaves, from how
    its last run ended: a success resets it, a run that ends with an
    exception the task does not catch counts nothing, and every other
    run counts one failure. *)
Definition failures_after (before : Z) (attempts : nat) (final : option TaskResult) : Z :=
  match final with
  | Some (Return_sent true _ _) => 0
  | Some (Raised Unhandled) => before + Z.of_nat attempts - 1
  | _ => before + Z.of_nat attempts
  end.

(** The digits of [hexdigest]. *)
Definition is_lower_hex (c : ascii) : bool :=
  existsb (Ascii.eqb c) (list_ascii_of_string "0123456789abcdef").

(** ** The fan-out ([trigger_webhooks]) *)

Definition has_webhook_id (i : Z) (w : Webhook.t) : bool := Webhook.id w =? i.

(** [Webhook.event_type == event_type, Webhook.is_enabled == True] *)
Definition subscribed (event_type : string) (w : Webhook.t) : bool :=
  bool_decide (Webhook.event_type w = event_type) && Webhook.is_enabled w.

Section Fanout.

Variable Payload : Type.
Variable json_dumps : string -> string -> Payload -> string.

(** [trigger_webhooks(event_type, payload)] on the table of webhooks:
    the calls of [send_webhook.delay] in order, and
    [triggered_webhooks]. *)
Definition trigger_webhooks (table : list Webhook.t) (event_type : string)
    (payload : Payload) : list (Z * string * Payload) * Z :=
  let webhooks := List.filter (subscribed event_type) table in
  fold_left
    (fun (st : list (Z * string * Payload) * Z) webhook =>
       (st.1 ++ [(Webhook.id webhook, event_type, payload)], st.2 + 1))
    webhooks ([], 0).

(** A queued call of [send_webhook], run for the first time on the
    table of webhooks. *)
Definition run_queued (table : list Webhook.t) (call : Z * string * Payload)
    (now1 now2 now3 : string) (post : Request -> HttpOutcome) : Sent :=
  send_webhook Payload json_dumps (List.find (has_webhook_id call.1.1) table) 0
    call.1.2 call.2 now1 now2 now3 post.

End Fanout.

(** ** The product list ([list_products]) *)

(** The [ProductResponse] schema.  [quantity] is required to be an
    integer, so that a row without a quantity fails the validation of
    the response.  The price is kept as the decimal it is. *)
Module ProductResponse.
Record t : Type := mk {
  id : Z;
  sku : string;
  name : string;
  description : option string;
  price : option Decimal.t;
  quantity : Z;
  is_active : bool
}.

Definition model_validate (p : Product.t) : option t :=
  match Product.quantity p with
  | Some quantity =>
      Some (mk (Product.id p) (Product.sku p) (Product.name p)
               (Product.description p) (Product.price p) quantity
               (Product.is_active p))
  | None => None
  end.
End ProductResponse.

(** The answers to a list request: the page, a rejected query
    parameter, or a response that fails its validation. *)
Inductive ListResponse : Type :=
  | List_200 (items : list ProductResponse.t) (total page page_size total_pages : Z)
  | List_422
  | List_500.

(** [ORDER BY id DESC]: the rows are put in place one by one. *)
Fixpoint insert_desc (p : Product.t) (l : list Product.t) : list Product.t :=
  match l with
  | q :: rest =>
      if Product.id q <=? Product.id p then p :: l else q :: insert_desc p rest
  | [] => [p]
  end.

Definition order_by_id_desc (l : list Product.t) : list Product.t :=
  foldr insert_desc [] l.

(** A list of numbers in descending order. *)
Fixpoint descending (l : list Z) : Prop :=
  match l with
  | x :: rest => Forall (fun y => y <= x) rest /\ descending rest
  | [] => True
  end.

Section ListProducts.

(** [text LIKE pattern] in the store. *)
Variable like : string -> string -> bool.

(** [func.lower(column).like(pattern)]; a null column matches nothing. *)
Definition lower_like (column : option string) (pattern : string) : bool :=
  match column with
  | Some text => like (Py.lower text) pattern
  | None => false
  end.

(** [func.lower(column).contains(value.lower())] *)
Definition lower_contains (column : option string) (value : string) : bool :=
  lower_like column ("%" +:+ Py.lower value +:+ "%").

(** [if value: query = query.filter(..)] *)
Definition filter_if (value : option string) (cond : string -> Product.t -> bool)
    (query : list Product.t) : list Product.t :=
  match value with
  | Some v => if Py.truthy v then List.filter (cond v) query else query
  | None => query
  end.

(** The query of [list_products] with its filters applied. *)
Definition filtered (table : list Product.t) (sku name description : option string)
    (is_active : option bool) (search : option string) : list Product.t :=
  let query := table in
  let query :=
    filter_if sku (fun v p => lower_contains (Some (Product.sku p)) v) query in
  let query :=
    filter_if name (fun v p => lower_contains (Some (Product.name p)) v) query in
  let query :=
    filter_if description (fun v p => lower_contains (Product.description p) v)
      query in
  let query :=
    match is_active with
    | Some b => List.filter (fun p => Bool.eqb (Product.is_active p) b) query
    | None => query
    end in
  filter_if search
    (fun v p =>
       let search_term := "%" +:+ Py.lower v +:+ "%" in
       lower_like (Some (Product.sku p)) search_term
       || lower_like (Some (Product.name p)) search_term
       || lower_like (Product.description p) search_term)
    query.

Definition list_products (table : list Product.t) (page page_size : Z)
    (sku name description : option string) (is_active : option bool)
    (search : option string) : ListResponse :=
  if negb ((1 <=? page) && (1 <=? page_size) && (page_size <=? 100))
  then List_422
  else
    let query := filtered table sku name description is_active search in
    let total := Z.of_nat (length query) in
    let offset := (page - 1) * page_size in
    let products :=
      take (Z.to_nat page_size)
           (drop (Z.to_nat offset) (order_by_id_desc query)) in
    let total_pages := (total + page_size - 1) / page_size in
    match mapM ProductResponse.model_validate products with
    | Some items => List_200 items total page page_size total_pages
    | None => List_500
    end.

(** The items of an answer, and those of the pages 1 to [total_pages]
    one after the other. *)
Definition page_items (r : ListResponse) : list ProductResponse.t :=
  match r with List_200 items _ _ _ _ => items | _ => [] end.

Definition all_pages (table : list Product.t) (page_size total_pages : Z)
    (sku name description : option string) (is_active : option bool)
    (search : option string) : list ProductResponse.t :=
  concat (map (fun k => page_items (list_products table (Z.of_nat k) page_size
                                      sku name description is_active search))
              (seq 1 (Z.to_nat total_pages))).

End ListProducts.

(** The response of a row that has a quantity. *)
Definition response_of (p : Product.t) : ProductResponse.t :=
  ProductResponse.mk (Product.id p) (Product.sku p) (Product.name p)
    (Product.description p) (Product.price p) (default 0 (Product.quantity p))
    (Product.is_active p).

(** ** The status of a job ([get_import_status] of [app/api/imports.py]) *)



(** ** The progress stream ([stream_import_progress]) *)

Global Instance exn_eq_dec : EqDecision exn.
Proof. solve_decision. Defined.

Global Instance Progress_eq_dec : EqDecision Progress.t.
Proof. solve_decision. Defined.

(** A poll of the progress store: the snapshot it holds, if any, or
    an exception. *)
Inductive Poll : Type :=
  | Read (progress_data : option Progress.t)
  | ReadFailed.

(** The events of the stream. *)
Inductive ServerSentEvent : Type :=
  | SseData (progress : Progress.t)
  | SseError
  | SseStreamEnded.

(** The loop [while retry_count < max_retries] of [event_generator],
    with [remaining = max_retries - retry_count]; [reads] gives the
    outcome of each poll. *)
Fixpoint poll_loop (remaining retry_count : nat) (last_data : option Progress.t)
    (reads : nat -> Poll) : list ServerSentEvent :=
  match remaining with
  | S remaining' =>
      match reads retry_count with
      | Read (Some progress) =>
          if bool_decide (Some progress <> last_data) then
            SseData progress
            :: (if terminal (Progress.status progress) then []
                else poll_loop remaining' (S retry_count) (Some progress) reads)
          else poll_loop remaining' (S retry_count) last_data reads
      | Read None => poll_loop remaining' (S retry_count) last_data reads
      | ReadFailed => [SseError]
      end
  | O => []
  end.

Definition event_generator (reads : nat -> Poll) : list ServerSentEvent :=
  poll_loop 600 0 None reads ++ [SseStreamEnded].

(** [stream_import_progress(job_id)]: [None] is the answer 404. *)
Definition stream_import_progress (import_job : option ImportJob.t)
    (reads : nat -> Poll) : option (list ServerSentEvent) :=
  match import_job with
  | None => None
  | Some _ => Some (event_generator reads)
  end.

(** The events of the loop after the snapshot [last_data]: a new
    snapshot differs from the one before it, and a snapshot of a job
    that is over, or an error, ends the loop. *)
Fixpoint stream_ok (last_data : option Progress.t) (evs : list ServerSentEvent)
    : Prop :=
  match evs with
  | SseData p :: rest =>
      Some p <> last_data
      /\ (if terminal (Progress.status p) then rest = []
          else stream_ok (Some p) rest)
  | SseError :: rest => rest = []
  | SseStreamEnded :: _ => False
  | [] => True
  end.

(** * Properties *)

(** ** The row validator *)






(** A record shorter than the header leaves [None] in the row, and the
    validator raises on it. *)
Example parse_csv_row_short_record :
  parse_csv_row (csv.make_row ["sku"; "name"; "price"] ["b2"; "Gadget"]) 3
  = Raise AttributeError.
Proof. reflexivity. Qed.

(** ** Lines and records *)


(** Every record takes at least one line. *)
Lemma records_length (lines : list string) :
  forall r,
    (length (csv.records r lines).1
     <= length lines + (if open_record r then 1 else 0))%nat.
Proof.
  induction lines as [| line rest IH]; intros r; cbn [csv.records].
  - unfold open_record. destruct (_ || _); cbn; lia.
  - destruct (csv.feed r _) as [r' | e]; [| cbn; lia].
    destruct (csv.is_start_record (csv.state r')).
    + specialize (IH csv.parse_reset).
      destruct (csv.records csv.parse_reset rest) as [rs e]. cbn in *. lia.
    + specialize (IH r'). destruct (open_record r'); cbn in *; lia.
Qed.

Lemma reader_length (lines : list string) :
  (length (csv.reader lines).1 <= length lines)%nat.
Proof.
  unfold csv.reader. pose proof (records_length lines csv.parse_reset) as H.
  cbn in H. lia.
Qed.

(** The rows of [DictReader] are fewer than the lines of the file. *)
Lemma DictReader_length (lines : list string) :
  (csv.DictReader lines).1 = []
  \/ (length (csv.DictReader lines).1 < length lines)%nat.
Proof.
  unfold csv.DictReader. pose proof (reader_length lines) as H.
  destruct (csv.reader lines) as [[| fieldnames recs] e]; [by left |].
  right. cbn in *. rewrite length_map.
  pose proof (length_filter (fun r : list string => r ≠ []) recs). lia.
Qed.

Lemma ordinary_step (r : csv.Reader) (c : ascii) :
  between_fields (csv.state r) -> ordinary c = true ->
  exists r', csv.parse_process_char r (Some c) = Ok r'
             /\ between_fields (csv.state r').
Proof.
  unfold ordinary, between_fields, csv.parse_process_char, csv.start_field.
  intros [-> | ->] [Hn Hq]%andb_true_iff;
    apply negb_true_iff in Hn; apply negb_true_iff in Hq; rewrite Hn, ?Hq;
    destruct (Ascii.eqb c csv.delimiter); eexists; split; try reflexivity;
    cbn; auto.
Qed.

Lemma end_of_line (r : csv.Reader) :
  between_fields (csv.state r) ->
  exists r', csv.parse_process_char r None = Ok r'
             /\ csv.state r' = csv.START_RECORD /\ csv.fields r' <> [].
Proof.
  unfold between_fields, csv.parse_process_char, csv.start_field.
  intros [-> | ->]; eexists; (split; [reflexivity |]); cbn;
    (split; [reflexivity |]); by destruct (csv.fields r).
Qed.

Lemma line_feed_last (r : csv.Reader) :
  between_fields (csv.state r) ->
  exists r', csv.feed r [File.LF] = Ok r'
             /\ csv.state r' = csv.START_RECORD /\ csv.fields r' <> [].
Proof.
  unfold between_fields, csv.feed, csv.parse_process_char, csv.start_field.
  intros [-> | ->]; cbn; eexists; (split; [reflexivity |]); cbn;
    (split; [reflexivity |]); by destruct (csv.fields r).
Qed.

Lemma feed_ordinary_tail (l : list ascii) :
  forall r, between_fields (csv.state r) -> ordinary_tail l = true ->
  exists r', csv.feed r l = Ok r'
             /\ csv.state r' = csv.START_RECORD /\ csv.fields r' <> [].
Proof.
  induction l as [| c rest IH]; intros r Hr Hl.
  - by apply end_of_line.
  - destruct rest as [| c' rest'].
    + cbn in Hl. apply orb_true_iff in Hl as [Hc | Hc].
      * destruct (ordinary_step r c Hr Hc) as (r1 & E1 & H1).
        cbn [csv.feed]. rewrite E1. cbn [rbind]. by apply end_of_line.
      * apply Ascii.eqb_eq in Hc as ->. by apply line_feed_last.
    + change (ordinary c && ordinary_tail (c' :: rest') = true) in Hl.
      apply andb_true_iff in Hl as [Hc Hl].
      destruct (ordinary_step r c Hr Hc) as (r1 & E1 & H1).
      cbn [csv.feed]. rewrite E1. cbn [rbind]. by apply IH.
Qed.

(** A record line, read from the start of a record, is one record
    that is not empty. *)
Lemma feed_record_line (line : string) :
  record_line line = true ->
  exists r', csv.feed csv.parse_reset (list_ascii_of_string line) = Ok r'
             /\ csv.state r' = csv.START_RECORD /\ csv.fields r' <> [].
Proof.
  unfold record_line. destruct (list_ascii_of_string line) as [| c rest]; [done |].
  intros [Hc Hl]%andb_true_iff.
  assert (exists r1, csv.parse_process_char csv.parse_reset (Some c) = Ok r1
                     /\ between_fields (csv.state r1)) as (r1 & E1 & H1).
  { unfold csv.parse_process_char, csv.start_field, between_fields. cbn.
    unfold ordinary in Hc. apply andb_true_iff in Hc as [Hn Hq].
    apply negb_true_iff in Hn; apply negb_true_iff in Hq. rewrite Hn, Hq.
    destruct (Ascii.eqb c csv.delimiter); eexists; split; try reflexivity;
      cbn; auto. }
  cbn [csv.feed]. rewrite E1. cbn [rbind]. by apply feed_ordinary_tail.
Qed.

Lemma records_record_lines (lines : list string) :
  Forall (fun line => record_line line = true) lines ->
  exists recs, csv.records csv.parse_reset lines = (recs, None)
               /\ length recs = length lines
               /\ Forall (fun r => r <> []) recs.
Proof.
  induction 1 as [| line rest Hline _ (recs & E & Hlen & Hne)].
  - exists []. by cbn.
  - destruct (feed_record_line line Hline) as (r' & E' & Hst & Hf).
    exists (csv.fields r' :: recs). cbn [csv.records].
    rewrite E', Hst. cbn. rewrite E. cbn. split_and!; auto.
Qed.

(** On a file of record lines, [DictReader] yields one row for each
    line after the first and does not fail. *)
Lemma DictReader_record_lines (lines : list string) :
  lines <> [] ->
  Forall (fun line => record_line line = true) lines ->
  exists rows, csv.DictReader lines = (rows, None)
               /\ S (length rows) = length lines.
Proof.
  intros Hne Hall. unfold csv.DictReader, csv.reader.
  destruct (records_record_lines lines Hall) as (recs & -> & Hlen & Hrecs).
  destruct recs as [| fieldnames recs]; [by destruct lines |].
  eexists. split; [reflexivity |].
  rewrite length_map, <- Hlen. cbn. f_equal.
  apply Forall_inv_tail in Hrecs.
  clear -Hrecs. induction Hrecs as [| r recs Hr _ IH]; [done |].
  rewrite filter_cons. destruct (decide (r ≠ [])); [cbn; by rewrite IH | done].
Qed.

(** ** Rules for [wp] *)

Section WpRules.
Context {A B : Type}.
Implicit Types (Q : A -> World -> Prop) (E : exn -> World -> Prop).

Lemma wp_ret (a : A) Q E w : wp (ret a) Q E w = Q a w.
Proof. reflexivity. Qed.

Lemma wp_raise (e : exn) Q E w : wp (raise e) Q E w = E e w.
Proof. reflexivity. Qed.

Lemma wp_lift (r : result A) Q E w :
  wp (lift r) Q E w = match r with Ok a => Q a w | Raise e => E e w end.
Proof. unfold wp, lift. by destruct r. Qed.

Lemma wp_bind (m : M A) (k : A -> M B) (Q' : B -> World -> Prop) E w :
  wp (bind m k) Q' E w = wp m (fun a w' => wp (k a) Q' E w') E w.
Proof. unfold wp, bind. by destruct (m w) as [w' [a | e]]. Qed.

Lemma wp_if (b : bool) (m1 m2 : M A) Q E w :
  wp (if b then m1 else m2) Q E w = if b then wp m1 Q E w else wp m2 Q E w.
Proof. by destruct b. Qed.

Lemma wp_mono (m : M A) Q Q' E E' w :
  (forall a w', Q a w' -> Q' a w') -> (forall e w', E e w' -> E' e w') ->
  wp m Q E w -> wp m Q' E' w.
Proof. unfold wp. intros HQ HE. destruct (m w) as [w' [a | e]]; auto. Qed.

Lemma wp_try_except (m : M A) (handler : exn -> M A) Q E w :
  wp (try_except m handler) Q E w
  = wp m Q (fun e w' => wp (handler e) Q E w') w.
Proof. unfold wp, try_except. by destruct (m w) as [w' [a | e]]. Qed.
End WpRules.

Lemma wp_emit (ev : Event) (Q : unit -> World -> Prop) E w :
  wp (emit ev) Q E w = Q tt (mkWorld (products w) (job w) (trace w ++ [ev])).
Proof. reflexivity. Qed.

Lemma wp_modify_job f (Q : unit -> World -> Prop) E w :
  wp (modify_job f) Q E w = Q tt (mkWorld (products w) (f (job w)) (trace w)).
Proof. reflexivity. Qed.

Lemma wp_get_job (Q : ImportJob.t -> World -> Prop) E w :
  wp get_job Q E w = Q (job w) w.
Proof. reflexivity. Qed.

Lemma wp_commit (Q : unit -> World -> Prop) E w :
  wp commit Q E w
  = Q tt (mkWorld (products w) (job w) (trace w ++ [Commit (job w)])).
Proof. reflexivity. Qed.

Lemma wp_update_progress p (Q : unit -> World -> Prop) E w :
  wp (update_progress p) Q E w
  = Q tt (mkWorld (products w) (job w) (trace w ++ [Publish p])).
Proof. reflexivity. Qed.

Lemma wp_upsert batch (Q : Z * Z -> World -> Prop) E w :
  wp (upsert batch) Q E w
  = match upsert_products (products w) batch with
    | Ok (table, (created, updated)) =>
        Q (created, updated)
          (mkWorld table (job w) (trace w ++ [Upsert batch created updated]))
    | Raise e => E e w
    end.
Proof.
  unfold wp, upsert.
  by destruct (upsert_products (products w) batch) as [[table [c u]] | e].
Qed.

(** The loop: an invariant of the body, indexed by the number of rows
    read, holds after the loop. *)
Lemma wp_process_rows cfg total_rows
    (I : nat -> Loop.t -> World -> Prop) (E : exn -> World -> Prop) rows :
  forall k l w,
    (forall i row l w, rows !! i = Some row -> I (k + i)%nat l w ->
       wp (process_row cfg total_rows l (2 + Z.of_nat (k + i)) row)
          (I (S (k + i))) E w) ->
    I k l w ->
    wp (process_rows cfg total_rows l (2 + Z.of_nat k) rows)
       (I (k + length rows)%nat) E w.
Proof.
  induction rows as [| row rest IH]; intros k l w Hbody HI.
  - cbn [process_rows length]. rewrite wp_ret. by rewrite Nat.add_0_r.
  - cbn [process_rows]. rewrite wp_bind.
    pose proof (Hbody 0%nat row l w eq_refl) as H0.
    rewrite Nat.add_0_r in H0. specialize (H0 HI).
    eapply wp_mono; [| | exact H0]; [| auto].
    intros l' w' HI'. cbn beta.
    replace (2 + Z.of_nat k + 1) with (2 + Z.of_nat (S k)) by lia.
    replace (k + length (row :: rest))%nat with (S k + length rest)%nat
      by (cbn; lia).
    apply IH; [| exact HI'].
    intros i row' l0 w0 Hi. specialize (Hbody (S i) row' l0 w0 Hi).
    by replace (k + S i)%nat with (S k + i)%nat in Hbody by lia.
Qed.

(** The run of the task through [wp]. *)
Lemma import_csv_task_wp cfg table j file (P : Run -> Prop) :
  wp (try_except (import_body cfg file) import_failed)
     (fun o w => P (mkRun o (products w) (Some (job w)) (trace w)))
     (fun e w => P (mkRun (Failed e) (products w) (Some (job w)) (trace w)))
     (mkWorld table j []) ->
  P (import_csv_task cfg table (Some j) file).
Proof.
  unfold wp, import_csv_task.
  by destruct (try_except _ _ _) as [w [o | e]].
Qed.

(** ** Case mapping *)

Lemma upper_char_lower_char (c : ascii) :
  Py.upper_char (Py.lower_char c) = Py.upper_char c.
Proof. by destruct c as [[] [] [] [] [] [] [] []]. Qed.

Lemma upper_char_idemp (c : ascii) :
  Py.upper_char (Py.upper_char c) = Py.upper_char c.
Proof. by destruct c as [[] [] [] [] [] [] [] []]. Qed.

Lemma upper_lower (s : string) : Py.upper (Py.lower s) = Py.upper s.
Proof.
  induction s as [| c s IH]; [done |].
  cbn. f_equal; [apply upper_char_lower_char | exact IH].
Qed.

Lemma upper_idemp (s : string) : Py.upper (Py.upper s) = Py.upper s.
Proof.
  induction s as [| c s IH]; [done |].
  cbn. f_equal; [apply upper_char_idemp | exact IH].
Qed.

Lemma canonical_upper (s : string) : canonical (Py.upper s).
Proof. apply upper_idemp. Qed.

(** Canonical SKUs that are equal up to case are equal. *)
Lemma canonical_lower_inj (a b : string) :
  canonical a -> canonical b -> Py.lower a = Py.lower b -> a = b.
Proof.
  unfold canonical. intros Ha Hb H.
  rewrite <- Ha, <- Hb, <- (upper_lower a), <- (upper_lower b). by rewrite H.
Qed.

(** ** The upsert engine *)

Lemma existsb_has_sku (s : string) (table : list Product.t) :
  existsb (has_sku s) table = true <-> s ∈ map Product.sku table.
Proof.
  rewrite existsb_exists, list_elem_of_fmap. unfold has_sku. split.
  - intros (p & Hp%list_elem_of_In & Hs%bool_decide_eq_true). eauto.
  - intros (p & -> & Hp%list_elem_of_In). exists p. split; [done |].
    by apply bool_decide_eq_true.
Qed.

Lemma existsb_has_sku_false (s : string) (table : list Product.t) :
  existsb (has_sku s) table = false <-> s ∉ map Product.sku table.
Proof.
  rewrite <- existsb_has_sku. by destruct (existsb _ _).
Qed.

Lemma map_sku_conflict_update (d : ProductData.t) (f : Product.t -> bool)
    (table : list Product.t) :
  map Product.sku (map (fun p => if f p then conflict_update d p else p) table)
  = map Product.sku table.
Proof.
  rewrite map_map. apply map_ext. intros p. by destruct (f p).
Qed.

Lemma map_sku_upsert_row (table : list Product.t) (d : ProductData.t) :
  map Product.sku (upsert_row table d)
  = if existsb (has_sku (ProductData.sku d)) table
    then map Product.sku table
    else map Product.sku table ++ [ProductData.sku d].
Proof.
  unfold upsert_row. destruct (existsb _ _).
  - apply map_sku_conflict_update.
  - by rewrite map_app.
Qed.


Lemma upsert_row_table_ok (table : list Product.t) (d : ProductData.t) :
  canonical (ProductData.sku d) -> table_ok table -> table_ok (upsert_row table d).
Proof.
  intros Hd [Hcan Hnd]. unfold table_ok, upsert_row.
  destruct (existsb _ _) eqn:E.
  - split.
    + apply Forall_map. eapply Forall_impl; [exact Hcan |].
      intros p Hp. cbn. by destruct (has_sku _ p).
    + rewrite map_map.
      erewrite map_ext; [exact Hnd |]. intros p. by destruct (has_sku _ p).
  - apply existsb_has_sku_false in E. split.
    + apply Forall_app. split; [done |]. by apply Forall_singleton.
    + rewrite map_app. apply NoDup_app. split_and!; [done | | apply NoDup_singleton].
      intros s Hs ->%list_elem_of_singleton. cbn in Hs.
      apply list_elem_of_fmap in Hs as (p & Hlow & Hp).
      apply E. apply list_elem_of_fmap. exists p. split; [| done].
      apply canonical_lower_inj; [done | | done].
      rewrite Forall_forall in Hcan. by apply Hcan.
Qed.


Lemma insert_on_conflict_do_update_inv (values : list ProductData.t) :
  forall touched table table',
    insert_on_conflict_do_update touched table values = Ok table' ->
    table' = fold_left upsert_row values table
    /\ NoDup (map ProductData.sku values).
Proof.
  assert (forall touched table table',
    insert_on_conflict_do_update touched table values = Ok table' ->
    table' = fold_left upsert_row values table
    /\ NoDup (map ProductData.sku values)
    /\ Forall (fun d => ProductData.sku d ∉ touched) values) as H.
  { induction values as [| d rest IH]; intros touched table table' E.
    - cbn in E. injection E as <-. split_and!; [done | apply NoDup_nil_2 | done].
    - cbn [insert_on_conflict_do_update] in E.
      destruct (bool_decide _) eqn:Hd; [done |].
      apply bool_decide_eq_false in Hd.
      apply IH in E as (-> & Hnd & Hfresh). split_and!; [done | |].
      + cbn. apply NoDup_cons. split; [| done].
        intros (d' & Heq & Hin)%list_elem_of_fmap.
        rewrite Forall_forall in Hfresh. apply (Hfresh d' Hin).
        rewrite <- Heq. apply list_elem_of_here.
      + apply Forall_cons. split; [done |].
        eapply Forall_impl; [exact Hfresh |]. intros d' Hd' Hin.
        apply Hd'. by apply list_elem_of_further. }
  intros touched table table' E. apply H in E. tauto.
Qed.


Lemma fold_upsert_row_table_ok (values : list ProductData.t) :
  forall table,
    Forall (fun d => canonical (ProductData.sku d)) values ->
    table_ok table -> table_ok (fold_left upsert_row values table).
Proof.
  induction values as [| d rest IH]; intros table Hv H; [done |].
  apply Forall_cons in Hv as [Hd Hv].
  cbn. apply IH; [done |]. by apply upsert_row_table_ok.
Qed.

(** The counters add up to the size of the batch. *)
Lemma count_created_updated_sum existing_skus (products : list ProductData.t) :
  (count_created_updated existing_skus products).1
  + (count_created_updated existing_skus products).2
  = Z.of_nat (length products).
Proof.
  unfold count_created_updated.
  assert (forall cu : Z * Z,
    (fold_left
       (fun (cu : Z * Z) product_data =>
          if bool_decide (ProductData.sku product_data ∈ existing_skus)
          then (cu.1, cu.2 + 1) else (cu.1 + 1, cu.2)) products cu).1
    + (fold_left
         (fun (cu : Z * Z) product_data =>
            if bool_decide (ProductData.sku product_data ∈ existing_skus)
            then (cu.1, cu.2 + 1) else (cu.1 + 1, cu.2)) products cu).2
    = cu.1 + cu.2 + Z.of_nat (length products)) as H.
  { induction products as [| d rest IH]; intros cu; [cbn; lia |].
    cbn [fold_left length]. rewrite IH.
    destruct (bool_decide _); cbn; lia. }
  rewrite H. cbn. lia.
Qed.

Lemma upsert_products_inv table products table' created updated :
  upsert_products table products = Ok (table', (created, updated)) ->
  created + updated = Z.of_nat (length products)
  /\ table' = fold_left upsert_row products table.
Proof.
  unfold upsert_products. destruct products as [| d rest].
  - intros [= <- <- <-]. by cbn.
  - destruct (insert_on_conflict_do_update [] table (d :: rest)) as [t |] eqn:E;
      [| done].
    cbn [rbind]. intros [= <- Hc].
    apply insert_on_conflict_do_update_inv in E as [-> _]. split; [| done].
    match type of Hc with
    | count_created_updated ?ex ?ps = _ =>
        pose proof (count_created_updated_sum ex ps) as Hsum
    end.
    rewrite Hc in Hsum. exact Hsum.
Qed.

Lemma upsert_products_table_ok table products table' cu :
  Forall (fun d => canonical (ProductData.sku d)) products ->
  table_ok table ->
  upsert_products table products = Ok (table', cu) ->
  table_ok table'.
Proof.
  intros Hp Ht E. destruct cu as [c u].
  apply upsert_products_inv in E as [_ ->].
  by apply fold_upsert_row_table_ok.
Qed.

(** ** The import task, step by step *)

Lemma get_strip_raises row key e : get_strip row key = Raise e -> e = AttributeError.
Proof. unfold get_strip. destruct (row !! key) as [[v |] |]; congruence. Qed.

(** The validator raises nothing but the error of a [None] field. *)
Lemma parse_csv_row_raises row row_num e :
  parse_csv_row row row_num = Raise e -> e = AttributeError.
Proof.
  unfold parse_csv_row.
  repeat first
    [ match goal with
      | |- context [get_strip row ?k] =>
          let E := fresh "E" in
          destruct (get_strip row k) eqn:E;
          [cbn [rbind] | apply get_strip_raises in E; cbn [rbind]; congruence]
      end
    | match goal with
      | |- context [let '(_, _) := ?x in _] => destruct x as [? [| ? ?]]
      end ]; done.
Qed.

(** The SKU of a valid row is canonical. *)
Lemma parse_csv_row_canonical row row_num data :
  parse_csv_row row row_num = Ok (Valid data) -> canonical (ProductData.sku data).
Proof.
  unfold parse_csv_row.
  repeat first
    [ match goal with
      | |- context [get_strip row ?k] =>
          destruct (get_strip row k); cbn [rbind]; [| done]
      end
    | match goal with
      | |- context [let '(_, _) := ?x in _] => destruct x as [? [| ? ?]]
      end ]; try done.
  all: intros [= <-]; apply canonical_upper.
Qed.

Lemma account_counters k l row_num row parsed :
  parse_csv_row row row_num = Ok parsed ->
  counters_ok k l -> counters_ok (S k) (account l row_num row parsed).
Proof.
  intros Hp (Hk & Hsum & Hbatch & Hcan). unfold counters_ok, account.
  destruct parsed as [data | errors n]; cbn.
  - rewrite length_app. cbn. split_and!; try lia.
    apply Forall_app. split; [done |]. apply Forall_singleton.
    by eapply parse_csv_row_canonical.
  - split_and!; try lia. done.
Qed.

Lemma upsert_products_raises table products e :
  upsert_products table products = Raise e -> e <> ZeroDivisionError.
Proof.
  unfold upsert_products. destruct products as [| d rest]; [done |].
  assert (forall values touched t,
            insert_on_conflict_do_update touched t values = Raise e ->
            e = DatabaseError) as H.
  { induction values as [| d' rest' IH]; intros touched t; cbn; [done |].
    destruct (bool_decide _); [congruence | apply IH]. }
  destruct (insert_on_conflict_do_update _ _ _) eqn:E; cbn; [done |].
  intros [= <-]. apply H in E. by subst.
Qed.

Section Loop.
Variables (cfg : Settings) (total : Z) (head : list Event)
          (table0 : list Product.t).

Lemma world_ok_exn k w e :
  (e = ZeroDivisionError -> PROGRESS_UPDATE_INTERVAL cfg = 0) ->
  world_ok cfg total head table0 k w -> loop_exn cfg total head table0 e w.
Proof. intros He (? & ? & ? & ?). by split_and!. Qed.

(** Handing the batch to the store. *)
Lemma flush_wp k kr l w :
  counters_ok k l -> world_ok cfg total head table0 kr w ->
  wp (flush l)
     (fun l' w' => counters_ok k l' /\ world_ok cfg total head table0 kr w')
     (loop_exn cfg total head table0) w.
Proof.
  intros (Hk & Hsum & Hbatch & Hcan) Hw. unfold flush.
  rewrite wp_bind, wp_upsert.
  destruct (upsert_products _ _) as [[table' [c u]] | e] eqn:E.
  - rewrite wp_ret. destruct Hw as (Ht & (body & Htr & Hbody) & Hb & Hok).
    pose proof (upsert_products_inv _ _ _ _ _ E) as [Hcu _].
    split.
    + unfold counters_ok. cbn. split_and!; try done; lia.
    + unfold world_ok. cbn. split_and!; [done | | |].
      * exists (body ++ [Upsert (Loop.batch l) c u]).
        rewrite Htr, app_assoc. split; [done |].
        apply Forall_app. split; [done |]. by apply Forall_singleton.
      * intros p Hp Hmod. destruct (Hb p Hp Hmod) as (j' & Hin & Hj).
        exists j'. split; [| done]. apply elem_of_app. by left.
      * intros H0.
        eapply upsert_products_table_ok; [exact Hcan | exact (Hok H0) | exact E].
  - eapply world_ok_exn; [| exact Hw].
    intros ->. by apply upsert_products_raises in E.
Qed.

(** The periodic update after row [S k]. *)
Lemma periodic_update_wp k l w :
  total <> 0 ->
  counters_ok (S k) l -> world_ok cfg total head table0 k w ->
  wp (periodic_update cfg total l)
     (fun _ w' => world_ok cfg total head table0 (S k) w')
     (loop_exn cfg total head table0) w.
Proof.
  intros Htotal (Hk & Hsum & Hbatch & Hcan) Hw. unfold periodic_update.
  rewrite wp_if. destruct (PROGRESS_UPDATE_INTERVAL cfg =? 0) eqn:EI.
  { rewrite wp_raise. eapply world_ok_exn; [| exact Hw]. intros _. lia. }
  apply Z.eqb_neq in EI.
  destruct Hw as (Ht & (body & Htr & Hbody) & Hb & Hok).
  rewrite wp_if.
  destruct (Loop.processed_rows l mod PROGRESS_UPDATE_INTERVAL cfg =? 0) eqn:Em.
  - apply Z.eqb_eq in Em.
    rewrite wp_bind, wp_modify_job, wp_bind, wp_commit, wp_if.
    rewrite (proj2 (Z.eqb_neq _ _) Htotal).
    rewrite wp_update_progress. unfold world_ok. cbn.
    split_and!; [done | | | done].
    + exists (body ++ [Commit (store_counters importing l (job w));
                       Publish (snapshot importing l total
                                  (percentage (Loop.processed_rows l) total))]).
      rewrite Htr, <- !app_assoc. split; [done |].
      apply Forall_app. split; [done |].
      apply Forall_cons. split; [cbn; split_and!; try done; lia |].
      apply Forall_singleton. cbn. split_and!; try done; lia.
    + intros p Hp Hmod.
      destruct (decide (p = Z.of_nat (S k))) as [-> | Hne].
      * exists (store_counters importing l (job w)). cbn.
        split_and!; [| done | done].
        rewrite !elem_of_app. left. right. apply list_elem_of_here.
      * destruct (Hb p ltac:(lia) Hmod) as (j' & Hin & Hj).
        exists j'. split; [| done]. rewrite !elem_of_app. by left; left.
  - apply Z.eqb_neq in Em. rewrite wp_ret. unfold world_ok.
    split_and!; [done | by exists body | | done].
    intros p Hp Hmod.
    destruct (decide (p = Z.of_nat (S k))) as [-> | Hne]; [congruence |].
    apply Hb; [lia | done].
Qed.

(** The body of the loop keeps the counters and the world in order. *)
Lemma process_row_wp k l w row :
  total <> 0 ->
  counters_ok k l /\ world_ok cfg total head table0 k w ->
  wp (process_row cfg total l (2 + Z.of_nat k) row)
     (fun l' w' => counters_ok (S k) l' /\ world_ok cfg total head table0 (S k) w')
     (loop_exn cfg total head table0) w.
Proof.
  intros Htotal [Hl Hw]. unfold process_row.
  rewrite wp_bind, wp_lift.
  destruct (parse_csv_row row _) as [parsed | e] eqn:Ep.
  2:{ eapply world_ok_exn; [| exact Hw].
      intros ->. by apply parse_csv_row_raises in Ep. }
  pose proof (account_counters _ _ _ _ _ Ep Hl) as Hl1.
  set (l1 := account l (2 + Z.of_nat k) row parsed) in *.
  rewrite wp_bind.
  assert (wp (if Z.of_nat (length (Loop.batch l1)) >=? CHUNK_SIZE cfg
              then flush l1 else ret l1)
            (fun l' w' => counters_ok (S k) l'
                          /\ world_ok cfg total head table0 k w')
            (loop_exn cfg total head table0) w) as Hflush.
  { rewrite wp_if. destruct (_ >=? _).
    - by apply flush_wp.
    - by rewrite wp_ret. }
  eapply wp_mono; [| | exact Hflush]; [| auto].
  intros l2 w2 [Hl2 Hw2]. cbn beta.
  rewrite wp_bind.
  eapply wp_mono; [| | by apply (periodic_update_wp k l2 w2)]; [| auto].
  intros [] w3 Hw3. by rewrite wp_ret.
Qed.
End Loop.

Lemma records_error lines :
  forall r e, (csv.records r lines).2 = Some e -> e = CsvError.
Proof.
  assert (forall l r e, csv.feed r l = Raise e -> e = CsvError) as Hfeed.
  { induction l as [| c l IH]; intros r e; cbn [csv.feed].
    - unfold csv.parse_process_char.
      destruct (csv.state r); try done.
    - destruct (csv.parse_process_char r (Some c)) as [r' | e'] eqn:E;
        cbn [rbind]; [apply IH |].
      intros [= <-]. revert E. unfold csv.parse_process_char.
      destruct (csv.state r); repeat case_match; congruence. }
  induction lines as [| line rest IH]; intros r e; cbn [csv.records].
  - by destruct (_ || _).
  - destruct (csv.feed r _) as [r' | e'] eqn:E.
    + destruct (csv.is_start_record _).
      * specialize (IH csv.parse_reset e).
        destruct (csv.records csv.parse_reset rest). cbn in *. exact IH.
      * apply IH.
    + cbn. intros [= <-]. by eapply Hfeed.
Qed.

Lemma DictReader_error lines rows e :
  csv.DictReader lines = (rows, Some e) -> e = CsvError.
Proof.
  unfold csv.DictReader, csv.reader.
  pose proof (records_error lines csv.parse_reset e) as H.
  destruct (csv.records csv.parse_reset lines) as [[| f recs] stop];
    intros [= _ ->]; by apply H.
Qed.

(** The [except] block. *)
Lemma import_failed_wp e w (P : Run -> Prop) E :
  P (mkRun (Failed e) (products w) (Some (failed_job e (job w)))
       (trace w ++ [Commit (failed_job e (job w));
                    Publish (failure_snapshot e (failed_job e (job w)));
                    RemoveFile])) ->
  wp (import_failed e)
     (fun o w' => P (mkRun o (products w') (Some (job w')) (trace w'))) E w.
Proof.
  intros H. unfold import_failed.
  rewrite wp_bind, wp_modify_job, wp_bind, wp_modify_job, wp_bind, wp_commit,
    wp_bind, wp_get_job, wp_bind, wp_update_progress, wp_bind, wp_emit, wp_ret.
  cbn [products job trace]. rewrite <- !app_assoc. exact H.
Qed.

Lemma loop_exn_failed cfg table j raw e w :
  loop_exn cfg (Z.of_nat (length (File.lines raw)) - 1)
    (head_events j (Z.of_nat (length (File.lines raw)) - 1)) table e w ->
  wp (import_failed e)
     (fun o w' => run_spec cfg table j (Some raw)
                    (mkRun o (products w') (Some (job w')) (trace w')))
     (fun e w' => run_spec cfg table j (Some raw)
                    (mkRun (Failed e) (products w') (Some (job w')) (trace w')))
     w.
Proof.
  intros (Ht & (body & Htr & Hbody) & Hok & He).
  apply import_failed_wp. rewrite Htr, <- app_assoc.
  by apply run_failed.
Qed.

(** Every run of the task on an existing job is one of the three. *)
Lemma import_csv_task_run cfg table j file :
  run_spec cfg table j file (import_csv_task cfg table (Some j) file).
Proof.
  apply import_csv_task_wp. rewrite wp_try_except. unfold import_body.
  rewrite wp_bind, wp_modify_job, wp_bind, wp_commit, wp_bind,
    wp_update_progress, wp_bind, wp_lift.
  cbn [products job trace app].
  destruct file as [raw |]; cbn [count_csv_rows].
  2:{ apply import_failed_wp. cbn [products job trace app]. apply run_file_missing. }
  set (total := Z.of_nat (length (File.lines raw)) - 1).
  rewrite wp_bind, wp_modify_job, wp_bind, wp_commit, wp_bind, wp_update_progress.
  cbn [products job trace app default]. unfold id.
  destruct (csv.DictReader (File.lines raw)) as [rows stop] eqn:Erows.
  set (w0 := mkWorld table (set_total_rows total (set_status parsing j))
                     (head_events j total)).
  change (wp _ _ _ _) with
    (wp (l <-- process_rows cfg total Loop.init (2 + Z.of_nat 0) rows;;
         (match stop with Some e => raise e | None => ret tt end) >>
         l0 <-- (if csv.nonempty (Loop.batch l) then flush l else ret l);;
         modify_job (store_counters completed l0) >>
         modify_job (set_error_details
                       (if csv.nonempty (Loop.error_details l0)
                        then Some (Loop.error_details l0) else None)) >>
         commit >>
         update_progress (snapshot completed l0 total (100 * 100)) >>
         emit (TriggerWebhooks total (Loop.success_count l0) (Loop.error_count l0)
                 (Loop.created_count l0) (Loop.updated_count l0)) >>
         emit RemoveFile >>
         ret (Completed (Loop.processed_rows l0) (Loop.success_count l0)
                (Loop.error_count l0) (Loop.created_count l0)
                (Loop.updated_count l0)))
       (fun o w => run_spec cfg table j (Some raw)
                     (mkRun o (products w) (Some (job w)) (trace w)))
       (fun e w' => wp (import_failed e)
          (fun o w => run_spec cfg table j (Some raw)
                        (mkRun o (products w) (Some (job w)) (trace w)))
          (fun e w => run_spec cfg table j (Some raw)
                        (mkRun (Failed e) (products w) (Some (job w)) (trace w)))
          w')
       w0).
  rewrite wp_bind.
  assert (Hstart : counters_ok 0 Loop.init
                   /\ world_ok cfg total (head_events j total) table 0 w0).
  { split.
    - unfold counters_ok. by cbn.
    - unfold world_ok. split_and!; [done | | | done].
      + exists []. by rewrite app_nil_r.
      + intros p Hp. lia. }
  pose proof (wp_process_rows cfg total
    (fun k l w => counters_ok k l
                  /\ world_ok cfg total (head_events j total) table k w)
    (loop_exn cfg total (head_events j total) table) rows 0%nat Loop.init w0)
    as Hloop.
  cbn [Nat.add] in Hloop.
  eapply wp_mono; [| | apply Hloop; [| exact Hstart]].
  - (* after the loop *)
    intros l w [Hl Hw]. cbn beta.
    rewrite wp_bind. destruct stop as [e |].
    { rewrite wp_raise. apply loop_exn_failed.
      eapply world_ok_exn; [| exact Hw].
      intros ->. by apply DictReader_error in Erows. }
    rewrite wp_ret, wp_bind.
    assert (wp (if csv.nonempty (Loop.batch l) then flush l else ret l)
              (fun l' w' => counters_ok (length rows) l'
                 /\ world_ok cfg total (head_events j total) table (length rows) w'
                 /\ Loop.batch l' = [])
              (loop_exn cfg total (head_events j total) table) w) as Hflush.
    { destruct (Loop.batch l) eqn:Eb; cbn [csv.nonempty].
      - by rewrite wp_ret.
      - pose proof (flush_wp cfg total (head_events j total) table
                      _ _ l w Hl Hw) as H.
        revert H. unfold flush. rewrite !wp_bind, !wp_upsert.
        destruct (upsert_products _ _) as [[t' [c u]] |]; [| done].
        rewrite !wp_ret. tauto. }
    eapply wp_mono; [| | exact Hflush].
    2:{ intros e w'. apply loop_exn_failed. }
    intros l' w' ((Hk & Hsum & Hbatch & Hcan) & (Ht & (body & Htr & Hbody) & Hb & Hok) & Hempty).
    cbn beta.
    rewrite wp_bind, wp_modify_job, wp_bind, wp_modify_job, wp_bind, wp_commit,
      wp_bind, wp_update_progress, wp_bind, wp_emit, wp_bind, wp_emit, wp_ret.
    cbn [products job trace]. rewrite Htr, <- !app_assoc.
    rewrite Hempty in Hbatch. cbn in Hbatch.
    apply (run_completed cfg table j raw rows l' (job w') (products w') body);
      try done; try lia.
    fold total. rewrite Hk, <- Htr. exact Hb.
  - intros e w'. apply loop_exn_failed.
  - (* the body of the loop *)
    intros i row l w Hi HI. apply process_row_wp; [| exact HI].
    destruct (DictReader_length (File.lines raw)) as [H | H];
      rewrite Erows in H; cbn in H.
    + subst rows. done.
    + apply lookup_lt_Some in Hi. unfold total. lia.
Qed.

(** ** Counting rows *)




(** ** Completed jobs *)

(** C1, as amended.  A job that reaches [completed] has run on a file
    that exists, and its persisted counters satisfy
    [success_count + error_count = processed_rows] and
    [created_count + updated_count = success_count].  [total_rows] is
    the number of physical lines minus one and [processed_rows] the
    number of rows the reader yields: [processed_rows <= total_rows]
    when the file has a line, and the two are equal when moreover every
    line of the file is a record line (not blank, without a double
    quote). *)
Theorem completed_job_counters (cfg : Settings) (table : list Product.t)
    (j : ImportJob.t) (file : option string) (j' : ImportJob.t) :
  final_job (import_csv_task cfg table (Some j) file) = Some j' ->
  ImportJob.status j' = completed ->
  exists raw rows,
    file = Some raw
    /\ csv.DictReader (File.lines raw) = (rows, None)
    /\ Commit j' ∈ events (import_csv_task cfg table (Some j) file)
    /\ ImportJob.total_rows j' = Z.of_nat (length (File.lines raw)) - 1
    /\ ImportJob.processed_rows j' = Z.of_nat (length rows)
    /\ ImportJob.success_count j' + ImportJob.error_count j'
       = ImportJob.processed_rows j'
    /\ ImportJob.created_count j' + ImportJob.updated_count j'
       = ImportJob.success_count j'
    /\ (File.lines raw <> [] ->
        ImportJob.processed_rows j' <= ImportJob.total_rows j')
    /\ (File.lines raw <> [] ->
        Forall (fun line => record_line line = true) (File.lines raw) ->
        ImportJob.processed_rows j' = ImportJob.total_rows j').
Proof.
  intros Hj Hst. pose proof (import_csv_task_run cfg table j file) as Hrun.
  destruct Hrun as [| raw e jw table' body total jf Ht Hbody Hok He
                    | raw rows l jw table' body total jf Hrows Ht Hp Hsum Hcu
                        Hbody Hb Hok];
    cbn [final_job] in Hj; injection Hj as <-; try done.
  exists raw, rows. cbn [events]. split_and!; try done.
  - rewrite !elem_of_app. right; right. apply list_elem_of_here.
  - cbn. intros Hne.
    destruct (DictReader_length (File.lines raw)) as [H | H];
      rewrite Hrows in H; cbn in H.
    + rewrite Hp, Ht, H. unfold total.
      destruct (File.lines raw); [done |]. cbn [length]. lia.
    + rewrite Hp, Ht. unfold total. lia.
  - cbn. intros Hne Hall.
    destruct (DictReader_record_lines _ Hne Hall) as (rows' & Hrows' & Hlen).
    rewrite Hrows in Hrows'. injection Hrows' as <-.
    rewrite Hp, Ht. unfold total. lia.
Qed.

Lemma completed_job_counters_witness :
  exists raw rows,
    Some three_rows = Some raw
    /\ csv.DictReader (File.lines raw) = (rows, None)
    /\ Commit (ImportJob.mk completed 3 3 2 1 2 0
                 (Some [RowError 3 ["Name is required"] (Some "b2")]))
       ∈ events (import_csv_task settings [] (Some ImportJob.new) (Some three_rows))
    /\ 3 = Z.of_nat (length (File.lines raw)) - 1
    /\ 3 = Z.of_nat (length rows)
    /\ 2 + 1 = 3
    /\ 2 + 0 = 2
    /\ (File.lines raw <> [] -> 3 <= 3)
    /\ (File.lines raw <> [] ->
        Forall (fun line => record_line line = true) (File.lines raw) ->
        3 = 3).
Proof.
  apply (completed_job_counters settings [] ImportJob.new (Some three_rows)
           (ImportJob.mk completed 3 3 2 1 2 0
              (Some [RowError 3 ["Name is required"] (Some "b2")])));
    vm_compute; reflexivity.
Defined.

(** C1, as stated, fails: the run on a file with one data row and a
    blank line after it completes with [processed_rows = 1] and
    [total_rows = 2]. *)
Lemma completed_job_rows_differ :
  ~ (forall cfg table j file j',
       final_job (import_csv_task cfg table (Some j) file) = Some j' ->
       ImportJob.status j' = completed ->
       ImportJob.success_count j' + ImportJob.error_count j'
       = ImportJob.processed_rows j'
       /\ ImportJob.processed_rows j' = ImportJob.total_rows j'
       /\ ImportJob.created_count j' + ImportJob.updated_count j'
          = ImportJob.success_count j').
Proof.
  intros H.
  specialize (H settings [] ImportJob.new (Some blank_line_file)
                (ImportJob.mk completed 2 1 1 0 1 0 None) eq_refl eq_refl).
  cbn in H. lia.
Qed.

(** ** Traces *)


Lemma publishes_app tr1 tr2 :
  publishes (tr1 ++ tr2) = publishes tr1 ++ publishes tr2.
Proof. apply omap_app. Qed.






(** ** Progress snapshots *)




(** ** The life cycle of a job *)





(** ** Stored SKUs *)









(** ** Upserting a SKU twice *)


Lemma upsert_row_keeps table d p :
  p ∈ table -> Product.sku p <> ProductData.sku d -> p ∈ upsert_row table d.
Proof.
  intros Hin Hne. unfold upsert_row. destruct (existsb _ table).
  - apply list_elem_of_fmap. exists p. split; [| done].
    unfold has_sku. by rewrite bool_decide_eq_false_2.
  - apply elem_of_app. by left.
Qed.

Lemma fold_upsert_row_keeps values :
  forall table p,
    p ∈ table ->
    Forall (fun d => Product.sku p <> ProductData.sku d) values ->
    p ∈ fold_left upsert_row values table.
Proof.
  induction values as [| d rest IH]; intros table p Hin Hne; [done |].
  apply Forall_cons in Hne as [Hd Hrest].
  cbn. apply IH; [| done]. by apply upsert_row_keeps.
Qed.



(** The counters of [upsert_products] on records with canonical SKUs:
    the records whose SKU is not in the table, and those whose SKU is. *)
Lemma count_created_updated_spec table (products : list ProductData.t) :
  Forall (fun d => canonical (ProductData.sku d)) products ->
  count_created_updated
    (filter (fun s => Py.upper s ∈ map ProductData.sku products)
            (map Product.sku table)) products
  = (count_new table products, count_stored table products).
Proof.
  intros Hcan.
  set (existing := filter (fun s => Py.upper s ∈ map ProductData.sku products)
                          (map Product.sku table)).
  assert (Hex : Forall (fun d => ProductData.sku d ∈ existing
                                 <-> ProductData.sku d ∈ map Product.sku table)
                       products).
  { apply Forall_forall. intros d Hd. unfold existing.
    rewrite list_elem_of_filter. split; [tauto |]. intros H. split; [| done].
    rewrite Forall_forall in Hcan. rewrite (Hcan d Hd).
    apply list_elem_of_fmap. by exists d. }
  clearbody existing. clear Hcan.
  unfold count_created_updated, count_new, count_stored.
  assert (forall cu : Z * Z,
    fold_left
      (fun (cu : Z * Z) product_data =>
         if bool_decide (ProductData.sku product_data ∈ existing)
         then (cu.1, cu.2 + 1) else (cu.1 + 1, cu.2)) products cu
    = (cu.1 + Z.of_nat (length (filter
         (fun d => ProductData.sku d ∉ map Product.sku table) products)),
       cu.2 + Z.of_nat (length (filter
         (fun d => ProductData.sku d ∈ map Product.sku table) products)))) as H.
  { induction Hex as [| d rest Hd _ IH]; intros [c u].
    - cbn. f_equal; lia.
    - cbn [fold_left]. rewrite IH. rewrite !filter_cons.
      destruct (decide (ProductData.sku d ∈ map Product.sku table)) as [Hin | Hout].
      + rewrite bool_decide_eq_true_2 by tauto.
        rewrite decide_False by tauto. cbn. f_equal; lia.
      + rewrite bool_decide_eq_false_2 by tauto.
        rewrite decide_True by done. cbn. f_equal; lia. }
  rewrite H. cbn. f_equal.
Qed.





(** ** The webhook dispatcher *)

Lemma retries_exceeded (retries : Z) :
  (retries + 1 >? max_retries) = negb (retries <? 3).
Proof.
  unfold max_retries.
  destruct (retries + 1 >? 3) eqn:E1, (retries <? 3) eqn:E2; cbn; try done; lia.
Qed.

Section DispatcherProperties.

Variable Payload : Type.
Variable json_dumps : string -> string -> Payload -> string.

(** C7.  The request of a delivery carries no [X-Webhook-Signature]
    header when the webhook has no secret (none, or the empty one),
    and otherwise the header [sha256=<hex>] where [<hex>] is the
    HMAC-SHA256, keyed by the secret, of the body of the request,
    which is the serialized envelope; the request so built is the
    one the dispatcher posts.  The signature is a function of the
    payload string and the secret, and it agrees with the reference
    values: that of Python's [hmac] for the secret [x] and the
    payload [y], and test case 2 of RFC 4231. *)
Theorem signature_header (webhook : Webhook.t) (retries : Z)
    (event_type : string) (payload : Payload) (now1 now2 now3 : string)
    (post : Request -> HttpOutcome) :
  let req := build_request Payload json_dumps webhook event_type payload now1 now2 in
  headers req !! "X-Webhook-Signature"
  = match Webhook.secret webhook with
    | Some secret =>
        if Py.truthy secret
        then Some ("sha256="
                   +:+ SHA256.hex (SHA256.hmac (SHA256.encode secret)
                                               (SHA256.encode (content req))))
        else None
    | None => None
    end
  /\ content req = json_dumps event_type now1 payload
  /\ request (send_webhook Payload json_dumps (Some webhook) retries event_type
                payload now1 now2 now3 post)
     = (if Webhook.is_enabled webhook then Some req else None)
  /\ generate_signature "y" "x"
     = "1b56188fbdc65a885923886c8b7271332149050589d91803364521080cd0792d"
  /\ generate_signature "what do ya want for nothing?" "Jefe"
     = "5bdcc146bf60754e6a042426089575c75a003f089d2739839dec58b964ec3843".
Proof.
  cbv zeta. split_and!.
  - unfold build_request. cbn [headers content].
    destruct (Webhook.secret webhook) as [secret |]; [| done].
    destruct (Py.truthy secret); [by rewrite lookup_insert_eq | done].
  - reflexivity.
  - unfold send_webhook. destruct (Webhook.is_enabled webhook); [| done].
    cbn [negb]. destruct (post _) as [code ms | | |]; try done.
    destruct (code >=? 400); [| done]. by destruct (code >=? 500).
  - vm_compute. reflexivity.
  - vm_compute. reflexivity.
Qed.

(** C8.  After a run of the dispatcher the failure count of the
    webhook is 0 when the target answered with a code below 400, one
    more than before when it answered with a code of 400 or more,
    when the request timed out and when it failed with a network
    error, and unchanged otherwise: when the webhook is disabled or
    the request ends with another exception.  Without a row for the
    webhook nothing is committed. *)
Theorem failure_count_after_attempt (webhook : Webhook.t) (retries : Z)
    (event_type : string) (payload : Payload) (now1 now2 now3 : string)
    (post : Request -> HttpOutcome) :
  Webhook.failure_count
    <$> committed (send_webhook Payload json_dumps (Some webhook) retries
                     event_type payload now1 now2 now3 post)
  = Some
      (if Webhook.is_enabled webhook then
         match post (build_request Payload json_dumps webhook event_type
                       payload now1 now2) with
         | Responded status_code _ =>
             if status_code <? 400 then 0
             else Webhook.failure_count webhook + 1
         | TimeoutException | RequestError =>
             Webhook.failure_count webhook + 1
         | OtherException => Webhook.failure_count webhook
         end
       else Webhook.failure_count webhook)
  /\ committed (send_webhook Payload json_dumps None retries event_type
                  payload now1 now2 now3 post) = None.
Proof.
  split; [| reflexivity].
  unfold send_webhook. destruct (Webhook.is_enabled webhook); [| done].
  cbn [negb]. destruct (post _) as [code ms | | |]; try done.
  destruct (code >=? 400) eqn:E4.
  - assert ((code <? 400) = false) as -> by lia.
    by destruct (code >=? 500).
  - assert ((code <? 400) = true) as -> by lia. done.
Qed.

(** C4, as amended.  A run of the dispatcher on an enabled webhook
    asks for a retry, [60 * (retries + 1)] seconds later, when the
    target answers with a code of 500 or more, when the request times
    out and when it fails with a network error, as long as the run is
    not itself the third retry; the third retry gives up with the
    error instead.  A delivery is therefore run at most four times:
    against a target that answers 503 every time, three runs leave a
    fourth one queued, after delays of 60, 120 and 180 seconds, and
    the fourth run ends the delivery with the error.  A code from 400
    to 499 makes the run return without a retry. *)
Theorem retry_with_backoff (webhook : Webhook.t) (retries : Z)
    (event_type : string) (payload : Payload) (now1 now2 now3 : string)
    (post : Request -> HttpOutcome) (ms : Z) :
  Webhook.is_enabled webhook = true ->
  result_ (send_webhook Payload json_dumps (Some webhook) retries event_type
             payload now1 now2 now3 post)
  = match post (build_request Payload json_dumps webhook event_type payload
                  now1 now2) with
    | Responded status_code response_time_ms =>
        if status_code >=? 500 then
          if retries <? 3 then Retry (60 * (retries + 1))
          else Raised (ServerError status_code)
        else Return_sent (status_code <? 400) status_code response_time_ms
    | TimeoutException =>
        if retries <? 3 then Retry (60 * (retries + 1)) else Raised TimedOut
    | RequestError =>
        if retries <? 3 then Retry (60 * (retries + 1))
        else Raised TransportError
    | OtherException => Raised Unhandled
    end
  /\ (let d := deliver Payload json_dumps (Some webhook) 0 event_type payload now1
                 (replicate 3 (Responded 503 ms)) in
      attempts d = 3%nat /\ delays d = [60; 120; 180] /\ final d = None)
  /\ (let d := deliver Payload json_dumps (Some webhook) 0 event_type payload now1
                 (replicate 4 (Responded 503 ms)) in
      attempts d = 4%nat /\ delays d = [60; 120; 180]
      /\ final d = Some (Raised (ServerError 503))).
Proof.
  intros Henabled. split_and!.
  - unfold send_webhook, Task_retry. rewrite Henabled. cbn [negb].
    rewrite retries_exceeded.
    destruct (post _) as [code ms' | | |]; cbn [result_]; try done.
    + destruct (code >=? 400) eqn:E4.
      * destruct (code >=? 500); [| done]. cbn [result_].
        by destruct (retries <? 3).
      * assert ((code >=? 500) = false) as -> by lia. done.
    + by destruct (retries <? 3).
    + by destruct (retries <? 3).
  - cbn [replicate deliver]. unfold send_webhook. rewrite Henabled.
    cbn -[build_request]. rewrite Henabled. cbn -[build_request].
    rewrite Henabled. cbn -[build_request]. done.
  - cbn [replicate deliver]. unfold send_webhook. rewrite Henabled.
    cbn -[build_request]. rewrite Henabled. cbn -[build_request].
    rewrite Henabled. cbn -[build_request]. rewrite Henabled.
    cbn -[build_request]. done.
Qed.

End DispatcherProperties.

Lemma retry_with_backoff_witness :
  result_ (send_webhook unit (fun _ _ _ => "{}")
             (Some (Webhook.mk 1 "http://target" "import.completed" true None
                               None None None 0))
             0 "import.completed" tt "t1" "t2" "t3"
             (fun _ => Responded 503 7))
  = Retry 60.
Proof.
  pose proof (retry_with_backoff unit (fun _ _ _ => "{}")
                (Webhook.mk 1 "http://target" "import.completed" true None
                            None None None 0)
                0 "import.completed" tt "t1" "t2" "t3"
                (fun _ => Responded 503 7) 7 eq_refl) as [H _].
  exact H.
Defined.

(** C4, as stated, fails: after the target has answered 503 three
    consecutive times the delivery is not exhausted; the dispatcher has
    asked for a third retry, and the fourth run, answered with 200,
    ends the delivery with a success. *)
Lemma three_failures_not_exhausted :
  let webhook := Webhook.mk 1 "http://target" "import.completed" true None
                            None None None 0 in
  let dispatch := deliver unit (fun _ _ _ => "{}") (Some webhook) 0
                          "import.completed" tt "t" in
  final (dispatch [Responded 503 7; Responded 503 7; Responded 503 7]) = None
  /\ delays (dispatch [Responded 503 7; Responded 503 7; Responded 503 7])
     = [60; 120; 180]
  /\ attempts (dispatch [Responded 503 7; Responded 503 7; Responded 503 7;
                         Responded 200 7]) = 4%nat
  /\ final (dispatch [Responded 503 7; Responded 503 7; Responded 503 7;
                      Responded 200 7])
     = Some (Return_sent true 200 7).
Proof. vm_compute. repeat split. Qed.

(** * Further properties *)

(** ** The row validator *)

Lemma parse_csv_row_fields (row : Row) (row_num : Z) :
  parse_csv_row row row_num =
  (sku <-! get_strip row "sku";;
   name <-! get_strip row "name";;
   description <-! get_strip row "description";;
   price_str <-! get_strip row "price";;
   quantity_str <-! get_strip row "quantity";;
   Ok (validate_fields sku name description price_str quantity_str row_num)).
Proof.
  unfold parse_csv_row, validate_fields.
  destruct (get_strip row "sku") as [sku |]; [| done].
  destruct (get_strip row "name") as [name |]; [| done].
  destruct (get_strip row "description") as [description |]; [| done].
  destruct (get_strip row "price") as [price_str |]; [| done].
  cbn [rbind].
  destruct (if Py.truthy price_str then _ else _) as [price errors].
  destruct (get_strip row "quantity") as [quantity_str |]; [| done].
  cbn [rbind].
  destruct (if Py.truthy quantity_str then _ else _) as [quantity [| e errors']];
    reflexivity.
Qed.

Lemma get_strip_ok_or_none (row : Row) (key : string) :
  (exists s, get_strip row key = Ok s /\ row !! key <> Some None)
  \/ (get_strip row key = Raise AttributeError /\ row !! key = Some None).
Proof.
  unfold get_strip. destruct (row !! key) as [[v |] |]; eauto.
Qed.

Lemma truthy_upper (s : string) : Py.truthy s = true -> Py.upper s <> EmptyString.
Proof. by destruct s. Qed.

Lemma truthy_nonempty (s : string) : Py.truthy s = true -> s <> EmptyString.
Proof. by destruct s. Qed.

Lemma validate_fields_valid sku name description price_str quantity_str row_num d :
  validate_fields sku name description price_str quantity_str row_num = Valid d ->
  ProductData.sku d = Py.upper sku /\ sku <> EmptyString
  /\ ProductData.name d = name /\ name <> EmptyString
  /\ ProductData.description d <> Some EmptyString
  /\ (forall p, ProductData.price d = Some p -> Decimal.lt_zero p = Some false)
  /\ 0 <= ProductData.quantity d
  /\ ProductData.is_active d = true.
Proof.
  unfold validate_fields, append_if.
  destruct (Py.truthy sku) eqn:Es, (Py.truthy name) eqn:En; cbn [negb app];
    destruct (Py.truthy description) eqn:Ed, (Py.truthy price_str),
      (Py.truthy quantity_str);
    repeat match goal with
    | |- context [Decimal.of_string ?s] => destruct (Decimal.of_string s) as [p0 |]
    | |- context [Decimal.lt_zero ?d] =>
        let E := fresh "Elt" in destruct (Decimal.lt_zero d) as [[] |] eqn:E
    | |- context [Py.int ?s] => destruct (Py.int s) as [q |]
    | |- context [?q <? 0] => let E := fresh "Eq" in destruct (q <? 0) eqn:E
    end; cbn; try discriminate; intros [= <-]; cbn;
    (split_and!;
     [ reflexivity | by apply truthy_nonempty | reflexivity
     | by apply truthy_nonempty
     | try discriminate; intros [= ->]; discriminate
     | intros p; try discriminate; intros [= <-]; assumption
     | lia | reflexivity ]).
Qed.

(** X1.  A valid record meets the constraints of a product: its SKU
    is not empty and is in upper case, its name is not empty, its
    description is absent or not empty, its price is absent or a
    decimal that is not negative (and not a NaN), its quantity is not
    negative, and it is active. *)
Theorem valid_record_constraints (row : Row) (row_num : Z) (d : ProductData.t) :
  parse_csv_row row row_num = Ok (Valid d) ->
  ProductData.sku d <> EmptyString
  /\ Py.upper (ProductData.sku d) = ProductData.sku d
  /\ ProductData.name d <> EmptyString
  /\ ProductData.description d <> Some EmptyString
  /\ (forall p, ProductData.price d = Some p -> Decimal.lt_zero p = Some false)
  /\ 0 <= ProductData.quantity d
  /\ ProductData.is_active d = true.
Proof.
  intros H. pose proof (parse_csv_row_canonical _ _ _ H) as Hcan.
  rewrite parse_csv_row_fields in H.
  destruct (get_strip row "sku") as [sku |]; [| done].
  destruct (get_strip row "name") as [name |]; [| done].
  destruct (get_strip row "description") as [description |]; [| done].
  destruct (get_strip row "price") as [price_str |]; [| done].
  destruct (get_strip row "quantity") as [quantity_str |]; [| done].
  cbn [rbind] in H. injection H as H.
  apply validate_fields_valid in H
    as (Hs & Hs' & Hn & Hn' & Hd & Hp & Hq & Ha).
  split_and!; try done.
  - rewrite Hs. destruct sku; [done | by cbn].
  - by rewrite Hn.
Qed.

Lemma valid_record_constraints_witness :
  "AB-1"%string <> EmptyString
  /\ Py.upper "AB-1" = "AB-1"
  /\ "Widget"%string <> EmptyString
  /\ (None : option string) <> Some EmptyString
  /\ (forall p, Some (Decimal.Finite false 35 (-1)) = Some p ->
      Decimal.lt_zero p = Some false)
  /\ 0 <= 7
  /\ true = true.
Proof.
  apply (valid_record_constraints
           (typed_row (<["quantity" := "7"]> (<["price" := "3.5"]>
              (<["name" := "Widget"]> (<["sku" := " ab-1 "]> ∅))))) 2
           (ProductData.mk "AB-1" "Widget" None
              (Some (Decimal.Finite false 35 (-1))) 7 true)).
  vm_compute. reflexivity.
Defined.

Lemma validate_fields_invalid sku name description price_str quantity_str row_num
    errors r :
  validate_fields sku name description price_str quantity_str row_num
  = Invalid errors r ->
  r = row_num /\ errors <> [] /\ (length errors <= 4)%nat.
Proof.
  unfold validate_fields, append_if.
  destruct (Py.truthy sku), (Py.truthy name); cbn [negb app];
    destruct (Py.truthy price_str), (Py.truthy quantity_str);
    repeat match goal with
    | |- context [Decimal.of_string ?s] => destruct (Decimal.of_string s) as [p0 |]
    | |- context [Decimal.lt_zero ?d] => destruct (Decimal.lt_zero d) as [[] |]
    | |- context [Py.int ?s] => destruct (Py.int s) as [q |]
    | |- context [?q <? 0] => destruct (q <? 0)
    end; cbn; try discriminate; intros [= <- <-]; cbn;
    (split_and!; [reflexivity | discriminate | lia]).
Qed.

(** X2.  An invalid result carries the row number the validator was
    given and at least one error message, and at most four: one for
    each of the fields [sku], [name], [price] and [quantity]. *)
Theorem invalid_result_shape (row : Row) (row_num : Z)
    (errors : list string) (r : Z) :
  parse_csv_row row row_num = Ok (Invalid errors r) ->
  r = row_num /\ errors <> [] /\ (length errors <= 4)%nat.
Proof.
  rewrite parse_csv_row_fields.
  destruct (get_strip row "sku") as [sku |]; [| done].
  destruct (get_strip row "name") as [name |]; [| done].
  destruct (get_strip row "description") as [description |]; [| done].
  destruct (get_strip row "price") as [price_str |]; [| done].
  destruct (get_strip row "quantity") as [quantity_str |]; [| done].
  cbn [rbind]. intros [= H]. by apply validate_fields_invalid in H.
Qed.

Lemma invalid_result_shape_witness :
  3 = 3
  /\ ["Name is required"; "Price cannot be negative"] <> []
  /\ (length ["Name is required"; "Price cannot be negative"] <= 4)%nat.
Proof.
  apply (invalid_result_shape
           (typed_row (<["price" := "-5"]> (<["sku" := "b2"]> ∅))) 3).
  vm_compute. reflexivity.
Defined.

(** X3.  The validator reads the columns [sku], [name], [description],
    [price] and [quantity] only: two rows that agree on them get the
    same result, whatever their other columns. *)
Theorem unknown_columns_ignored (row1 row2 : Row) (row_num : Z) :
  (forall key, key ∈ read_columns -> row1 !! key = row2 !! key) ->
  parse_csv_row row1 row_num = parse_csv_row row2 row_num.
Proof.
  intros H. rewrite !parse_csv_row_fields. unfold get_strip.
  rewrite !H; [reflexivity | | | | |]; unfold read_columns;
    repeat first [apply list_elem_of_here | apply list_elem_of_further].
Qed.

Lemma unknown_columns_ignored_witness :
  parse_csv_row (typed_row (<["colour" := "red"]> (<["name" := "Widget"]>
                   (<["sku" := "a1"]> ∅)))) 2
  = parse_csv_row (typed_row (<["name" := "Widget"]> (<["sku" := "a1"]> ∅))) 2.
Proof.
  apply unknown_columns_ignored. intros key Hkey.
  unfold read_columns in Hkey. rewrite !elem_of_cons in Hkey.
  destruct Hkey as [-> | [-> | [-> | [-> | [-> | Hkey]]]]];
    [reflexivity .. | by apply elem_of_nil in Hkey].
Defined.

(** X4.  The validator raises exactly when one of the five columns it
    reads is mapped to [None] in the row, as the reader leaves the
    columns of the header that a record is too short for; the error is
    then the [AttributeError] of calling [strip] on [None]. *)
Theorem parse_csv_row_raises_iff (row : Row) (row_num : Z) :
  (parse_csv_row row row_num = Raise AttributeError
   <-> Exists (fun key => row !! key = Some None) read_columns)
  /\ ((exists parsed, parse_csv_row row row_num = Ok parsed)
      <-> Forall (fun key => row !! key <> Some None) read_columns).
Proof.
  rewrite parse_csv_row_fields. unfold read_columns.
  rewrite !Exists_cons, Exists_nil, !Forall_cons, Forall_nil.
  destruct (get_strip_ok_or_none row "sku") as [(s1 & -> & H1) | [-> H1]];
    cbn [rbind]; [| split; split; [tauto | done | by intros [? ?] | tauto]].
  destruct (get_strip_ok_or_none row "name") as [(s2 & -> & H2) | [-> H2]];
    cbn [rbind]; [| split; split; [tauto | done | by intros [? ?] | tauto]].
  destruct (get_strip_ok_or_none row "description") as [(s3 & -> & H3) | [-> H3]];
    cbn [rbind]; [| split; split; [tauto | done | by intros [? ?] | tauto]].
  destruct (get_strip_ok_or_none row "price") as [(s4 & -> & H4) | [-> H4]];
    cbn [rbind]; [| split; split; [tauto | done | by intros [? ?] | tauto]].
  destruct (get_strip_ok_or_none row "quantity") as [(s5 & -> & H5) | [-> H5]];
    cbn [rbind]; [| split; split; [tauto | done | by intros [? ?] | tauto]].
  split; split; [done | tauto | tauto | eauto].
Qed.

(** ** The upsert engine *)


Lemma upsert_products_ok_NoDup table batch r :
  upsert_products table batch = Ok r -> NoDup (map ProductData.sku batch).
Proof.
  unfold upsert_products. destruct batch as [| d rest].
  - intros _. apply NoDup_nil_2.
  - destruct (insert_on_conflict_do_update [] table (d :: rest)) eqn:E;
      [| done].
    intros _. by apply insert_on_conflict_do_update_inv in E as [_ ?].
Qed.


Lemma filter_ext_elem {A} (P Q : A -> Prop) `{forall x, Decision (P x)}
    `{forall x, Decision (Q x)} (l : list A) :
  (forall x, x ∈ l -> (P x <-> Q x)) -> filter P l = filter Q l.
Proof.
  induction l as [| a l IH]; intros Hl; [done |].
  rewrite !filter_cons.
  assert (Ha : P a <-> Q a) by (apply Hl; apply list_elem_of_here).
  rewrite IH by (intros x Hx; apply Hl; by apply list_elem_of_further).
  destruct (decide (P a)), (decide (Q a)); tauto.
Qed.

Lemma upsert_row_length table d :
  length (upsert_row table d)
  = (length table
     + (if decide (ProductData.sku d ∈ map Product.sku table) then 0 else 1))%nat.
Proof.
  unfold upsert_row. destruct (existsb _ table) eqn:E.
  - apply existsb_has_sku in E. rewrite decide_True by done.
    rewrite length_map. lia.
  - apply existsb_has_sku_false in E. rewrite decide_False by done.
    rewrite length_app. cbn. lia.
Qed.

(** A batch without a repeated SKU adds one row for each of its SKUs
    that the table does not hold. *)
Lemma fold_upsert_row_length batch :
  forall table,
    NoDup (map ProductData.sku batch) ->
    length (fold_left upsert_row batch table)
    = (length table
       + length (filter (fun d => ProductData.sku d ∉ map Product.sku table)
                        batch))%nat.
Proof.
  induction batch as [| d rest IH]; intros table Hnd; [cbn; lia |].
  cbn in Hnd. apply NoDup_cons in Hnd as [Hd Hnd].
  cbn [fold_left]. rewrite IH by done. rewrite upsert_row_length, filter_cons.
  rewrite (filter_ext_elem
             (fun d0 => ProductData.sku d0 ∉ map Product.sku (upsert_row table d))
             (fun d0 => ProductData.sku d0 ∉ map Product.sku table) rest).
  - destruct (decide (ProductData.sku d ∈ map Product.sku table)) as [Hin | Hout].
    + rewrite decide_False by tauto. lia.
    + rewrite decide_True by done. cbn [length]. lia.
  - intros d' Hd'. rewrite map_sku_upsert_row.
    destruct (existsb _ table); [done |].
    rewrite not_elem_of_app, list_elem_of_singleton. split; [tauto |].
    intros Hout. split; [done |]. intros Heq. apply Hd.
    apply list_elem_of_fmap. exists d'. by rewrite Heq.
Qed.

Lemma upsert_row_identity table d :
  map identity table `prefix_of` map identity (upsert_row table d).
Proof.
  unfold upsert_row. destruct (existsb _ table).
  - rewrite map_map.
    assert (H : forall p,
      identity (if has_sku (ProductData.sku d) p then conflict_update d p else p)
      = identity p) by (intros p; by destruct (has_sku _ p)).
    by rewrite (map_ext _ _ H).
  - rewrite map_app. by apply prefix_app_r.
Qed.

Lemma fold_upsert_row_identity batch :
  forall table,
    map identity table `prefix_of` map identity (fold_left upsert_row batch table).
Proof.
  induction batch as [| d rest IH]; intros table; [done |].
  cbn. etrans; [apply upsert_row_identity | apply IH].
Qed.

(** What a call of the upsert engine that returns leaves in place. *)
Lemma upsert_products_grows (table table' : list Product.t)
    (batch : list ProductData.t) (created updated : Z) :
  upsert_products table batch = Ok (table', (created, updated)) ->
  map identity table `prefix_of` map identity table'
  /\ created + updated = Z.of_nat (length batch)
  /\ (Forall (fun d => canonical (ProductData.sku d)) batch ->
      Z.of_nat (length table') = Z.of_nat (length table) + created).
Proof.
  intros E. pose proof (upsert_products_inv _ _ _ _ _ E) as [Hsum Ht].
  split_and!; [rewrite Ht; apply fold_upsert_row_identity | done |].
  intros Hcan. revert E. unfold upsert_products.
  destruct batch as [| d rest].
  { intros [= ? ? ?]. subst. cbn. lia. }
  destruct (insert_on_conflict_do_update [] table (d :: rest)) as [t |] eqn:Ei;
    [| done].
  cbn [rbind]. rewrite count_created_updated_spec by done.
  intros [= ? ? ?]. subst created.
  apply insert_on_conflict_do_update_inv in Ei as [_ Hnd].
  rewrite Ht, fold_upsert_row_length by done. unfold count_new. lia.
Qed.

(** X6.  A call of the upsert engine that returns leaves the rows of
    the table in place with their id, SKU and active flag, and appends
    the new rows after them; its counters add up to the size of the
    batch.  When the records have canonical SKUs, as those of the
    validator have, the table has grown by [created_count] rows. *)
Theorem upsert_products_keeps_rows (table table' : list Product.t)
    (batch : list ProductData.t) (created updated : Z) :
  upsert_products table batch = Ok (table', (created, updated)) ->
  map identity table `prefix_of` map identity table'
  /\ created + updated = Z.of_nat (length batch)
  /\ (Forall (fun d => canonical (ProductData.sku d)) batch ->
      Z.of_nat (length table') = Z.of_nat (length table) + created).
Proof. apply upsert_products_grows. Qed.

Lemma upsert_products_keeps_rows_witness :
  exists table',
    upsert_products
      [Product.mk 7 "A1" "old" None None (Some 1) false]
      [ProductData.mk "A1" "new" None None 5 true;
       ProductData.mk "B2" "other" None None 2 true]
    = Ok (table', (1, 1))
    /\ map identity [Product.mk 7 "A1" "old" None None (Some 1) false]
       `prefix_of` map identity table'
    /\ Z.of_nat (length table') = 1 + 1.
Proof.
  eexists. split; [vm_compute; reflexivity |].
  pose proof (upsert_products_keeps_rows
    [Product.mk 7 "A1" "old" None None (Some 1) false] _
    [ProductData.mk "A1" "new" None None 5 true;
     ProductData.mk "B2" "other" None None 2 true] 1 1 eq_refl)
    as (H1 & _ & H3).
  split; [exact H1 |]. apply H3. repeat constructor.
Defined.







(** ** The import task, relationally *)

Lemma flush_effect_wp l w (Q : Loop.t -> World -> Prop) (E : exn -> World -> Prop) :
  (forall l' w', flush_effect l w l' w' -> Q l' w') ->
  (forall e, E e w) ->
  wp (flush l) Q E w.
Proof.
  intros HQ HE. unfold flush. rewrite wp_bind, wp_upsert.
  destruct (upsert_products _ _) as [[table [c u]] | e] eqn:Eu; [| apply HE].
  rewrite wp_ret. apply HQ. exists table, c, u. by split_and!.
Qed.

Lemma process_row_effect cfg total l row_num row w :
  wp (process_row cfg total l row_num row)
     (fun l' w' => step_effect cfg total l row_num row w l' w')
     (fun _ w' => step_raise cfg total l row_num row w w') w.
Proof.
  unfold process_row. rewrite wp_bind, wp_lift.
  destruct (parse_csv_row row row_num) as [parsed | e] eqn:Ep; [| by left].
  set (l1 := account l row_num row parsed).
  rewrite wp_bind.
  assert (Hchunk :
    wp (if Z.of_nat (length (Loop.batch l1)) >=? CHUNK_SIZE cfg
        then flush l1 else ret l1)
       (fun l2 w2 => chunk_effect cfg l1 w l2 w2)
       (fun _ w' => w' = w) w).
  { destruct (_ >=? _) eqn:Ec.
    - apply flush_effect_wp; [| done].
      intros l2 w2 H. right. split; [lia | done].
    - rewrite wp_ret. left. split; [lia | done]. }
  eapply wp_mono; [| | exact Hchunk]; cbn beta.
  2:{ intros _ w' ->. by left. }
  intros l2 w2 Hc. rewrite wp_bind. unfold periodic_update.
  destruct (PROGRESS_UPDATE_INTERVAL cfg =? 0) eqn:EI.
  { rewrite wp_raise. right. exists parsed, l2, w2. split_and!; auto. }
  apply Z.eqb_neq in EI.
  destruct (Loop.processed_rows l2 mod PROGRESS_UPDATE_INTERVAL cfg =? 0) eqn:Em.
  - apply Z.eqb_eq in Em.
    rewrite wp_bind, wp_modify_job, wp_bind, wp_commit.
    destruct (total =? 0) eqn:Et.
    + rewrite wp_raise. right. exists parsed, l2, w2. split_and!; auto.
    + apply Z.eqb_neq in Et. rewrite wp_update_progress, wp_ret.
      exists parsed, w2. split_and!; try done.
      split; [done |]. right. split_and!; try done.
      cbn [products job trace]. by rewrite <- app_assoc.
  - apply Z.eqb_neq in Em. rewrite !wp_ret.
    exists parsed, w2. split_and!; try done. split; [done |]. by left.
Qed.

(** An invariant of the turns of the loop holds after the loop, and
    what holds where a turn raises holds when the loop raises. *)
Lemma process_rows_invariant cfg total (I : nat -> Loop.t -> World -> Prop)
    (E : World -> Prop) rows l0 w0 :
  I 0%nat l0 w0 ->
  (forall i row l w l' w',
     rows !! i = Some row -> I i l w ->
     step_effect cfg total l (2 + Z.of_nat i) row w l' w' -> I (S i) l' w') ->
  (forall i row l w w',
     rows !! i = Some row -> I i l w ->
     step_raise cfg total l (2 + Z.of_nat i) row w w' -> E w') ->
  wp (process_rows cfg total l0 2 rows) (I (length rows)) (fun _ w => E w) w0.
Proof.
  intros H0 Hstep Hraise.
  apply (wp_process_rows cfg total I (fun _ w => E w) rows 0%nat l0 w0); [| done].
  intros i row l w Hi HI. cbn [Nat.add].
  eapply wp_mono; [| | apply process_row_effect]; cbn beta.
  - intros l' w' H. by eapply Hstep.
  - intros _ w' H. by eapply Hraise.
Qed.

(** A property of the runs on an existing file, from an invariant of
    the loop. *)
Lemma import_run_rule cfg table j raw (I : nat -> Loop.t -> World -> Prop)
    (E : World -> Prop) (P : Run -> Prop) :
  let total := Z.of_nat (length (File.lines raw)) - 1 in
  let rows := (csv.DictReader (File.lines raw)).1 in
  I 0%nat Loop.init (loop_start table j total) ->
  (forall i row l w l' w',
     rows !! i = Some row -> I i l w ->
     step_effect cfg total l (2 + Z.of_nat i) row w l' w' -> I (S i) l' w') ->
  (forall i row l w w',
     rows !! i = Some row -> I i l w ->
     step_raise cfg total l (2 + Z.of_nat i) row w w' -> E w') ->
  (forall l w, I (length rows) l w -> E w) ->
  (forall l w l' w',
     I (length rows) l w -> (csv.DictReader (File.lines raw)).2 = None ->
     final_flush l w l' w' -> P (completed_run total l' w')) ->
  (forall e w, E w -> P (failed_run e w)) ->
  P (import_csv_task cfg table (Some j) (Some raw)).
Proof.
  intros total rows H0 Hstep Hraise HIE Hdone Hfail.
  apply import_csv_task_wp. rewrite wp_try_except. unfold import_body.
  rewrite wp_bind, wp_modify_job, wp_bind, wp_commit, wp_bind,
    wp_update_progress, wp_bind, wp_lift.
  cbn [products job trace app count_csv_rows].
  fold total.
  rewrite wp_bind, wp_modify_job, wp_bind, wp_commit, wp_bind, wp_update_progress.
  cbn [products job trace app default]. unfold id.
  subst rows. destruct (csv.DictReader (File.lines raw)) as [rows stop] eqn:Erows.
  cbn [fst snd] in *.
  rewrite wp_bind.
  assert (Hfailed : forall e w,
    E w ->
    wp (import_failed e)
       (fun o w' => P (mkRun o (products w') (Some (job w')) (trace w')))
       (fun e' w' => P (mkRun (Failed e') (products w') (Some (job w')) (trace w')))
       w).
  { intros e w HE. apply import_failed_wp. by apply Hfail. }
  eapply wp_mono;
    [| | apply (process_rows_invariant cfg total I E rows Loop.init
                  (loop_start table j total) H0 Hstep Hraise)];
    cbn beta.
  2:{ intros e w HE. by apply Hfailed. }
  intros l w HI. rewrite wp_bind. destruct stop as [e |].
  { rewrite wp_raise. apply Hfailed. by eapply HIE. }
  rewrite wp_ret, wp_bind.
  assert (Hflush :
    wp (if csv.nonempty (Loop.batch l) then flush l else ret l)
       (fun l' w' => final_flush l w l' w') (fun _ w' => w' = w) w).
  { destruct (Loop.batch l) eqn:Eb; cbn [csv.nonempty].
    - rewrite wp_ret. by left.
    - apply flush_effect_wp; [| done]. intros l' w' H. right.
      split; [by rewrite Eb | done]. }
  eapply wp_mono; [| | exact Hflush]; cbn beta.
  2:{ intros e w' ->. apply Hfailed. by eapply HIE. }
  intros l' w' Hf.
  rewrite wp_bind, wp_modify_job, wp_bind, wp_modify_job, wp_bind, wp_commit,
    wp_bind, wp_update_progress, wp_bind, wp_emit, wp_bind, wp_emit, wp_ret.
  cbn [products job trace]. rewrite <- !app_assoc.
  by apply (Hdone l w l' w').
Qed.

Lemma import_csv_task_missing cfg table j :
  import_csv_task cfg table (Some j) None = missing_file_run table j.
Proof. reflexivity. Qed.

Lemma periodic_effect_products cfg total l w w' :
  periodic_effect cfg total l w w' -> products w' = products w.
Proof. intros [_ [[_ ->] | (_ & _ & ->)]]; reflexivity. Qed.

Lemma account_canonical l row_num row parsed :
  parse_csv_row row row_num = Ok parsed ->
  Forall (fun d => canonical (ProductData.sku d)) (Loop.batch l) ->
  Forall (fun d => canonical (ProductData.sku d))
         (Loop.batch (account l row_num row parsed)).
Proof.
  intros Ep Hl. destruct parsed as [d | errors n]; cbn; [| done].
  apply Forall_app. split; [done |]. apply Forall_singleton.
  by eapply parse_csv_row_canonical.
Qed.

Lemma account_created l row_num row parsed :
  Loop.created_count (account l row_num row parsed) = Loop.created_count l.
Proof. by destruct parsed. Qed.

Lemma flush_effect_grows table l w l' w' :
  table_grows table l w -> flush_effect l w l' w' -> table_grows table l' w'.
Proof.
  intros (Hpre & Hlen & Hcan) (t & c & u & Eu & -> & ->).
  apply upsert_products_grows in Eu as (Hp & _ & Hl).
  unfold table_grows. cbn [products Loop.created_count Loop.batch]. split_and!.
  - by etrans.
  - rewrite Hl by done. lia.
  - constructor.
Qed.

Lemma chunk_effect_grows cfg table l w l' w' :
  table_grows table l w -> chunk_effect cfg l w l' w' -> table_grows table l' w'.
Proof.
  intros H [(_ & -> & ->) | [_ Hf]]; [done | by eapply flush_effect_grows].
Qed.

Lemma account_grows table l row_num row parsed w :
  parse_csv_row row row_num = Ok parsed ->
  table_grows table l w -> table_grows table (account l row_num row parsed) w.
Proof.
  intros Ep (Hpre & Hlen & Hcan). split_and!; [done | |].
  - by rewrite account_created.
  - by apply account_canonical.
Qed.

(** The rows of the table through a run. *)
Lemma import_table_grows (cfg : Settings) (table : list Product.t)
    (j : ImportJob.t) (file : option string) :
  let run := import_csv_task cfg table (Some j) file in
  map identity table `prefix_of` map identity (final_products run)
  /\ (forall p s e c u, outcome run = Completed p s e c u ->
        Z.of_nat (length (final_products run)) = Z.of_nat (length table) + c).
Proof.
  destruct file as [raw |]; [| by rewrite import_csv_task_missing].
  cbv zeta.
  apply (import_run_rule cfg table j raw (fun _ => table_grows table)
           (fun w => map identity table `prefix_of` map identity (products w))).
  - split_and!; [done | cbn; lia | constructor].
  - intros i row l w l' w' _ HI (parsed & w2 & Ep & Hc & Hp).
    eapply (account_grows _ _ _ _ _ _ Ep), chunk_effect_grows in HI; [| exact Hc].
    destruct HI as (? & ? & ?).
    split_and!; by rewrite ?(periodic_effect_products _ _ _ _ _ Hp).
  - intros i row l w w' _ HI [-> | (parsed & l2 & w2 & Ep & Hc & Hw)];
      [apply HI |].
    eapply (account_grows _ _ _ _ _ _ Ep), chunk_effect_grows in HI; [| exact Hc].
    destruct HI as (? & _). by destruct Hw as [-> | ->].
  - by intros l w (? & _).
  - intros l w l' w' HI _ Hf.
    assert (table_grows table l' w') as (Hpre & Hlen & _).
    { destruct Hf as [(_ & -> & ->) | [_ Hf]]; [done |].
      by eapply flush_effect_grows. }
    split; [done |]. cbn [outcome completed_run final_products].
    by intros p s e c u [= _ _ _ <- _].
  - intros e w Hpre. split; [done | done].
Qed.

(** X8.  Whatever the file and however the run ends, the import task
    leaves the rows the table had in place, with their id, SKU and
    active flag, and a run that completes has added as many rows as its
    [created_count] says. *)
Theorem import_keeps_rows (cfg : Settings) (table : list Product.t)
    (j : ImportJob.t) (file : option string) :
  let run := import_csv_task cfg table (Some j) file in
  map identity table `prefix_of` map identity (final_products run)
  /\ (forall p s e c u, outcome run = Completed p s e c u ->
        Z.of_nat (length (final_products run)) = Z.of_nat (length table) + c).
Proof. apply import_table_grows. Qed.

(** ** Where the records of the file end up *)

Lemma upsert_row_sku_carries table d p :
  p ∈ upsert_row table d -> Product.sku p = ProductData.sku d -> carries d p.
Proof.
  unfold upsert_row. destruct (existsb _ table) eqn:E.
  - intros (p0 & -> & Hp0)%list_elem_of_fmap. unfold has_sku.
    case_bool_decide as Hs; [by unfold carries |]. done.
  - apply existsb_has_sku_false in E.
    intros [Hp | ->%list_elem_of_singleton]%elem_of_app Hs; [| by unfold carries].
    exfalso. apply E. apply list_elem_of_fmap. by exists p.
Qed.

Lemma upsert_row_other table d p :
  p ∈ upsert_row table d -> Product.sku p <> ProductData.sku d -> p ∈ table.
Proof.
  unfold upsert_row. destruct (existsb _ table).
  - intros (p0 & -> & Hp0)%list_elem_of_fmap. unfold has_sku.
    case_bool_decide as Hs; [| done]. cbn. by intros [].
  - intros [Hp | ->%list_elem_of_singleton]%elem_of_app Hs; [done |].
    by destruct Hs.
Qed.

Lemma fold_upsert_row_other values :
  forall table p,
    p ∈ fold_left upsert_row values table ->
    Product.sku p ∉ map ProductData.sku values -> p ∈ table.
Proof.
  induction values as [| d rest IH]; intros table p Hp Hs; [done |].
  cbn in Hp, Hs. apply not_elem_of_cons in Hs as [Hd Hrest].
  eapply upsert_row_other; [| exact Hd]. by apply IH.
Qed.

Lemma fold_upsert_row_sku_carries values :
  forall table d p,
    NoDup (map ProductData.sku values) -> d ∈ values ->
    p ∈ fold_left upsert_row values table ->
    Product.sku p = ProductData.sku d -> carries d p.
Proof.
  induction values as [| d0 rest IH]; intros table d p Hnd Hin Hp Hs.
  - by apply elem_of_nil in Hin.
  - cbn in Hnd, Hp. apply NoDup_cons in Hnd as [Hd0 Hnd].
    apply elem_of_cons in Hin as [-> | Hin]; [| by eapply IH].
    eapply upsert_row_sku_carries; [| done].
    eapply fold_upsert_row_other; [done |]. by rewrite Hs.
Qed.

Lemma fold_upsert_row_skus values :
  forall table s,
    s ∈ map Product.sku (fold_left upsert_row values table)
    <-> s ∈ map Product.sku table \/ s ∈ map ProductData.sku values.
Proof.
  induction values as [| d rest IH]; intros table s; cbn.
  - rewrite elem_of_nil. tauto.
  - rewrite IH, map_sku_upsert_row, elem_of_cons.
    destruct (existsb _ table) eqn:E.
    + apply existsb_has_sku in E. split; [tauto |].
      intros [? | [-> | ?]]; tauto.
    + rewrite elem_of_app, list_elem_of_singleton. tauto.
Qed.

Lemma valid_at_inj rows i d d' : valid_at rows i d -> valid_at rows i d' -> d = d'.
Proof. intros (r & Hr & Hd) (r' & Hr' & Hd'). congruence. Qed.

Lemma valid_at_lt rows i d : valid_at rows i d -> (i < length rows)%nat.
Proof. intros (r & Hr & _). by eapply lookup_lt_Some. Qed.

Lemma account_stored rows table n l row parsed products :
  rows !! n = Some row ->
  parse_csv_row row (2 + Z.of_nat n) = Ok parsed ->
  rows_stored rows table n (Loop.batch l) products ->
  rows_stored rows table (S n)
    (Loop.batch (account l (2 + Z.of_nat n) row parsed)) products.
Proof.
  intros Hrow Ep (Hskus & Hlast & Hbatch).
  destruct parsed as [dn | errors k]; cbn [account Loop.batch].
  - assert (Hn : valid_at rows n dn) by by exists row.
    split_and!.
    + intros s. rewrite map_app, elem_of_app. cbn [map].
      rewrite list_elem_of_singleton. split.
      * intros [Hs | [Hs | ->]].
        -- destruct (proj1 (Hskus s) (or_introl Hs)) as [? | (i & d & ? & ? & ?)];
             [by left | right; exists i, d; split_and!; [lia | done | done]].
        -- destruct (proj1 (Hskus s) (or_intror Hs)) as [? | (i & d & ? & ? & ?)];
             [by left | right; exists i, d; split_and!; [lia | done | done]].
        -- right. exists n, dn. split_and!; [lia | done | done].
      * intros [Hs | (i & d & Hi & Hd & <-)].
        -- destruct (proj2 (Hskus s) (or_introl Hs)); tauto.
        -- destruct (decide (i = n)) as [-> | Hne].
           ++ rewrite (valid_at_inj _ _ _ _ Hd Hn). tauto.
           ++ destruct (proj2 (Hskus (ProductData.sku d))); [| tauto | tauto].
              right. exists i, d. split_and!; [lia | done | done].
    + intros i d (Hi & Hd & Hl). destruct (decide (i = n)) as [-> | Hne].
      * left. rewrite (valid_at_inj _ _ _ _ Hd Hn). apply elem_of_app. right.
        by apply list_elem_of_singleton.
      * assert (Hdn : ProductData.sku dn <> ProductData.sku d).
        { apply (Hl n); [lia | done]. }
        destruct (Hlast i d) as [Hin | [Hnot Hq]].
        -- split_and!; [lia | done |]. intros i' d' ? ?. apply (Hl i'); [lia | done].
        -- left. apply elem_of_app. by left.
        -- right. split; [| done]. rewrite map_app, elem_of_app. cbn [map].
           rewrite list_elem_of_singleton. intros [? | ?]; [done | congruence].
    + intros d [Hd | ->%list_elem_of_singleton]%elem_of_app; [by apply Hbatch |].
      by exists n.
  - assert (Hn : forall d, ~ valid_at rows n d).
    { intros d (r & Hr & Hd). congruence. }
    split_and!.
    + intros s. rewrite Hskus. split.
      * intros [? | (i & d & ? & ? & ?)]; [by left |].
        right. exists i, d. split_and!; [lia | done | done].
      * intros [? | (i & d & Hi & Hd & ?)]; [by left |].
        right. exists i, d. split_and!; [| done | done].
        destruct (decide (i = n)) as [-> | ?]; [by destruct (Hn d) | lia].
    + intros i d (Hi & Hd & Hl). apply (Hlast i d). split_and!; [| done |].
      * destruct (decide (i = n)) as [-> | ?]; [by destruct (Hn d) | lia].
      * intros i' d' ? ?. apply (Hl i'); [lia | done].
    + done.
Qed.

Lemma upsert_products_stored rows table n batch products table' cu :
  rows_stored rows table n batch products ->
  upsert_products products batch = Ok (table', cu) ->
  rows_stored rows table n [] table'.
Proof.
  intros (Hskus & Hlast & Hbatch) Eu.
  assert (Hnd : NoDup (map ProductData.sku batch)).
  { by eapply upsert_products_ok_NoDup. }
  destruct cu as [c u]. apply upsert_products_inv in Eu as [_ ->].
  split_and!.
  - intros s. rewrite <- Hskus, fold_upsert_row_skus. cbn [map].
    rewrite elem_of_nil. tauto.
  - intros i d Hl. right. split; [apply not_elem_of_nil |].
    intros q Hq Hs. destruct (Hlast i d Hl) as [Hin | [Hnot Hc]].
    + by eapply fold_upsert_row_sku_carries.
    + apply Hc; [| done]. eapply fold_upsert_row_other; [done |]. by rewrite Hs.
  - intros d Hd. by apply elem_of_nil in Hd.
Qed.

Lemma upsert_products_untouched rows batch products table' cu q :
  (forall d, d ∈ batch -> exists i, valid_at rows i d) ->
  untouched rows q -> q ∈ products ->
  upsert_products products batch = Ok (table', cu) -> q ∈ table'.
Proof.
  intros Hbatch Hq Hin Eu. destruct cu as [c u].
  apply upsert_products_inv in Eu as [_ ->].
  apply fold_upsert_row_keeps; [done |]. apply Forall_forall.
  intros d Hd Heq. destruct (Hbatch d Hd) as [i Hi]. by apply (Hq i d).
Qed.

(** The records of the file in a run: the rows no valid row names stay
    whatever the end of the run, and a run that completes has stored
    every record. *)
Lemma import_rows_stored cfg table j raw :
  let run := import_csv_task cfg table (Some j) (Some raw) in
  let rows := (csv.DictReader (File.lines raw)).1 in
  (forall q, q ∈ table -> untouched rows q -> q ∈ final_products run)
  /\ (forall p s e c u, outcome run = Completed p s e c u ->
        rows_stored rows table (length rows) [] (final_products run)).
Proof.
  cbv zeta. set (rows := (csv.DictReader (File.lines raw)).1).
  set (keeps := fun w : World =>
         forall q, q ∈ table -> untouched rows q -> q ∈ products w).
  apply (import_run_rule cfg table j raw
           (fun n l w => rows_stored rows table n (Loop.batch l) (products w)
                         /\ keeps w) keeps).
  - split; [| by intros q]. split_and!.
    + intros s. cbn. rewrite elem_of_nil. split; [tauto |].
      intros [? | (i & d & ? & _)]; [tauto | lia].
    + intros i d (? & _). lia.
    + intros d Hd. by apply elem_of_nil in Hd.
  - intros i row l w l' w' Hrow [HI Hk] (parsed & w2 & Ep & Hc & Hp).
    fold rows in Hrow.
    pose proof (account_stored _ _ _ _ _ _ _ Hrow Ep HI) as HI1.
    rewrite (periodic_effect_products _ _ _ _ _ Hp).
    unfold keeps. rewrite (periodic_effect_products _ _ _ _ _ Hp).
    destruct Hc as [(_ & -> & ->) | (_ & t & c & u & Eu & -> & ->)]; [done |].
    cbn [Loop.batch products]. split.
    + by eapply upsert_products_stored.
    + intros q Hq Hu. eapply upsert_products_untouched; [apply HI1 | | | done]; auto.
  - intros i row l w w' Hrow [HI Hk] [-> | (parsed & l2 & w2 & Ep & Hc & Hw)];
      [done |].
    fold rows in Hrow.
    pose proof (account_stored _ _ _ _ _ _ _ Hrow Ep HI) as HI1.
    assert (keeps w2) as Hk2.
    { destruct Hc as [(_ & -> & ->) | (_ & t & c & u & Eu & -> & ->)]; [done |].
      intros q Hq Hu. cbn [products].
      eapply upsert_products_untouched; [apply HI1 | | | done]; auto. }
    by destruct Hw as [-> | ->].
  - by intros l w [_ ?].
  - intros l w l' w' [HI Hk] _ Hf. cbn [final_products outcome completed_run].
    destruct Hf as [(Eb & -> & ->) | (_ & t & c & u & Eu & -> & ->)].
    + rewrite Eb in HI. split; [done | by intros].
    + cbn [products]. split.
      * intros q Hq Hu. eapply upsert_products_untouched; [apply HI | | | done]; auto.
      * intros _ _ _ _ _ _. by eapply upsert_products_stored.
  - intros e w Hk. cbn [final_products outcome failed_run]. split; [done | done].
Qed.

(** X9.  After a run that completes, the SKUs of the table are those
    it had before and those of the valid rows of the file, and no
    others. *)
Theorem import_stores_valid_skus (cfg : Settings) (table : list Product.t)
    (j : ImportJob.t) (raw : string) (p s e c u : Z) (sku : string) :
  let run := import_csv_task cfg table (Some j) (Some raw) in
  let rows := (csv.DictReader (File.lines raw)).1 in
  outcome run = Completed p s e c u ->
  sku ∈ map Product.sku (final_products run)
  <-> sku ∈ map Product.sku table
      \/ exists i d, valid_at rows i d /\ ProductData.sku d = sku.
Proof.
  intros run rows Ho.
  destruct (import_rows_stored cfg table j raw) as [_ H].
  destruct (H p s e c u Ho) as (Hskus & _). fold run rows in Hskus.
  split.
  - intros Hs. destruct (proj1 (Hskus sku) (or_introl Hs)) as [? | (i & d & _ & ? & ?)];
      [by left | right; by exists i, d].
  - intros Hs. destruct (proj2 (Hskus sku)) as [? | Hn]; [| done |].
    + destruct Hs as [? | (i & d & Hd & ?)]; [by left |].
      right. exists i, d. split_and!; [| done | done].
      by eapply valid_at_lt.
    + by apply elem_of_nil in Hn.
Qed.

Lemma import_stores_valid_skus_witness :
  "A1" ∈ map Product.sku
           (final_products
              (import_csv_task settings [] (Some ImportJob.new) (Some three_rows)))
  <-> "A1" ∈ map Product.sku []
      \/ exists i d,
           valid_at (csv.DictReader (File.lines three_rows)).1 i d
           /\ ProductData.sku d = "A1".
Proof.
  apply (import_stores_valid_skus settings [] ImportJob.new three_rows 3 2 1 2 0 "A1").
  vm_compute. reflexivity.
Defined.



(** X11.  However the run ends, a row of the table whose SKU no valid
    row of the file has is left as it was. *)
Theorem import_leaves_other_rows (cfg : Settings) (table : list Product.t)
    (j : ImportJob.t) (raw : string) (q : Product.t) :
  q ∈ table ->
  untouched (csv.DictReader (File.lines raw)).1 q ->
  q ∈ final_products (import_csv_task cfg table (Some j) (Some raw)).
Proof.
  intros Hq Hu. by apply (import_rows_stored cfg table j raw).
Qed.

Lemma valid_records_elem rows :
  forall row_num i row d,
    rows !! i = Some row ->
    parse_csv_row row (row_num + Z.of_nat i) = Ok (Valid d) ->
    d ∈ valid_records row_num rows.
Proof.
  induction rows as [| r rest IH]; intros row_num i row d Hrow Hp; [done |].
  destruct i as [| i]; cbn [lookup list_lookup valid_records] in Hrow |- *.
  - injection Hrow as ->. rewrite Z.add_0_r in Hp. rewrite Hp.
    apply list_elem_of_here.
  - assert (d ∈ valid_records (row_num + 1) rest).
    { apply (IH _ i row); [done |].
      by replace (row_num + 1 + Z.of_nat i) with (row_num + Z.of_nat (S i)) by lia. }
    destruct (parse_csv_row r row_num) as [[? | ? ?] | ?];
      [by apply list_elem_of_further | done | done].
Qed.

Lemma untouched_valid_skus rows q :
  bool_decide (Product.sku q ∈ valid_skus 2 rows) = false -> untouched rows q.
Proof.
  intros H%bool_decide_eq_false i d (row & Hrow & Hp) Hs. apply H.
  rewrite <- Hs. apply list_elem_of_fmap. exists d. split; [done |].
  by eapply valid_records_elem.
Qed.

Lemma import_leaves_other_rows_witness :
  let q := Product.mk 1 "Z9" "Old" None None (Some 1) true in
  q ∈ final_products
        (import_csv_task settings [q] (Some ImportJob.new) (Some three_rows)).
Proof.
  apply import_leaves_other_rows.
  - apply list_elem_of_here.
  - apply untouched_valid_skus. vm_compute. reflexivity.
Defined.

(** ** The error log *)

Lemma rejected_app rows1 :
  forall row_num rows2,
    rejected row_num (rows1 ++ rows2)
    = rejected row_num rows1
      ++ rejected (row_num + Z.of_nat (length rows1)) rows2.
Proof.
  induction rows1 as [| r rest IH]; intros row_num rows2.
  - cbn [app length rejected]. by rewrite Z.add_0_r.
  - cbn [app length rejected]. rewrite IH.
    replace (row_num + 1 + Z.of_nat (length rest))
      with (row_num + Z.of_nat (S (length rest))) by lia.
    by destruct (parse_csv_row r row_num) as [[? | ? ?] | ?].
Qed.

Lemma account_errors_logged rows n l row parsed :
  rows !! n = Some row ->
  parse_csv_row row (2 + Z.of_nat n) = Ok parsed ->
  errors_logged rows n l ->
  errors_logged rows (S n) (account l (2 + Z.of_nat n) row parsed).
Proof.
  intros Hrow Ep [Hd Hc]. unfold errors_logged.
  rewrite (take_S_r _ _ _ Hrow), rejected_app, length_take.
  pose proof (lookup_lt_Some _ _ _ Hrow) as Hlt.
  rewrite Nat.min_l by lia. cbn [rejected]. rewrite Ep.
  destruct parsed as [d | errors k]; cbn [account Loop.error_details Loop.error_count].
  - by rewrite app_nil_r.
  - rewrite length_app. cbn [length]. split; [| lia].
    set (xs := rejected 2 (take n rows)) in *. rewrite Hd, length_take.
    destruct (_ <? _) eqn:E.
    + apply Z.ltb_lt in E. rewrite (take_ge xs) by lia.
      rewrite take_ge; [done |]. rewrite length_app. cbn [length]. lia.
    + apply Z.ltb_ge in E. rewrite take_app_le by lia. done.
Qed.

Lemma flush_effect_errors l w l' w' :
  flush_effect l w l' w' ->
  Loop.error_details l' = Loop.error_details l
  /\ Loop.error_count l' = Loop.error_count l.
Proof. by intros (t & c & u & _ & -> & _). Qed.

Lemma chunk_effect_errors cfg l w l' w' :
  chunk_effect cfg l w l' w' ->
  Loop.error_details l' = Loop.error_details l
  /\ Loop.error_count l' = Loop.error_count l.
Proof.
  intros [(_ & -> & _) | [_ Hf]]; [done | by eapply flush_effect_errors].
Qed.

(** X12.  The job of a run that completes counts every rejected row in
    [error_count] and keeps in [error_details] the entries of the
    first 100 of them, in the order of the file: the row number, the
    messages of the validator and the [sku] field as read.
    [error_details] is absent when no row was rejected. *)
Theorem completed_error_details (cfg : Settings) (table : list Product.t)
    (j : ImportJob.t) (raw : string) (p s e c u : Z) :
  let run := import_csv_task cfg table (Some j) (Some raw) in
  let entries := rejected 2 (csv.DictReader (File.lines raw)).1 in
  outcome run = Completed p s e c u ->
  e = Z.of_nat (length entries)
  /\ ImportJob.error_count <$> final_job run = Some e
  /\ ImportJob.error_details <$> final_job run
     = Some (match entries with [] => None | _ => Some (take 100 entries) end).
Proof.
  cbv zeta. set (rows := (csv.DictReader (File.lines raw)).1).
  revert p s e c u.
  apply (import_run_rule cfg table j raw (fun n l _ => errors_logged rows n l)
           (fun _ => True)).
  - by split.
  - intros i row l w l' w' Hrow HI (parsed & w2 & Ep & Hc & _).
    fold rows in Hrow.
    pose proof (account_errors_logged _ _ _ _ _ Hrow Ep HI) as [H1 H2].
    apply chunk_effect_errors in Hc as [Hd Hcnt].
    split; congruence.
  - done.
  - done.
  - intros l w l' w' [Hd Hc] _ Hf p s e c u.
    assert (Loop.error_details l' = Loop.error_details l
            /\ Loop.error_count l' = Loop.error_count l) as [Hd' Hc'].
    { destruct Hf as [(_ & -> & _) | [_ Hf]]; [done |].
      by eapply flush_effect_errors. }
    rewrite firstn_all in Hd, Hc.
    cbn [outcome final_job completed_run fmap option_fmap option_map
         completed_job set_error_details store_counters
         ImportJob.error_count ImportJob.error_details].
    intros [= _ _ <- _ _]. rewrite Hd', Hc', Hd, Hc. split_and!; [done | done |].
    by destruct (rejected 2 rows).
  - intros e w _ p s e' c u. cbn. done.
Qed.

Lemma completed_error_details_witness :
  let run := import_csv_task settings [] (Some ImportJob.new) (Some three_rows) in
  let entries := rejected 2 (csv.DictReader (File.lines three_rows)).1 in
  1 = Z.of_nat (length entries)
  /\ ImportJob.error_count <$> final_job run = Some 1
  /\ ImportJob.error_details <$> final_job run
     = Some (match entries with [] => None | _ => Some (take 100 entries) end).
Proof.
  apply (completed_error_details settings [] ImportJob.new three_rows 3 2 1 2 0).
  vm_compute. reflexivity.
Defined.

(** ** The batches handed to the store *)

Lemma upserts_app tr1 tr2 : upserts (tr1 ++ tr2) = upserts tr1 ++ upserts tr2.
Proof. apply omap_app. Qed.

Lemma periodic_effect_upserts cfg total l w w' :
  periodic_effect cfg total l w w' -> upserts (trace w') = upserts (trace w).
Proof.
  intros [_ [[_ ->] | (_ & _ & ->)]]; [done |].
  cbn [trace]. rewrite upserts_app. cbn. by rewrite app_nil_r.
Qed.

Lemma committed_importing_upserts l w :
  upserts (trace (committed_importing l w)) = upserts (trace w).
Proof. cbn [trace committed_importing]. rewrite upserts_app. cbn. by rewrite app_nil_r. Qed.

Lemma flush_effect_upserts l w l' w' :
  flush_effect l w l' w' ->
  upserts (trace w') = upserts (trace w) ++ [Loop.batch l]
  /\ Loop.batch l' = [] /\ NoDup (map ProductData.sku (Loop.batch l)).
Proof.
  intros (t & c & u & Eu & -> & ->). cbn [trace Loop.batch].
  rewrite upserts_app. split_and!; [done | done |].
  by eapply upsert_products_ok_NoDup.
Qed.

Lemma account_batch l row_num row parsed :
  Loop.batch (account l row_num row parsed)
  = Loop.batch l ++ match parsed with Valid d => [d] | Invalid _ _ => [] end.
Proof. destruct parsed; cbn; [done | by rewrite app_nil_r]. Qed.

Lemma failed_run_upserts e w : upserts (events (failed_run e w)) = upserts (trace w).
Proof. cbn [events failed_run]. rewrite upserts_app. cbn. by rewrite app_nil_r. Qed.

Lemma completed_run_upserts total l w :
  upserts (events (completed_run total l w)) = upserts (trace w).
Proof. cbn [events completed_run]. rewrite upserts_app. cbn. by rewrite app_nil_r. Qed.

Lemma valid_records_app rows1 :
  forall row_num rows2,
    valid_records row_num (rows1 ++ rows2)
    = valid_records row_num rows1
      ++ valid_records (row_num + Z.of_nat (length rows1)) rows2.
Proof.
  induction rows1 as [| r rest IH]; intros row_num rows2.
  - cbn [app length valid_records]. by rewrite Z.add_0_r.
  - cbn [app length valid_records]. rewrite IH.
    replace (row_num + 1 + Z.of_nat (length rest))
      with (row_num + Z.of_nat (S (length rest))) by lia.
    by destruct (parse_csv_row r row_num) as [[? | ? ?] | ?].
Qed.

Lemma valid_records_take_S rows n row parsed :
  rows !! n = Some row ->
  parse_csv_row row (2 + Z.of_nat n) = Ok parsed ->
  valid_records 2 (take (S n) rows)
  = valid_records 2 (take n rows)
    ++ match parsed with Valid d => [d] | Invalid _ _ => [] end.
Proof.
  intros Hrow Ep. rewrite (take_S_r _ _ _ Hrow), valid_records_app, length_take.
  pose proof (lookup_lt_Some _ _ _ Hrow) as Hlt.
  rewrite Nat.min_l by lia. cbn [valid_records]. rewrite Ep. by destruct parsed.
Qed.

(** X13.  The batches a run hands to the store are, one after the
    other, the records of the valid rows of the file in the order of
    the file: a run that completes has handed over every record exactly
    once, and a run that fails a first part of them. *)
Theorem import_batches_in_order (cfg : Settings) (table : list Product.t)
    (j : ImportJob.t) (raw : string) :
  let run := import_csv_task cfg table (Some j) (Some raw) in
  let records := valid_records 2 (csv.DictReader (File.lines raw)).1 in
  concat (upserts (events run)) `prefix_of` records
  /\ (forall p s e c u, outcome run = Completed p s e c u ->
        concat (upserts (events run)) = records
        /\ s = Z.of_nat (length records)).
Proof.
  cbv zeta. set (rows := (csv.DictReader (File.lines raw)).1).
  apply (import_run_rule cfg table j raw
           (fun n l w =>
              concat (upserts (trace w)) ++ Loop.batch l
              = valid_records 2 (take n rows)
              /\ Loop.success_count l
                 = Z.of_nat (length (valid_records 2 (take n rows))))
           (fun w => concat (upserts (trace w)) `prefix_of` valid_records 2 rows)).
  - done.
  - intros i row l w l' w' Hrow [HI Hs] (parsed & w2 & Ep & Hc & Hp).
    fold rows in Hrow.
    rewrite (periodic_effect_upserts _ _ _ _ _ Hp),
      (valid_records_take_S _ _ _ _ Hrow Ep), <- HI.
    assert (Hs1 : Loop.success_count (account l (2 + Z.of_nat i) row parsed)
                  = Z.of_nat (length (concat (upserts (trace w)) ++ Loop.batch l
                       ++ match parsed with Valid d => [d] | Invalid _ _ => [] end))).
    { rewrite app_assoc, length_app, HI. destruct parsed; cbn; lia. }
    rewrite <- app_assoc.
    destruct Hc as [(_ & -> & ->) | [_ Hf]].
    + by rewrite account_batch.
    + pose proof Hf as (t & c & u & _ & El & _).
      apply flush_effect_upserts in Hf as (-> & -> & _).
      rewrite concat_app, account_batch. cbn [concat]. rewrite !app_nil_r.
      split; [done |]. rewrite El. cbn [Loop.success_count]. by rewrite Hs1.
  - intros i row l w w' Hrow [HI _] Hr. fold rows in Hrow.
    assert (Hpre : forall parsed,
              parse_csv_row row (2 + Z.of_nat i) = Ok parsed ->
              (concat (upserts (trace w)) ++ Loop.batch l
               ++ match parsed with Valid d => [d] | Invalid _ _ => [] end)
              `prefix_of` valid_records 2 rows).
    { intros parsed Ep. rewrite app_assoc, HI, <- (valid_records_take_S _ _ _ _ Hrow Ep).
      rewrite <- (take_drop (S i) rows) at 2. rewrite valid_records_app.
      by apply prefix_app_r. }
    assert (H0 : concat (upserts (trace w)) `prefix_of` valid_records 2 rows).
    { rewrite <- (take_drop i rows), valid_records_app, <- HI, <- app_assoc.
      by apply prefix_app_r. }
    destruct Hr as [-> | (parsed & l2 & w2 & Ep & Hc & Hw)]; [done |].
    assert (concat (upserts (trace w2)) `prefix_of` valid_records 2 rows).
    { destruct Hc as [(_ & -> & ->) | [_ Hf]]; [done |].
      apply flush_effect_upserts in Hf as (-> & _ & _).
      rewrite concat_app, account_batch. cbn [concat]. rewrite app_nil_r.
      by apply Hpre. }
    destruct Hw as [-> | ->]; [done | by rewrite committed_importing_upserts].
  - intros l w [HI _]. rewrite firstn_all in HI. rewrite <- HI.
    by apply prefix_app_r.
  - intros l w l' w' [HI Hs] _ Hf. rewrite firstn_all in HI, Hs.
    rewrite completed_run_upserts. cbn [outcome completed_run].
    assert (concat (upserts (trace w')) = valid_records 2 rows
            /\ Loop.success_count l' = Loop.success_count l) as [-> Hs'].
    { destruct Hf as [(Eb & -> & ->) | [_ Hf]].
      - rewrite Eb, app_nil_r in HI. done.
      - pose proof Hf as (t & c & u & _ & El & _).
        apply flush_effect_upserts in Hf as (-> & _ & _).
        rewrite concat_app. cbn [concat]. rewrite app_nil_r. split; [done |].
        by rewrite El. }
    split; [done |]. intros p s e c u [= _ <- _ _ _]. split; [done | congruence].
  - intros e w H. rewrite failed_run_upserts. split; [done | done].
Qed.



(** ** The end of a run *)



(** ** The published percentage *)

Lemma percentage_bounds n d : 0 < n <= d -> 0 <= percentage n d <= 100 * 100.
Proof.
  intros H. unfold percentage, round_half_even.
  set (m := n * 100 * 100).
  pose proof (Z.div_mod m d ltac:(lia)) as Hdm.
  pose proof (Z.mod_pos_bound m d ltac:(lia)) as Hr.
  assert (0 <= m / d) by (apply Z.div_pos; lia).
  assert (m / d <= 10000) by (apply Z.div_le_upper_bound; lia).
  assert (m / d = 10000 -> m mod d = 0) by nia.
  rewrite (Z.abs_eq (m mod d)), (Z.abs_eq d) by lia.
  destruct (Z.compare_spec (2 * (m mod d)) d) as [Heq | Hlt | Hgt];
    [destruct (Z.even _) | |]; lia.
Qed.

Lemma elem_of_publishes p tr : p ∈ publishes tr <-> Publish p ∈ tr.
Proof.
  unfold publishes. rewrite list_elem_of_omap. split.
  - intros (ev & Hev & Hp). destruct ev; try done. by injection Hp as ->.
  - intros H. by exists (Publish p).
Qed.

Lemma flush_effect_publishes l w l' w' :
  flush_effect l w l' w' -> publishes (trace w') = publishes (trace w).
Proof.
  intros (t & c & u & _ & _ & ->). cbn [trace]. rewrite publishes_app. cbn.
  by rewrite app_nil_r.
Qed.

Lemma chunk_effect_publishes cfg l w l' w' :
  chunk_effect cfg l w l' w' -> publishes (trace w') = publishes (trace w).
Proof.
  intros [(_ & _ & ->) | [_ Hf]]; [done | by eapply flush_effect_publishes].
Qed.

Lemma chunk_effect_processed cfg l w l' w' :
  chunk_effect cfg l w l' w' -> Loop.processed_rows l' = Loop.processed_rows l.
Proof.
  intros [(_ & -> & _) | [_ (t & c & u & _ & -> & _)]]; done.
Qed.

Lemma account_processed l row_num row parsed :
  Loop.processed_rows (account l row_num row parsed) = Loop.processed_rows l + 1.
Proof. by destruct parsed. Qed.

(** X16.  Every snapshot a run publishes with a percentage has a
    percentage between 0 and 100, and the snapshots of the loop count
    at least one row and at most [total_rows] rows. *)
Theorem published_percentage_bounded (cfg : Settings) (table : list Product.t)
    (j : ImportJob.t) (file : option string) (p : Progress.t) (pct : Z) :
  Publish p ∈ events (import_csv_task cfg table (Some j) file) ->
  Progress.progress_percentage p = Some pct ->
  0 <= pct <= 100 * 100
  /\ (Progress.status p = importing ->
      0 < Progress.processed_rows p <= Progress.total_rows p).
Proof.
  intros Hin. apply elem_of_publishes in Hin. revert pct. change (progress_ok p).
  revert p Hin. apply Forall_forall.
  destruct file as [raw |]; [| by repeat constructor].
  pose proof (DictReader_length (File.lines raw)) as Hlen.
  set (rows := (csv.DictReader (File.lines raw)).1) in *.
  set (total := Z.of_nat (length (File.lines raw)) - 1).
  apply (import_run_rule cfg table j raw
           (fun n l w => Loop.processed_rows l = Z.of_nat n
                         /\ Forall progress_ok (publishes (trace w)))
           (fun w => Forall progress_ok (publishes (trace w)))).
  - split; [done |]. by repeat constructor.
  - intros i row l w l' w' Hrow [Hn Hall] (parsed & w2 & Ep & Hc & Hp).
    fold rows in Hrow. apply lookup_lt_Some in Hrow.
    assert (Hn' : Loop.processed_rows l' = Z.of_nat (S i)).
    { rewrite (chunk_effect_processed _ _ _ _ _ Hc), account_processed, Hn. lia. }
    split; [done |].
    apply chunk_effect_publishes in Hc.
    destruct Hp as [_ [[_ ->] | (_ & _ & ->)]]; [by rewrite Hc |].
    cbn [trace]. rewrite publishes_app, Hc. apply Forall_app. split; [done |].
    cbn. apply Forall_singleton. intros pct [= <-].
    cbn [snapshot Progress.processed_rows Progress.total_rows Progress.status].
    assert (0 < Loop.processed_rows l' <= total).
    { destruct Hlen as [Hnil | Hlt]; [rewrite Hnil in Hrow; cbn in Hrow; lia |].
      subst total. lia. }
    split; [by apply percentage_bounds | done].
  - intros i row l w w' _ [_ Hall] [-> | (parsed & l2 & w2 & Ep & Hc & Hw)];
      [done |].
    apply chunk_effect_publishes in Hc.
    destruct Hw as [-> | ->]; [by rewrite Hc |].
    cbn [trace committed_importing]. rewrite publishes_app, Hc. cbn.
    by rewrite app_nil_r.
  - by intros l w [_ ?].
  - intros l w l' w' [_ Hall] _ Hf. cbn [events completed_run].
    rewrite publishes_app. apply Forall_app. split.
    + destruct Hf as [(_ & _ & ->) | [_ Hf]]; [done |].
      by rewrite (flush_effect_publishes _ _ _ _ Hf).
    + cbn. apply Forall_singleton. intros pct [= <-]. split; [lia | done].
  - intros e w Hall. cbn [events failed_run]. rewrite publishes_app.
    apply Forall_app. split; [done |]. cbn. by apply Forall_singleton.
Qed.

Lemma published_percentage_bounded_witness :
  0 <= 6667 <= 100 * 100 /\ (importing = importing -> 0 < 2 <= 3).
Proof.
  apply (published_percentage_bounded (mkSettings 5000 2) [] ImportJob.new
           (Some (rows_file 3))
           (snapshot importing (Loop.mk 2 2 0 0 0 [] []) 3 6667) 6667).
  - vm_compute. do 5 apply list_elem_of_further. apply list_elem_of_here.
  - reflexivity.
Defined.

(** ** Deliveries *)

Section DeliveryProperties.

Variable Payload : Type.
Variable json_dumps : string -> string -> Payload -> string.

Lemma same_configuration_refl w : same_configuration w w.
Proof. by unfold same_configuration. Qed.

Lemma same_configuration_trans w1 w2 w3 :
  same_configuration w1 w2 -> same_configuration w2 w3 -> same_configuration w1 w3.
Proof. unfold same_configuration. intuition congruence. Qed.

Lemma send_webhook_committed (webhook : Webhook.t) (retries : Z)
    (event_type : string) (payload : Payload) (now1 now2 now3 : string)
    (post : Request -> HttpOutcome) :
  exists webhook',
    committed (send_webhook Payload json_dumps (Some webhook) retries event_type
                 payload now1 now2 now3 post) = Some webhook'
    /\ same_configuration webhook webhook'.
Proof.
  unfold send_webhook. destruct (Webhook.is_enabled webhook); cbn [negb].
  - destruct (post _) as [code ms | | |].
    + destruct (code >=? 400); [destruct (code >=? 500) |];
        eexists; (split; [reflexivity | by unfold same_configuration]).
    + eexists. split; [reflexivity | by unfold same_configuration].
    + eexists. split; [reflexivity | by unfold same_configuration].
    + eexists. split; [reflexivity | apply same_configuration_refl].
  - eexists. split; [reflexivity | apply same_configuration_refl].
Qed.

(** X17.  A delivery changes the statistics of a webhook only: after
    any number of runs, whatever the target answers, the row has the
    id, URL, event type, enabled flag and secret it had. *)
Theorem delivery_keeps_configuration (webhook : Webhook.t) (retries : Z)
    (event_type : string) (payload : Payload) (now : string)
    (answers : list HttpOutcome) :
  exists webhook',
    webhook_after (deliver Payload json_dumps (Some webhook) retries event_type
                     payload now answers) = Some webhook'
    /\ same_configuration webhook webhook'.
Proof.
  revert webhook retries.
  induction answers as [| answer rest IH]; intros webhook retries.
  - exists webhook. split; [done | apply same_configuration_refl].
  - cbn [deliver].
    destruct (send_webhook_committed webhook retries event_type payload now now now
                (fun _ => answer)) as (w1 & Hc & Hs).
    destruct (result_ _) eqn:Er; cbn [webhook_after];
      try (exists w1; by split).
    rewrite Hc. destruct (IH w1 (retries + 1)) as (w2 & Hw2 & Hs2).
    exists w2. split; [done | by eapply same_configuration_trans].
Qed.

Lemma deliver_bounded (event_type : string) (payload : Payload) (now : string)
    (answers : list HttpOutcome) :
  forall retries row,
    0 <= retries <= 3 ->
    let d := deliver Payload json_dumps row retries event_type payload now answers in
    Z.of_nat (attempts d) <= 4 - retries
    /\ (attempts d <= length answers)%nat
    /\ delays d
       = map (fun k => 60 * (retries + 1 + Z.of_nat k)) (seq 0 (length (delays d)))
    /\ (final d = None -> attempts d = length answers)
    /\ Z.of_nat (length (delays d)) <= 3 - retries.
Proof.
  induction answers as [| answer rest IH]; intros retries row Hr.
  - cbn. split_and!; [lia | lia | done | done | lia].
  - cbn zeta. cbn [deliver].
    set (s := send_webhook _ _ _ _ _ _ _ _ _ _).
    assert (Hretry : forall countdown, result_ s = Retry countdown ->
                       retries < 3 /\ countdown = 60 * (retries + 1)).
    { intros countdown. subst s. unfold send_webhook, Task_retry.
      rewrite retries_exceeded.
      destruct row as [webhook |]; [| done].
      destruct (Webhook.is_enabled webhook); cbn [negb]; [| done].
      destruct answer as [code ms | | |]; cbn [result_].
      - destruct (code >=? 400); [destruct (code >=? 500) |]; cbn [result_];
          try done.
        destruct (retries <? 3) eqn:E; cbn [negb]; [| done].
        intros [= <-]. lia.
      - destruct (retries <? 3) eqn:E; cbn [negb]; [| done]. intros [= <-]. lia.
      - destruct (retries <? 3) eqn:E; cbn [negb]; [| done]. intros [= <-]. lia.
      - done. }
    destruct (result_ s) as [| | ? ? ? | countdown | e] eqn:Er;
      cbn [attempts delays final length];
      try (split_and!; [lia | lia | done | done | lia]).
    destruct (Hretry countdown eq_refl) as [Hlt ->].
    destruct (IH (retries + 1) (committed s)) as (H1 & H2 & H3 & H4 & H5); [lia |].
    cbn zeta in *. split_and!; [lia | lia | | | lia].
    + cbn [seq map]. f_equal; [f_equal; lia |].
      rewrite H3 at 1. rewrite <- seq_shift, map_map.
      apply map_ext. intros k. f_equal. lia.
    + intros Hn. by rewrite (H4 Hn).
Qed.

(** X18.  Whatever the target answers, a delivery runs the task at
    most four times, once per answer, and waits 60, 120 and 180
    seconds before the second, third and fourth run; it is still under
    way only when the answers have run out. *)
Theorem delivery_bounded (row : option Webhook.t) (event_type : string)
    (payload : Payload) (now : string) (answers : list HttpOutcome) :
  let d := deliver Payload json_dumps row 0 event_type payload now answers in
  (attempts d <= 4)%nat
  /\ (attempts d <= length answers)%nat
  /\ delays d `prefix_of` [60; 120; 180]
  /\ (final d = None -> attempts d = length answers).
Proof.
  destruct (deliver_bounded event_type payload now answers 0 row)
    as (H1 & H2 & H3 & H4 & H5); [lia |].
  cbn zeta in *. split_and!; [lia | done | | done].
  rewrite H3.
  destruct (length (delays _)) as [| [| [| [| n]]]]; cbn; [| | | | lia].
  - by exists [60; 120; 180].
  - by exists [120; 180].
  - by exists [180].
  - by exists [].
Qed.

Lemma failures_after_S before n final :
  failures_after before (S n) final = failures_after (before + 1) n final.
Proof.
  unfold failures_after. destruct final as [[| | [] ? ? | | []] |]; lia.
Qed.

(** X19.  After a delivery to an enabled webhook the failure count is
    0 when the last run was answered with a code below 400, and
    otherwise what it was plus the number of runs, a run that ended
    with an exception the task does not catch not counted. *)
Theorem delivery_failure_count (webhook : Webhook.t) (retries : Z)
    (event_type : string) (payload : Payload) (now : string)
    (answers : list HttpOutcome) :
  Webhook.is_enabled webhook = true ->
  let d := deliver Payload json_dumps (Some webhook) retries event_type payload
             now answers in
  Webhook.failure_count <$> webhook_after d
  = Some (failures_after (Webhook.failure_count webhook) (attempts d) (final d)).
Proof.
  revert webhook retries.
  induction answers as [| answer rest IH]; intros webhook retries Hen.
  - cbn. unfold failures_after. f_equal; lia.
  - cbn zeta. cbn [deliver]. unfold send_webhook, Task_retry. rewrite Hen.
    cbn [negb].
    assert (Hnext : forall w1 countdown,
      Webhook.is_enabled w1 = true ->
      Webhook.failure_count w1 = Webhook.failure_count webhook + 1 ->
      let d := deliver Payload json_dumps (Some w1) (retries + 1) event_type
                 payload now rest in
      Webhook.failure_count
        <$> webhook_after (mkDelivery (S (attempts d)) (countdown :: delays d)
                             (final d) (webhook_after d))
      = Some (failures_after (Webhook.failure_count webhook) (S (attempts d))
                (final d))).
    { intros w1 countdown Hen1 Hfc. cbn zeta. cbn [webhook_after attempts final].
      rewrite failures_after_S, <- Hfc. by apply IH. }
    destruct answer as [code ms | | |].
    + destruct (code >=? 400) eqn:E4.
      * destruct (code >=? 500); cbn [result_ committed].
        -- destruct (retries + 1 >? max_retries); cbn [result_ committed].
           ++ cbn. unfold failures_after. f_equal; lia.
           ++ by apply Hnext.
        -- assert ((code <? 400) = false) as -> by lia.
           cbn. unfold failures_after. f_equal; lia.
      * assert ((code <? 400) = true) as -> by lia. done.
    + cbn [result_ committed].
      destruct (retries + 1 >? max_retries); cbn [result_ committed].
      * cbn. unfold failures_after. f_equal; lia.
      * by apply Hnext.
    + cbn [result_ committed].
      destruct (retries + 1 >? max_retries); cbn [result_ committed].
      * cbn. unfold failures_after. f_equal; lia.
      * by apply Hnext.
    + cbn. unfold failures_after. f_equal; lia.
Qed.

End DeliveryProperties.

Lemma delivery_failure_count_witness :
  let webhook := Webhook.mk 1 "http://target" "import.completed" true None
                            None None None 5 in
  let d := deliver unit (fun _ _ _ => "{}") (Some webhook) 0 "import.completed"
             tt "t" [Responded 503 7; TimeoutException; Responded 200 7] in
  Webhook.failure_count <$> webhook_after d
  = Some (failures_after 5 (attempts d) (final d)).
Proof.
  apply (delivery_failure_count unit (fun _ _ _ => "{}")
           (Webhook.mk 1 "http://target" "import.completed" true None
                       None None None 5)).
  reflexivity.
Defined.

(** ** The form of a signature *)

Lemma sha256_round_length s kw : length s = 8%nat -> length (SHA256.round s kw) = 8%nat.
Proof.
  intros H. do 9 (destruct s as [| ? s]; try discriminate H). reflexivity.
Qed.

Lemma sha256_rounds_length kws :
  forall s, length s = 8%nat -> length (fold_left SHA256.round kws s) = 8%nat.
Proof.
  induction kws as [| kw rest IH]; intros s H; [done |].
  cbn [fold_left]. apply IH. by apply sha256_round_length.
Qed.

Lemma sha256_compress_length h block :
  length h = 8%nat -> length (SHA256.compress h block) = 8%nat.
Proof.
  intros H. unfold SHA256.compress.
  rewrite length_zip_with, sha256_rounds_length by done. lia.
Qed.

Lemma sha256_blocks_length n :
  forall h bytes, length h = 8%nat -> length (SHA256.blocks n h bytes) = 8%nat.
Proof.
  induction n as [| n IH]; intros h bytes H; [done |].
  cbn [SHA256.blocks]. apply IH. by apply sha256_compress_length.
Qed.

Lemma sha256_be_bytes_join (ws : list Z) :
  length (mjoin (map (SHA256.be_bytes 4) ws)) = (4 * length ws)%nat
  /\ Forall (fun b => 0 <= b < 256) (mjoin (map (SHA256.be_bytes 4) ws)).
Proof.
  induction ws as [| w rest [IHl IHb]]; [by split |].
  change (mjoin (map (SHA256.be_bytes 4) (w :: rest)))
    with (SHA256.be_bytes 4 w ++ mjoin (map (SHA256.be_bytes 4) rest)).
  split.
  - rewrite length_app, IHl. cbn. lia.
  - apply Forall_app. split; [| done]. cbn.
    repeat (apply Forall_cons_2;
            [change 255 with (Z.ones 8); rewrite Z.land_ones by lia;
             apply Z.mod_pos_bound; lia |]).
    apply Forall_nil_2.
Qed.

Lemma sha256_digest_bytes msg :
  length (SHA256.digest msg) = 32%nat
  /\ Forall (fun b => 0 <= b < 256) (SHA256.digest msg).
Proof.
  unfold SHA256.digest.
  destruct (sha256_be_bytes_join
              (SHA256.blocks (length (SHA256.pad msg) / 64) SHA256.H0
                 (SHA256.pad msg))) as [Hl Hb].
  split; [| done]. rewrite Hl, sha256_blocks_length; [done | reflexivity].
Qed.

Lemma sha256_hex_digit x : 0 <= x < 16 -> is_lower_hex (SHA256.hex_digit x) = true.
Proof.
  intros H.
  assert (x = 0 \/ x = 1 \/ x = 2 \/ x = 3 \/ x = 4 \/ x = 5 \/ x = 6 \/ x = 7
          \/ x = 8 \/ x = 9 \/ x = 10 \/ x = 11 \/ x = 12 \/ x = 13 \/ x = 14
          \/ x = 15) as Hx by lia.
  repeat (destruct Hx as [-> | Hx]; [reflexivity |]). by rewrite Hx.
Qed.

Lemma sha256_hex bytes :
  Forall (fun b => 0 <= b < 256) bytes ->
  String.length (SHA256.hex bytes) = (2 * length bytes)%nat
  /\ forallb is_lower_hex (list_ascii_of_string (SHA256.hex bytes)) = true.
Proof.
  unfold SHA256.hex. rewrite list_ascii_of_string_of_list_ascii.
  induction 1 as [| b rest Hb _ [IHl IHh]]; [by split |].
  match goal with
  | |- context [mjoin (map ?f (b :: rest))] =>
      change (mjoin (map f (b :: rest))) with (f b ++ mjoin (map f rest))
  end.
  cbn [app string_of_list_ascii String.length forallb].
  split.
  - rewrite IHl. cbn [length]. lia.
  - rewrite IHh, !sha256_hex_digit; [done | |].
    + apply Z.mod_pos_bound. lia.
    + split; [apply Z.div_pos; lia | apply Z.div_lt_upper_bound; lia].
Qed.

(** X20.  A signature is a string of 64 lower-case hexadecimal digits,
    whatever the payload and the secret. *)
Theorem signature_format (payload secret : string) :
  String.length (generate_signature payload secret) = 64%nat
  /\ forallb is_lower_hex (list_ascii_of_string (generate_signature payload secret))
     = true.
Proof.
  unfold generate_signature, SHA256.hmac.
  match goal with
  | |- context [SHA256.hex (SHA256.digest ?m)] =>
      destruct (sha256_digest_bytes m) as [Hl Hb];
      destruct (sha256_hex (SHA256.digest m) Hb) as [H1 H2]
  end.
  split; [by rewrite H1, Hl | done].
Qed.

(** ** The fan-out *)

Lemma find_webhook_id table w :
  NoDup (map Webhook.id table) -> w ∈ table ->
  List.find (has_webhook_id (Webhook.id w)) table = Some w.
Proof.
  induction table as [| w0 rest IH]; intros Hnd Hin.
  - by apply elem_of_nil in Hin.
  - cbn in Hnd. apply NoDup_cons in Hnd as [Hw0 Hnd]. cbn [List.find].
    unfold has_webhook_id at 1.
    apply elem_of_cons in Hin as [-> | Hin]; [by rewrite Z.eqb_refl |].
    destruct (Z.eqb_spec (Webhook.id w0) (Webhook.id w)) as [Heq | _];
      [| by apply IH].
    exfalso. apply Hw0. rewrite Heq. apply list_elem_of_fmap. by exists w.
Qed.

Section FanoutProperties.

Variable Payload : Type.
Variable json_dumps : string -> string -> Payload -> string.

Lemma trigger_webhooks_fold (event_type : string) (payload : Payload)
    (webhooks : list Webhook.t) :
  forall st : list (Z * string * Payload) * Z,
    fold_left
      (fun (st : list (Z * string * Payload) * Z) webhook =>
         (st.1 ++ [(Webhook.id webhook, event_type, payload)], st.2 + 1))
      webhooks st
    = (st.1 ++ map (fun w => (Webhook.id w, event_type, payload)) webhooks,
       st.2 + Z.of_nat (length webhooks)).
Proof.
  induction webhooks as [| w rest IH]; intros [queue n].
  - cbn. by rewrite app_nil_r, Z.add_0_r.
  - cbn [fold_left]. rewrite IH. cbn [fst snd map length].
    rewrite <- app_assoc. f_equal. lia.
Qed.

(** X21.  The fan-out queues one delivery for every enabled webhook
    of the event type, and for no other, and returns their number.
    Where no two webhooks share an id, each of these deliveries, run
    on the table as it was, finds its webhook and posts the request
    built for it. *)
Theorem trigger_webhooks_reaches_subscribers (table : list Webhook.t)
    (event_type : string) (payload : Payload) (now1 now2 now3 : string)
    (post : Request -> HttpOutcome) :
  NoDup (map Webhook.id table) ->
  let r := trigger_webhooks Payload table event_type payload in
  r.2 = Z.of_nat (length r.1)
  /\ (forall w, w ∈ table ->
        ((Webhook.id w, event_type, payload) ∈ r.1
         <-> Webhook.event_type w = event_type /\ Webhook.is_enabled w = true))
  /\ (forall call, call ∈ r.1 ->
        exists w,
          w ∈ table /\ call = (Webhook.id w, event_type, payload)
          /\ request (run_queued Payload json_dumps table call now1 now2 now3 post)
             = Some (build_request Payload json_dumps w event_type payload
                       now1 now2)).
Proof.
  intros Hnd r. subst r. unfold trigger_webhooks. rewrite trigger_webhooks_fold.
  cbn [fst snd app].
  assert (Hsub : forall w, w ∈ List.filter (subscribed event_type) table
                 <-> w ∈ table /\ Webhook.event_type w = event_type
                     /\ Webhook.is_enabled w = true).
  { intros w. rewrite !list_elem_of_In, filter_In. unfold subscribed.
    rewrite andb_true_iff, bool_decide_eq_true. tauto. }
  split_and!.
  - by rewrite length_map.
  - intros w Hw. rewrite list_elem_of_fmap. split.
    + intros (w' & [= Hid] & Hw'). apply Hsub in Hw' as (Hin & He & Hen).
      assert (w' = w) as <-; [| done].
      pose proof (find_webhook_id table w Hnd Hw) as H1.
      pose proof (find_webhook_id table w' Hnd Hin) as H2.
      rewrite Hid in H1. congruence.
    + intros [He Hen]. exists w. split; [done |]. by apply Hsub.
  - intros call (w & -> & Hw)%list_elem_of_fmap.
    apply Hsub in Hw as (Hin & He & Hen). exists w. split_and!; [done | done |].
    unfold run_queued. cbn [fst snd]. rewrite (find_webhook_id table w Hnd Hin).
    unfold send_webhook. rewrite Hen. cbn [negb].
    destruct (post _) as [code ms | | |]; [| done | done | done].
    destruct (code >=? 400); [destruct (code >=? 500) |]; done.
Qed.

End FanoutProperties.

Lemma trigger_webhooks_reaches_subscribers_witness :
  let table := [Webhook.mk 1 "http://a" "import.completed" true None
                           None None None 0;
                Webhook.mk 2 "http://b" "import.completed" false None
                           None None None 0;
                Webhook.mk 3 "http://c" "product.created" true None
                           None None None 0] in
  let r := trigger_webhooks unit table "import.completed" tt in
  r.2 = Z.of_nat (length r.1)
  /\ (forall w, w ∈ table ->
        ((Webhook.id w, "import.completed", tt) ∈ r.1
         <-> Webhook.event_type w = "import.completed"
             /\ Webhook.is_enabled w = true))
  /\ (forall call, call ∈ r.1 ->
        exists w,
          w ∈ table /\ call = (Webhook.id w, "import.completed", tt)
          /\ request (run_queued unit (fun _ _ _ => "{}") table call "t1" "t2" "t3"
                        (fun _ => Responded 200 7))
             = Some (build_request unit (fun _ _ _ => "{}") w "import.completed" tt
                       "t1" "t2")).
Proof.
  apply (trigger_webhooks_reaches_subscribers unit (fun _ _ _ => "{}")).
  apply (bool_decide_unpack _). vm_compute. reflexivity.
Defined.

(** ** The product API *)

Lemma lower_char_upper_char (c : ascii) :
  Py.lower_char (Py.upper_char c) = Py.lower_char c.
Proof. by destruct c as [[] [] [] [] [] [] [] []]. Qed.

Lemma lower_upper (s : string) : Py.lower (Py.upper s) = Py.lower s.
Proof.
  induction s as [| c s IH]; [done |].
  cbn. by rewrite lower_char_upper_char, <- IH.
Qed.

Lemma next_id_fresh table q : q ∈ table -> Product.id q < next_id table.
Proof.
  unfold next_id. induction table as [| p rest IH]; intros Hin.
  - by apply elem_of_nil in Hin.
  - cbn [map fold_right]. apply elem_of_cons in Hin as [-> | Hin]; [lia |].
    specialize (IH Hin). lia.
Qed.

(** X22.  A product that was created is the last row of the table and
    has an id no other row has and the SKU of the request, trimmed and
    in upper case; another create request with that SKU, in whatever
    case and with whatever blanks around it, is refused with status
    400 and leaves the table as it is. *)
Theorem create_product_rejects_duplicate (table table' : list Product.t)
    (body body2 : ProductCreate.t) (p : Product.t) :
  create_product table body = (table', HTTP_201 p) ->
  ProductCreate.validate body2 <> None ->
  Py.lower (Py.strip (ProductCreate.sku body2))
  = Py.lower (Py.strip (ProductCreate.sku body)) ->
  table' = table ++ [p]
  /\ Product.sku p = Py.upper (Py.strip (ProductCreate.sku body))
  /\ (Product.id p ∉ map Product.id table)
  /\ create_product table' body2 = (table', HTTP_400).
Proof.
  unfold create_product at 1. intros Hc Hv2 Hsku.
  destruct (ProductCreate.validate body) as [d |] eqn:Hv; [| done].
  assert (Hd : ProductCreate.sku d = Py.upper (Py.strip (ProductCreate.sku body))).
  { unfold ProductCreate.validate in Hv. destruct (_ && _); [| done].
    by injection Hv as <-. }
  destruct (existsb _ table); [done |].
  destruct (existsb _ table); [done |].
  injection Hc as <- <-. cbn [Product.sku Product.id].
  split_and!; [done | by rewrite Hd, upper_idemp | |].
  - intros (q & Hid & Hq)%list_elem_of_fmap.
    apply next_id_fresh in Hq. lia.
  - unfold create_product.
    destruct (ProductCreate.validate body2) as [d2 |] eqn:Hv2'; [| done].
    assert (Hd2 : ProductCreate.sku d2
                  = Py.upper (Py.strip (ProductCreate.sku body2))).
    { unfold ProductCreate.validate in Hv2'. destruct (_ && _); [| done].
      by injection Hv2' as <-. }
    rewrite existsb_app. cbn [existsb Product.sku].
    rewrite (bool_decide_eq_true_2 (Py.lower _ = Py.lower _)).
    + by rewrite orb_true_r.
    + by rewrite Hd, Hd2, !lower_upper.
Qed.

Lemma create_product_rejects_duplicate_witness :
  let body := ProductCreate.mk " ab-1 " "Widget" None None (Some 1) true in
  let body2 := ProductCreate.mk "Ab-1" "Other" None None None false in
  let p := Product.mk 1 "AB-1" "Widget" None None (Some 1) true in
  [p] = [] ++ [p]
  /\ Product.sku p = Py.upper (Py.strip (ProductCreate.sku body))
  /\ (Product.id p ∉ map Product.id [])
  /\ create_product [p] body2 = ([p], HTTP_400).
Proof.
  apply create_product_rejects_duplicate; [reflexivity | discriminate | reflexivity].
Defined.

Lemma find_has_id table i p :
  List.find (has_id i) table = Some p -> p ∈ table /\ Product.id p = i.
Proof.
  intros [Hin Hid]%find_some. split; [by apply list_elem_of_In |].
  unfold has_id in Hid. lia.
Qed.



(** X24.  A delete request that succeeds removes the rows with the id
    of the request and no others, so that the table is shorter; the
    same request again is answered with status 404 and changes
    nothing. *)
Theorem delete_product_once (table table' : list Product.t) (product_id : Z) :
  delete_product table product_id = (table', HTTP_200 None) ->
  (forall q, q ∈ table' <-> q ∈ table /\ Product.id q <> product_id)
  /\ (length table' < length table)%nat
  /\ delete_product table' product_id = (table', HTTP_404).
Proof.
  unfold delete_product at 1. intros H.
  destruct (List.find (has_id product_id) table) as [p |] eqn:Hf; [| done].
  injection H as <-. apply find_has_id in Hf as [Hin Hid].
  assert (Hmem : forall q,
            q ∈ filter (fun p => negb (has_id product_id p)) table
            <-> q ∈ table /\ Product.id q <> product_id).
  { intros q. rewrite list_elem_of_filter. unfold has_id.
    destruct (Z.eqb_spec (Product.id q) product_id); cbn; tauto. }
  split_and!; [done | |].
  - clear Hmem. revert Hin.
    induction table as [| r rest IH]; intros Hin; [by apply elem_of_nil in Hin |].
    rewrite filter_cons.
    pose proof (length_filter (fun p => negb (has_id product_id p)) rest) as Hle.
    apply elem_of_cons in Hin as [<- | Hin].
    + rewrite decide_False; [cbn [length]; lia |].
      unfold has_id. rewrite (proj2 (Z.eqb_eq _ _) Hid). cbn. tauto.
    + specialize (IH Hin). case_decide; cbn [length]; lia.
  - unfold delete_product.
    destruct (List.find _ (filter _ table)) as [q |] eqn:Hq; [| done].
    apply find_has_id in Hq as [Hq Hqid]. apply Hmem in Hq as [_ Hne]. done.
Qed.

Lemma delete_product_once_witness :
  let p := Product.mk 1 "A1" "Widget" None None (Some 1) true in
  let q := Product.mk 2 "B2" "Gadget" None None (Some 2) true in
  (forall r, r ∈ [q] <-> r ∈ [p; q] /\ Product.id r <> 1)
  /\ (length [q] < length [p; q])%nat
  /\ delete_product [q] 1 = ([q], HTTP_404).
Proof.
  apply (delete_product_once _ _ 1). reflexivity.
Defined.

(** ** The product list *)

Lemma model_validate_all (l : list Product.t) :
  Forall (fun p => is_Some (Product.quantity p)) l ->
  mapM ProductResponse.model_validate l = Some (response_of <$> l).
Proof.
  induction 1 as [| p rest [q Hq] _ IH]; [done |].
  cbn. rewrite IH. unfold ProductResponse.model_validate, response_of.
  by rewrite Hq.
Qed.

Lemma pages_concat {A B} (f : A -> B) (l : list A) (n m : nat) :
  concat (map (fun k => f <$> take n (drop (k * n) l)) (seq 0 m))
  = f <$> take (m * n) l.
Proof.
  induction m as [| m IH]; [done |].
  rewrite seq_S, map_app, concat_app, IH. cbn [map concat Nat.add].
  rewrite app_nil_r, <- fmap_app, take_take_drop. do 2 f_equal. lia.
Qed.

Lemma insert_desc_perm p l : insert_desc p l ≡ₚ p :: l.
Proof.
  induction l as [| q rest IH]; [done |]. cbn [insert_desc].
  destruct (Product.id q <=? Product.id p); [done |].
  rewrite IH. apply Permutation_swap.
Qed.

Lemma order_by_id_desc_perm l : order_by_id_desc l ≡ₚ l.
Proof.
  induction l as [| p rest IH]; [done |].
  cbn [order_by_id_desc foldr]. rewrite insert_desc_perm.
  by apply Permutation_skip.
Qed.

Lemma insert_desc_descending p l :
  descending (Product.id <$> l) -> descending (Product.id <$> insert_desc p l).
Proof.
  induction l as [| q rest IH]; [by cbn |]. cbn [insert_desc].
  intros [Hall Hrest]. destruct (Z.leb_spec (Product.id q) (Product.id p)).
  - cbn. split_and!; [| done | done]. apply Forall_cons. split; [done |].
    eapply Forall_impl; [exact Hall |]. cbn. lia.
  - cbn. split; [| by apply IH].
    change (Forall (fun y => y <= Product.id q) (Product.id <$> insert_desc p rest)).
    rewrite insert_desc_perm. cbn. apply Forall_cons. split; [lia | done].
Qed.

Lemma order_by_id_desc_descending l : descending (Product.id <$> order_by_id_desc l).
Proof.
  induction l as [| p rest IH]; [done |].
  cbn [order_by_id_desc foldr]. by apply insert_desc_descending.
Qed.

Section ListProductsProperties.

Variable like : string -> string -> bool.

Lemma filter_if_Forall (P : Product.t -> Prop) value cond query :
  Forall P query -> Forall P (filter_if value cond query).
Proof.
  intros H. unfold filter_if. destruct value as [v |]; [| done].
  destruct (Py.truthy v); [| done].
  apply Forall_forall. intros p [Hp _]%list_elem_of_In%filter_In.
  rewrite Forall_forall in H. apply H. by apply list_elem_of_In.
Qed.

Lemma filtered_Forall (P : Product.t -> Prop) table sku name description
    is_active search :
  Forall P table ->
  Forall P (filtered like table sku name description is_active search).
Proof.
  intros H. unfold filtered. apply filter_if_Forall.
  assert (H3 : Forall P (filter_if description
                 (fun v p => lower_contains like (Product.description p) v)
                 (filter_if name
                    (fun v p => lower_contains like (Some (Product.name p)) v)
                    (filter_if sku
                       (fun v p => lower_contains like (Some (Product.sku p)) v)
                       table)))).
  { by do 3 apply filter_if_Forall. }
  destruct is_active as [b |]; [| done].
  apply Forall_forall. intros p [Hp _]%list_elem_of_In%filter_In.
  rewrite Forall_forall in H3. apply H3. by apply list_elem_of_In.
Qed.

(** X25.  For a page size from 1 to 100 and a table whose rows have a
    quantity, every page from 1 on is answered with the same [total]
    and [total_pages]; [total_pages] is [total / page_size] rounded
    up; a page holds [page_size] items, fewer on the last page and
    none after it; and the pages 1 to [total_pages], one after the
    other, hold the rows that pass the filters, each once, by
    descending id. *)
Theorem list_products_pages (table : list Product.t) (page_size : Z)
    (sku name description : option string) (is_active : option bool)
    (search : option string) :
  1 <= page_size <= 100 ->
  Forall (fun p => is_Some (Product.quantity p)) table ->
  let query := filtered like table sku name description is_active search in
  let total := Z.of_nat (length query) in
  exists total_pages,
    (forall page, 1 <= page ->
       exists items,
         list_products like table page page_size sku name description is_active
           search
         = List_200 items total page page_size total_pages
         /\ Z.of_nat (length items)
            = Z.max 0 (Z.min page_size (total - (page - 1) * page_size)))
    /\ total <= total_pages * page_size < total + page_size
    /\ (let walk := all_pages like table page_size total_pages sku name
                      description is_active search in
        (exists all, mapM ProductResponse.model_validate query = Some all
                     /\ walk ≡ₚ all)
        /\ descending (ProductResponse.id <$> walk)).
Proof.
  intros Hsize Hqty query total.
  set (sorted := order_by_id_desc query).
  set (n := Z.to_nat page_size).
  assert (Hq : Forall (fun p => is_Some (Product.quantity p)) query).
  { by apply filtered_Forall. }
  assert (Hs : Forall (fun p => is_Some (Product.quantity p)) sorted).
  { subst sorted. by rewrite order_by_id_desc_perm. }
  assert (Hlen : length sorted = length query).
  { subst sorted. by rewrite order_by_id_desc_perm. }
  assert (Hpage : forall page, 1 <= page ->
            list_products like table page page_size sku name description
              is_active search
            = List_200 (response_of
                          <$> take n (drop (Z.to_nat ((page - 1) * page_size)) sorted))
                total page page_size ((total + page_size - 1) / page_size)).
  { intros page Hp. unfold list_products.
    replace (negb _) with false
      by (symmetry; apply negb_false_iff; rewrite !andb_true_iff; lia).
    fold query sorted n. rewrite model_validate_all; [done |].
    by apply Forall_take, Forall_drop. }
  pose proof (Z.div_mod (total + page_size - 1) page_size ltac:(lia)) as Hdm.
  pose proof (Z.mod_pos_bound (total + page_size - 1) page_size ltac:(lia)) as Hr.
  set (total_pages := (total + page_size - 1) / page_size) in *.
  assert (Hceil : total <= total_pages * page_size < total + page_size) by lia.
  exists total_pages. split; [| split; [done |]].
  - intros page Hp. eexists. split; [by apply Hpage |].
    rewrite length_fmap, length_take, length_drop, Hlen. fold total.
    assert (0 <= (page - 1) * page_size) by nia. subst n total. lia.
  - cbn zeta.
    assert (Hwalk : all_pages like table page_size total_pages sku name
                      description is_active search
                    = response_of <$> sorted).
    { unfold all_pages. rewrite <- seq_shift, map_map.
      erewrite map_ext.
      - rewrite (pages_concat response_of sorted n (Z.to_nat total_pages)).
        rewrite take_ge; [done |]. rewrite Hlen. subst n total. 
        assert (0 <= total_pages) by nia. nia.
      - intros k. cbn beta. rewrite Hpage by lia. cbn [page_items].
        do 3 f_equal. subst n. nia. }
    rewrite Hwalk. split.
    + exists (response_of <$> query). split; [by apply model_validate_all |].
      subst sorted. by rewrite order_by_id_desc_perm.
    + rewrite <- list_fmap_compose.
      change (descending (Product.id <$> sorted)).
      apply order_by_id_desc_descending.
Qed.

End ListProductsProperties.

Lemma list_products_pages_witness :
  let table := [Product.mk 1 "A1" "Widget" None None (Some 1) true;
                Product.mk 2 "B2" "Gadget" None None (Some 2) false;
                Product.mk 3 "C3" "Thing" None None (Some 3) true] in
  let query := filtered (fun _ _ => true) table None None None None None in
  let total := Z.of_nat (length query) in
  exists total_pages,
    (forall page, 1 <= page ->
       exists items,
         list_products (fun _ _ => true) table page 2 None None None None None
         = List_200 items total page 2 total_pages
         /\ Z.of_nat (length items)
            = Z.max 0 (Z.min 2 (total - (page - 1) * 2)))
    /\ total <= total_pages * 2 < total + 2
    /\ (let walk := all_pages (fun _ _ => true) table 2 total_pages None None
                      None None None in
        (exists all, mapM ProductResponse.model_validate query = Some all
                     /\ walk ≡ₚ all)
        /\ descending (ProductResponse.id <$> walk)).
Proof.
  apply (list_products_pages (fun _ _ => true)); [lia |].
  repeat constructor; by eexists.
Defined.

(** ** The status of a job *)



(** ** The progress stream *)

Lemma poll_loop_ok reads remaining :
  forall retry_count last_data,
    stream_ok last_data (poll_loop remaining retry_count last_data reads)
    /\ (length (poll_loop remaining retry_count last_data reads) <= remaining)%nat.
Proof.
  induction remaining as [| n IH]; intros c last; [by split |].
  cbn [poll_loop]. destruct (reads c) as [[p |] |].
  - case_bool_decide as Hne.
    + cbn [stream_ok length]. destruct (terminal (Progress.status p)) eqn:Et.
      * split_and!; [done | done | cbn; lia].
      * destruct (IH (S c) (Some p)) as [H1 H2].
        split_and!; [done | done | lia].
    + destruct (IH (S c) last) as [H1 H2]. split; [done | lia].
  - destruct (IH (S c) last) as [H1 H2]. split; [done | lia].
  - split; [done | cbn; lia].
Qed.

Lemma stream_ok_spec evs :
  forall last_data,
    stream_ok last_data evs ->
    (SseStreamEnded ∉ evs)
    /\ (forall i p, evs !! i = Some (SseData p) ->
          terminal (Progress.status p) = true -> S i = length evs)
    /\ (forall i, evs !! i = Some SseError -> S i = length evs)
    /\ (forall i p q, evs !! i = Some (SseData p) ->
          evs !! S i = Some (SseData q) -> p <> q).
Proof.
  induction evs as [| ev rest IH]; intros last H.
  - split_and!; [apply not_elem_of_nil | done | done | done].
  - destruct ev as [p | |]; cbn [stream_ok] in H; [| subst rest | done].
    + destruct H as [Hne H].
      destruct (terminal (Progress.status p)) eqn:Et.
      * subst rest. split_and!.
        -- intros [? | ?%elem_of_nil]%elem_of_cons; done.
        -- intros [| i] q Hi _; [done | done].
        -- intros [| i] Hi; done.
        -- intros [| i] q1 q2 Hi Hj; done.
      * destruct (IH _ H) as (H1 & H2 & H3 & H4). split_and!.
        -- intros [? | ?]%elem_of_cons; done.
        -- intros [| i] q Hi Hq; cbn in Hi.
           ++ injection Hi as <-. congruence.
           ++ cbn [length]. f_equal. by eapply H2.
        -- intros [| i] Hi; cbn in Hi; [done |].
           cbn [length]. f_equal. by apply H3.
        -- intros [| i] q1 q2 Hi Hj; cbn in Hi, Hj.
           ++ injection Hi as <-. destruct rest as [| [q | |] rest']; try done.
              injection Hj as <-. cbn [stream_ok] in H. destruct H as [H _].
              congruence.
           ++ by eapply H4.
    + split_and!.
      * intros [? | ?%elem_of_nil]%elem_of_cons; done.
      * intros [| i] q Hi _; done.
      * intros [| i] Hi; done.
      * intros [| i] q1 q2 Hi Hj; done.
Qed.

(** X27.  Whatever the polls of the progress store give, the stream of
    a job ends with the event [stream_ended], which it sends once,
    after at most 600 other events; a snapshot of a job that is
    completed or failed, or an error, is the last event before it; and
    no snapshot is sent twice in a row. *)
Theorem stream_ends (reads : nat -> Poll) :
  exists evs,
    event_generator reads = evs ++ [SseStreamEnded]
    /\ (length evs <= 600)%nat
    /\ (SseStreamEnded ∉ evs)
    /\ (forall i p, evs !! i = Some (SseData p) ->
          terminal (Progress.status p) = true -> S i = length evs)
    /\ (forall i, evs !! i = Some SseError -> S i = length evs)
    /\ (forall i p q, evs !! i = Some (SseData p) ->
          evs !! S i = Some (SseData q) -> p <> q).
Proof.
  exists (poll_loop 600 0 None reads).
  destruct (poll_loop_ok reads 600 0%nat None) as [Hok Hlen].
  destruct (stream_ok_spec _ _ Hok) as (H1 & H2 & H3 & H4).
  split_and!; done.
Qed.

(** ** Importing a file again *)




